(** * QML analyzer: lexer, macro expander and rule engine

    A shallow embedding of the parts of
      - [source/cpp/QMLTree/QMLTreeContext.cpp]   (character reader, lexer, parse driver),
      - [source/cpp/QMLTree/QMLAnalyzer.cpp]      (macro expander, rule engine),
      - [source/cpp/QMLTree/QMLBinaryOperation.cpp] (member introspection)
    that the specification's testable properties talk about, followed by
    the properties themselves. *)

From Stdlib Require Import ZArith List String Ascii Bool Lia.
Import ListNotations.

Local Open Scope string_scope.
Local Open Scope Z_scope.

(** ** Qt strings

    [QString] is modelled by [string]; a character is one Latin-1 code. *)
Module QStr.

(** Code of a character, as the [int] the lexer works with. *)
Definition ch (a : ascii) : Z := Z.of_N (N_of_ascii a).

(** [QChar(c)] for a code in the Latin-1 range. *)
Definition qchar (c : Z) : ascii := ascii_of_N (Z.to_N c).

Definition isEmpty (s : string) : bool :=
  match s with EmptyString => true | _ => false end.

(** [QChar::toLower] on Latin-1: A-Z, and the accented capitals
    0xC0-0xDE except the multiplication sign 0xD7, move up by 0x20. *)
Definition lowerChar (a : ascii) : ascii :=
  let n := N_of_ascii a in
  if ((65 <=? n) && (n <=? 90))%N then ascii_of_N (n + 32)
  else if ((192 <=? n) && (n <=? 222) && negb (n =? 215))%N then ascii_of_N (n + 32)
  else a.

Fixpoint toLower (s : string) : string :=
  match s with
  | EmptyString => EmptyString
  | String a r => String (lowerChar a) (toLower r)
  end.

(** [s.startsWith(p)]. *)
Fixpoint startsWith (p s : string) : bool :=
  match p, s with
  | EmptyString, _ => true
  | String a p', String b s' => Ascii.eqb a b && startsWith p' s'
  | String _ _, EmptyString => false
  end.

(** [s.contains(p)]: [p] occurs somewhere in [s]. *)
Fixpoint contains (p s : string) : bool :=
  startsWith p s ||
  match s with
  | EmptyString => false
  | String _ s' => contains p s'
  end.

(** [s.replace(before, after)] for a non-empty [before]: the occurrences
    of [before] are found from left to right without overlap, in the
    original text; what has been inserted is not searched again.  The
    fuel is the number of characters that may still be skipped by a
    match, so that the recursion is structural on [s]. *)
Fixpoint replaceFrom (before after : string) (skip : nat) (s : string) : string :=
  match s with
  | EmptyString => EmptyString
  | String a s' =>
      match skip with
      | S k => replaceFrom before after k s'
      | O =>
          if startsWith before s
          then after ++ replaceFrom before after (Nat.pred (String.length before)) s'
          else String a (replaceFrom before after O s')
      end
  end.

(** An empty [before] matches before every character and at the end. *)
Fixpoint intersperse (after s : string) : string :=
  match s with
  | EmptyString => after
  | String a s' => after ++ String a (intersperse after s')
  end.

Definition replace (before after s : string) : string :=
  if isEmpty before then intersperse after s
  else replaceFrom before after O s.

(** Replacing the double quote by the empty string, as the rule
    engine does on every member text: all double quotes are removed. *)
Definition dquote : ascii := ascii_of_N 34.

Definition stripQuotes (s : string) : string :=
  replace (String dquote EmptyString) EmptyString s.

(** [s.split(",")]: the fields between separators, empty ones kept. *)
Fixpoint splitAcc (sep : ascii) (acc s : string) : list string :=
  match s with
  | EmptyString => [acc]
  | String a s' =>
      if Ascii.eqb a sep then acc :: splitAcc sep EmptyString s'
      else splitAcc sep (acc ++ String a EmptyString) s'
  end.

Definition split (sep : ascii) (s : string) : list string :=
  splitAcc sep EmptyString s.

(** [QStringList::contains]. *)
Definition listContains (l : list string) (s : string) : bool :=
  existsb (String.eqb s) l.

(** *** [QString::toInt()] (base 10)

    Surrounding white space is ignored, one sign is allowed, then only
    decimal digits; anything else, or a value outside [int], makes the
    conversion fail, and a failed conversion returns 0. *)
Definition isSpace (a : ascii) : bool :=
  let n := N_of_ascii a in ((n =? 32) || ((9 <=? n) && (n <=? 13)))%N.

Fixpoint trimLeft (s : string) : string :=
  match s with
  | String a s' => if isSpace a then trimLeft s' else s
  | EmptyString => EmptyString
  end.

Fixpoint allSpace (s : string) : bool :=
  match s with
  | EmptyString => true
  | String a s' => isSpace a && allSpace s'
  end.

(** Digits of [s] accumulated onto [acc]; trailing white space ends the
    number, any other character fails. *)
Fixpoint digitsAcc (acc : Z) (seen : bool) (s : string) : option Z :=
  match s with
  | EmptyString => if seen then Some acc else None
  | String a s' =>
      let n := N_of_ascii a in
      if ((48 <=? n) && (n <=? 57))%N
      then digitsAcc (10 * acc + Z.of_N (n - 48)) true s'
      else if seen && allSpace s then Some acc else None
  end.

Definition INT_MAX : Z := 2147483647.
Definition INT_MIN : Z := -2147483648.

Definition toIntOk (s : string) : option Z :=
  let t := trimLeft s in
  let r :=
    match t with
    | String "-"%char t' => option_map Z.opp (digitsAcc 0 false t')
    | String "+"%char t' => digitsAcc 0 false t'
    | _ => digitsAcc 0 false t
    end in
  match r with
  | Some v => if (INT_MIN <=? v) && (v <=? INT_MAX) then Some v else None
  | None => None
  end.

Definition toInt (s : string) : Z :=
  match toIntOk s with Some v => v | None => 0 end.

End QStr.

(** ** [QMap<QString, T>]

    A [QMap] keeps its keys sorted and unique; [keys()] and [foreach]
    visit them in ascending order.  It is modelled by an association list
    kept in that order. *)
Module QMap.

Definition t (V : Type) : Type := list (string * V).

Definition ltb (a b : string) : bool :=
  match String.compare a b with Lt => true | _ => false end.

Fixpoint insert {V} (k : string) (v : V) (m : t V) : t V :=
  match m with
  | [] => [(k, v)]
  | (k', v') :: m' =>
      if String.eqb k k' then (k, v) :: m'
      else if ltb k k' then (k, v) :: m
      else (k', v') :: insert k v m'
  end.

Fixpoint lookup {V} (k : string) (m : t V) : option V :=
  match m with
  | [] => None
  | (k', v) :: m' => if String.eqb k k' then Some v else lookup k m'
  end.

Definition contains {V} (k : string) (m : t V) : bool :=
  match lookup k m with Some _ => true | None => false end.

Definition keys {V} (m : t V) : list string := map fst m.

(** [m[k]] on a map of strings: a missing key reads as the empty string. *)
Definition value (k : string) (m : t string) : string :=
  match lookup k m with Some v => v | None => EmptyString end.

End QMap.

(** ** The character reader and the lexer ([QMLTreeContext.cpp]) *)
Module Lexer.
Import QStr.

Definition EOF : Z := -1.

Definition TOKEN_IDENTIFIER       : Z := 300.
Definition TOKEN_LITERAL          : Z := 301.
Definition TOKEN_BOOLCONSTANT     : Z := 302.
Definition TOKEN_INTEGERCONSTANT  : Z := 303.
Definition TOKEN_REALCONSTANT     : Z := 304.
Definition TOKEN_ASSIGN           : Z := 310.
Definition TOKEN_ADD              : Z := 311.
Definition TOKEN_SUB              : Z := 312.
Definition TOKEN_MUL              : Z := 313.
Definition TOKEN_DIV              : Z := 314.
Definition TOKEN_MOD              : Z := 315.
Definition TOKEN_AND              : Z := 316.
Definition TOKEN_OR               : Z := 317.
Definition TOKEN_XOR              : Z := 318.
Definition TOKEN_SHL              : Z := 319.
Definition TOKEN_SHR              : Z := 320.
Definition TOKEN_ADD_ASSIGN       : Z := 321.
Definition TOKEN_SUB_ASSIGN       : Z := 322.
Definition TOKEN_MUL_ASSIGN       : Z := 323.
Definition TOKEN_DIV_ASSIGN       : Z := 324.
Definition TOKEN_MOD_ASSIGN       : Z := 325.
Definition TOKEN_AND_ASSIGN       : Z := 326.
Definition TOKEN_OR_ASSIGN        : Z := 327.
Definition TOKEN_XOR_ASSIGN       : Z := 328.
Definition TOKEN_SHL_ASSIGN       : Z := 329.
Definition TOKEN_SHR_ASSIGN       : Z := 330.
Definition TOKEN_LOWER            : Z := 331.
Definition TOKEN_GREATER          : Z := 332.
Definition TOKEN_LOWER_EQUALS     : Z := 333.
Definition TOKEN_GREATER_EQUALS   : Z := 334.
Definition TOKEN_EQUALS           : Z := 335.
Definition TOKEN_EQUALS_CHECK     : Z := 336.
Definition TOKEN_NOT_EQUALS       : Z := 337.
Definition TOKEN_NOT_EQUALS_CHECK : Z := 338.
Definition TOKEN_LOGICAL_AND      : Z := 339.
Definition TOKEN_LOGICAL_OR       : Z := 340.
Definition TOKEN_NOT              : Z := 341.
Definition TOKEN_NOT_NOT          : Z := 342.
Definition TOKEN_INC              : Z := 343.
Definition TOKEN_DEC              : Z := 344.
Definition TOKEN_COMPLEMENT       : Z := 345.
Definition TOKEN_DIMENSION        : Z := 346.

(** The keyword table filled by the constructor of [QMLTreeContext]. *)
Definition m_mTokens : QMap.t Z :=
  fold_left (fun m kv => QMap.insert (fst kv) (snd kv) m)
    [ ("import", 500); ("property", 501); ("default", 502); ("readonly", 503);
      ("alias", 504); ("function", 512); ("if", 513); ("else", 514);
      ("for", 515); ("in", 516); ("while", 517); ("switch", 518);
      ("case", 519); ("break", 520); ("continue", 521); ("with", 522);
      ("return", 523); ("typeof", 524); ("pragma", 525); ("on", 526);
      ("as", 527); ("signal", 528); ("var", 505); ("new", 529) ]
    [].

(** The fields of a [QMLScope] that the lexer reads and writes.  The text
    stream is its buffer and the read position. *)
Record QMLScope : Type := mkScope {
  m_sStream : string;
  m_iPos : nat;
  m_iLine : Z;
  m_iColumn : Z;
  m_iPreviousLine : Z;
  m_iPreviousColumn : Z;
  m_iCommentLevel : Z;
  m_bParsingFloat : bool;
  m_bParsingHexa : bool;
  m_pCurrentTokenValue : string
}.

(** A scope freshly opened on a text. *)
Definition openScope (text : string) : QMLScope :=
  mkScope text 0 0 0 0 0 0 false false EmptyString.

(** The parser value [UParserValue]; a real constant keeps its text,
    the conversion to [double] is not modelled. *)
Inductive UParserValue : Type :=
| LNone
| LBoolean (b : bool)
| LInteger (i : Z)
| LReal (text : string)
| LString (s : string).

Definition setPos (p : nat) (s : QMLScope) : QMLScope :=
  mkScope (m_sStream s) p (m_iLine s) (m_iColumn s) (m_iPreviousLine s)
    (m_iPreviousColumn s) (m_iCommentLevel s) (m_bParsingFloat s)
    (m_bParsingHexa s) (m_pCurrentTokenValue s).

Definition setLineColumn (l c : Z) (s : QMLScope) : QMLScope :=
  mkScope (m_sStream s) (m_iPos s) l c (m_iPreviousLine s)
    (m_iPreviousColumn s) (m_iCommentLevel s) (m_bParsingFloat s)
    (m_bParsingHexa s) (m_pCurrentTokenValue s).

Definition setPrevious (l c : Z) (s : QMLScope) : QMLScope :=
  mkScope (m_sStream s) (m_iPos s) (m_iLine s) (m_iColumn s) l c
    (m_iCommentLevel s) (m_bParsingFloat s)
    (m_bParsingHexa s) (m_pCurrentTokenValue s).

Definition setCommentLevel (n : Z) (s : QMLScope) : QMLScope :=
  mkScope (m_sStream s) (m_iPos s) (m_iLine s) (m_iColumn s) (m_iPreviousLine s)
    (m_iPreviousColumn s) n (m_bParsingFloat s)
    (m_bParsingHexa s) (m_pCurrentTokenValue s).

Definition setParsingFloat (b : bool) (s : QMLScope) : QMLScope :=
  mkScope (m_sStream s) (m_iPos s) (m_iLine s) (m_iColumn s) (m_iPreviousLine s)
    (m_iPreviousColumn s) (m_iCommentLevel s) b
    (m_bParsingHexa s) (m_pCurrentTokenValue s).

Definition setParsingHexa (b : bool) (s : QMLScope) : QMLScope :=
  mkScope (m_sStream s) (m_iPos s) (m_iLine s) (m_iColumn s) (m_iPreviousLine s)
    (m_iPreviousColumn s) (m_iCommentLevel s) (m_bParsingFloat s)
    b (m_pCurrentTokenValue s).

Definition setTokenValue (v : string) (s : QMLScope) : QMLScope :=
  mkScope (m_sStream s) (m_iPos s) (m_iLine s) (m_iColumn s) (m_iPreviousLine s)
    (m_iPreviousColumn s) (m_iCommentLevel s) (m_bParsingFloat s)
    (m_bParsingHexa s) v.

(** [getChar]: [EOF] at the end of the stream, where nothing moves;
    otherwise the next character, with the line and column updated.
    The character is taken by its Latin-1 code; the source takes
    [toLatin1()], a [char], which is that code on ASCII text. *)
Definition getChar (s : QMLScope) : Z * QMLScope :=
  match String.get (m_iPos s) (m_sStream s) with
  | None => (EOF, s)
  | Some a =>
      let iChar := ch a in
      let s1 := setPos (S (m_iPos s)) s in
      let s2 :=
        if iChar =? 10 then setLineColumn (m_iLine s1 + 1) 0 s1
        else if iChar =? 9 then setLineColumn (m_iLine s1) (m_iColumn s1 + 8) s1
        else if iChar =? 13 then s1
        else setLineColumn (m_iLine s1) (m_iColumn s1 + 1) s1 in
      (iChar, s2)
  end.

(** [ungetChar]: the stream seeks one position back whatever [iChar]
    is, [EOF] included (a seek before the start fails and leaves the
    stream at 0); the bookkeeping is reversed by the character given. *)
Definition ungetChar (iChar : Z) (s : QMLScope) : QMLScope :=
  let s1 := setPos (Nat.pred (m_iPos s)) s in
  if iChar =? 10 then setLineColumn (m_iLine s1 - 1) 1024 s1
  else if iChar =? 9 then setLineColumn (m_iLine s1) (m_iColumn s1 - 8) s1
  else if iChar =? 13 then s1
  else setLineColumn (m_iLine s1) (m_iColumn s1 - 1) s1.

(** *** The lexer monad

    State passing over the scope; [None] is a loop that has used up its
    fuel, every loop of the source being given a number of turns. *)
Definition Lex (A : Type) : Type := QMLScope -> option (A * QMLScope).

Definition ret {A} (a : A) : Lex A := fun s => Some (a, s).

Definition bind {A B} (m : Lex A) (k : A -> Lex B) : Lex B :=
  fun s => match m s with
           | Some (a, s') => k a s'
           | None => None
           end.

Definition outOfFuel {A} : Lex A := fun _ => None.

Declare Scope lex_scope.
Delimit Scope lex_scope with lex.
Notation "x <- m ;; k" := (bind m (fun x => k))
  (at level 61, m at next level, right associativity) : lex_scope.
Notation "m ;;; k" := (bind m (fun _ => k))
  (at level 61, right associativity) : lex_scope.
Local Open Scope lex_scope.

Definition GET : Lex Z := fun s => Some (getChar s).
Definition UNGET (c : Z) : Lex unit := fun s => Some (tt, ungetChar c s).
Definition STORE (c : Z) : Lex unit :=
  fun s => Some (tt, setTokenValue (m_pCurrentTokenValue s ++ String (qchar c) EmptyString) s).
Definition reads {A} (f : QMLScope -> A) : Lex A := fun s => Some (f s, s).
Definition update (f : QMLScope -> QMLScope) : Lex unit := fun s => Some (tt, f s).

(** The C classification functions on an [int], in the C locale. *)
Definition isdigit (c : Z) : bool := (48 <=? c) && (c <=? 57).
Definition isalpha (c : Z) : bool :=
  ((65 <=? c) && (c <=? 90)) || ((97 <=? c) && (c <=? 122)).
Definition isalnum (c : Z) : bool := isalpha c || isdigit c.

(** [parseEscape]. *)
Definition parseEscape : Lex Z :=
  c <- GET ;;
  ret (if c =? ch dquote then ch dquote
       else if c =? ch "\" then ch "\"
       else if c =? ch "a" then 7
       else if c =? ch "b" then 8
       else if c =? ch "f" then 12
       else if c =? ch "n" then 10
       else if c =? ch "r" then 13
       else if c =? ch "t" then 9
       else if c =? ch "v" then 11
       else ch " ").

(** The loop of [parseNumber]. *)
Fixpoint parseNumber_loop (fuel : nat) : Lex unit :=
  match fuel with
  | O => outOfFuel
  | S fuel' =>
      c <- GET ;;
      let Done := c =? EOF in
      if isdigit c then
        STORE c ;;; (if Done then ret tt else parseNumber_loop fuel')
      else if ((97 <=? c) && (c <=? 102)) || ((65 <=? c) && (c <=? 70)) then
        hexa <- reads m_bParsingHexa ;;
        if hexa then STORE c ;;; (if Done then ret tt else parseNumber_loop fuel')
        else UNGET c
      else if c =? ch "." then
        float <- reads m_bParsingFloat ;;
        if negb float then
          update (setParsingFloat true) ;;; STORE c ;;;
          (if Done then ret tt else parseNumber_loop fuel')
        else UNGET c
      else UNGET c
  end.

(** [parseNumber]: the value of an integer constant is [toInt()] of the
    token text, in hexadecimal mode too. *)
Definition parseNumber (fuel : nat) (LVAL : UParserValue) : Lex (Z * UParserValue) :=
  parseNumber_loop fuel ;;;
  float <- reads m_bParsingFloat ;;
  hexa <- reads m_bParsingHexa ;;
  text <- reads m_pCurrentTokenValue ;;
  if float then ret (TOKEN_REALCONSTANT, LReal text)
  else if hexa then ret (TOKEN_INTEGERCONSTANT, LInteger (toInt text))
  else ret (TOKEN_INTEGERCONSTANT, LInteger (toInt text)).

(** The loop that skips the rest of a line comment: [true] when the end
    of the line was reached, [false] when the stream ended first. *)
Fixpoint lineComment_loop (fuel : nat) (c : Z) : Lex bool :=
  match fuel with
  | O => outOfFuel
  | S fuel' =>
      if c =? 10 then ret true
      else
        c' <- GET ;;
        if c' =? EOF then ret false else lineComment_loop fuel' c'
  end.

(** The first loop of [parseNextToken], which skips white space and
    comments: [true] when it leaves by [break], [false] when it makes
    [parseNextToken] return 0 at the end of the stream. *)
Fixpoint skip_loop (fuel : nat) : Lex bool :=
  match fuel with
  | O => outOfFuel
  | S fuel' =>
      c <- GET ;;
      if c =? EOF then ret false
      else
        level <- reads m_iCommentLevel ;;
        if level >? 0 then
          (if c =? ch "*" then
             d <- GET ;;
             if d =? ch "/"
             then update (fun s => setCommentLevel (m_iCommentLevel s - 1) s)
             else UNGET d
           else ret tt) ;;;
          skip_loop fuel'
        else if c =? ch "/" then
          d <- GET ;;
          if d =? ch "*" then
            update (fun s => setCommentLevel (m_iCommentLevel s + 1) s) ;;;
            skip_loop fuel'
          else if d =? ch "/" then
            level' <- reads m_iCommentLevel ;;
            if level' =? 0 then
              more <- lineComment_loop fuel' c ;;
              if more then skip_loop fuel' else ret false
            else skip_loop fuel'
          else
            UNGET d ;;; UNGET c ;;; ret true
        else if c >? ch " " then UNGET c ;;; ret true
        else skip_loop fuel'
  end.

(** The loop after an opening bracket: [true] when a closing bracket
    follows (a dimension token), [false] when it leaves by [break]. *)
Fixpoint dimension_loop (fuel : nat) : Lex bool :=
  match fuel with
  | O => outOfFuel
  | S fuel' =>
      d <- GET ;;
      if d >? ch " " then
        if d =? ch "]" then STORE d ;;; ret true
        else UNGET d ;;; ret false
      else dimension_loop fuel'
  end.

(** The loop of a string literal closed by [quote]: [true] at the
    closing quote, [false] when the stream ends inside the literal. *)
Fixpoint literal_loop (fuel : nat) (quote : Z) : Lex bool :=
  match fuel with
  | O => outOfFuel
  | S fuel' =>
      c <- GET ;;
      if c =? EOF then ret false
      else if c =? quote then ret true
      else
        c' <- (if c =? ch "\" then parseEscape else ret c) ;;
        STORE c' ;;; literal_loop fuel' quote
  end.

(** The do-while loop of an identifier; returns the character that ended it. *)
Fixpoint identifier_loop (fuel : nat) (c : Z) : Lex Z :=
  match fuel with
  | O => outOfFuel
  | S fuel' =>
      STORE c ;;;
      c' <- GET ;;
      if negb (c' =? EOF) && (isalnum c' || ((c' =? ch "_") || (c' =? ch "$")))
      then identifier_loop fuel' c'
      else ret c'
  end.

(** One or two character operators: after [c], [d] is read and looked
    up in [twos]; when it is not there it is put back. *)
Definition operator2 (c : Z) (twos : list (Z * Z)) (single : Z) (LVAL : UParserValue)
  : Lex (Z * UParserValue) :=
  STORE c ;;;
  d <- GET ;;
  match find (fun p => d =? fst p) twos with
  | Some p => STORE d ;;; ret (snd p, LVAL)
  | None => UNGET d ;;; ret (single, LVAL)
  end.

(** [parseNextToken]: the token, and what [LVAL] holds afterwards. *)
Definition parseNextToken (fuel : nat) (LVAL : UParserValue) : Lex (Z * UParserValue) :=
  update (setTokenValue EmptyString) ;;;
  update (setCommentLevel 0) ;;;
  update (setParsingFloat false) ;;;
  update (setParsingHexa false) ;;;
  found <- skip_loop fuel ;;
  if negb found then ret (0, LVAL)
  else
  update (fun s => setPrevious (m_iLine s) (m_iColumn s) s) ;;;
  c <- GET ;;
  if c =? EOF then ret (0, LVAL)
  else if c =? ch "+" then
    operator2 c [(ch "+", TOKEN_INC); (ch "=", TOKEN_ADD_ASSIGN)] TOKEN_ADD LVAL
  else if c =? ch "-" then
    operator2 c [(ch "-", TOKEN_DEC); (ch "=", TOKEN_SUB_ASSIGN)] TOKEN_SUB LVAL
  else if c =? ch "*" then
    operator2 c [(ch "=", TOKEN_MUL_ASSIGN)] TOKEN_MUL LVAL
  else if c =? ch "/" then
    operator2 c [(ch "=", TOKEN_DIV_ASSIGN)] TOKEN_DIV LVAL
  else if c =? ch "%" then
    operator2 c [(ch "=", TOKEN_MOD_ASSIGN)] TOKEN_MOD LVAL
  else if c =? ch "&" then
    operator2 c [(ch "&", TOKEN_LOGICAL_AND); (ch "=", TOKEN_AND_ASSIGN)] TOKEN_AND LVAL
  else if c =? ch "|" then
    operator2 c [(ch "|", TOKEN_LOGICAL_OR); (ch "=", TOKEN_OR_ASSIGN)] TOKEN_OR LVAL
  else if c =? ch "^" then
    operator2 c [(ch "=", TOKEN_XOR_ASSIGN)] TOKEN_XOR LVAL
  else if c =? ch "<" then
    STORE c ;;;
    d <- GET ;;
    if d =? ch "=" then STORE d ;;; ret (TOKEN_LOWER_EQUALS, LVAL)
    else if d =? ch "<" then
      STORE d ;;;
      e <- GET ;;
      if e =? ch "=" then STORE e ;;; ret (TOKEN_SHL_ASSIGN, LVAL)
      else UNGET e ;;; ret (TOKEN_SHL, LVAL)
    else if d =? ch ">" then STORE d ;;; ret (TOKEN_NOT_EQUALS, LVAL)
    else UNGET d ;;; ret (TOKEN_LOWER, LVAL)
  else if c =? ch ">" then
    STORE c ;;;
    d <- GET ;;
    if d =? ch "=" then STORE d ;;; ret (TOKEN_GREATER_EQUALS, LVAL)
    else if d =? ch ">" then
      STORE d ;;;
      e <- GET ;;
      if e =? ch "=" then STORE e ;;; ret (TOKEN_SHR_ASSIGN, LVAL)
      else UNGET e ;;; ret (TOKEN_SHR, LVAL)
    else UNGET d ;;; ret (TOKEN_GREATER, LVAL)
  else if c =? ch "=" then
    STORE c ;;;
    d <- GET ;;
    if d =? ch "=" then
      STORE d ;;;
      e <- GET ;;
      if e =? ch "=" then STORE e ;;; ret (TOKEN_EQUALS_CHECK, LVAL)
      else UNGET e ;;; ret (TOKEN_EQUALS, LVAL)
    else UNGET d ;;; ret (TOKEN_ASSIGN, LVAL)
  else if c =? ch "!" then
    STORE c ;;;
    d <- GET ;;
    if d =? ch "!" then STORE d ;;; ret (TOKEN_NOT_NOT, LVAL)
    else if d =? ch "=" then
      STORE d ;;;
      e <- GET ;;
      if e =? ch "=" then STORE e ;;; ret (TOKEN_NOT_EQUALS_CHECK, LVAL)
      else UNGET e ;;; ret (TOKEN_NOT_EQUALS, LVAL)
    else UNGET d ;;; ret (TOKEN_NOT, LVAL)
  else if c =? ch "~" then STORE c ;;; ret (TOKEN_COMPLEMENT, LVAL)
  else if c =? ch "[" then
    STORE c ;;;
    closed <- dimension_loop fuel ;;
    if closed then ret (TOKEN_DIMENSION, LVAL) else ret (c, LVAL)
  else if (c =? ch dquote) || (c =? ch "'") then
    closed <- literal_loop fuel c ;;
    if closed then
      text <- reads m_pCurrentTokenValue ;;
      ret (TOKEN_LITERAL, LString text)
    else ret (0, LVAL)
  else if c =? ch "." then
    d <- GET ;;
    if isdigit d then
      update (setParsingFloat true) ;;;
      STORE (ch "0") ;;; STORE c ;;; STORE d ;;;
      parseNumber fuel LVAL
    else STORE c ;;; UNGET d ;;; ret (c, LVAL)
  else if isdigit c then
    zero_x <-
      (if c =? ch "0" then
         d <- GET ;;
         if (d =? ch "x") || (d =? ch "X") then
           STORE c ;;; STORE d ;;; update (setParsingHexa true) ;;; ret true
         else UNGET d ;;; ret false
       else ret false) ;;
    if zero_x then parseNumber fuel LVAL
    else STORE c ;;; parseNumber fuel LVAL
  else if isalpha c || (c =? ch "_") || (c =? ch "$") then
    last <- identifier_loop fuel c ;;
    UNGET last ;;;
    text <- reads m_pCurrentTokenValue ;;
    if String.eqb (toLower text) "true" then ret (TOKEN_BOOLCONSTANT, LBoolean true)
    else if String.eqb (toLower text) "false" then ret (TOKEN_BOOLCONSTANT, LBoolean false)
    else
      match QMap.lookup text m_mTokens with
      | Some token => ret (token, LVAL)
      | None => ret (TOKEN_IDENTIFIER, LString text)
      end
  else STORE c ;;; ret (c, LVAL).

(** [Keeps p s s']: from [s] to [s'] the token text keeps the prefix
    [p] and the hexadecimal flag is left as it is. *)
Definition Keeps (p : string) (s s' : QMLScope) : Prop :=
  (startsWith p (m_pCurrentTokenValue s) = true ->
   startsWith p (m_pCurrentTokenValue s') = true)
  /\ m_bParsingHexa s' = m_bParsingHexa s.

(** [refines m1 m2]: whatever [m1] returns, [m2] returns as well; used
    to compare a loop with the same loop given more turns. *)
Definition refines {A} (m1 m2 : Lex A) : Prop :=
  forall s r, m1 s = Some r -> m2 s = Some r.

(** From the read position on, the stream holds white space only. *)
Definition restWhite (s : QMLScope) : Prop :=
  forall n a, (m_iPos s <= n)%nat -> String.get n (m_sStream s) = Some a -> ch a <= 32.

(** The token and value of the first call on a fresh scope over [text]. *)
Definition firstToken (fuel : nat) (text : string) : option (Z * UParserValue) :=
  option_map fst (parseNextToken fuel LNone (openScope text)).

End Lexer.

(** ** The AST as the rule engine sees it *)
Module Tree.

(** [QPoint(x, y)]: x is the column, y the line. *)
Definition QPoint : Type := (Z * Z)%type.

(** Modelled from the spec: the class [QMLEntity] and its subclasses are
    declared outside the files at hand; the rule engine reaches a node
    only through the interface of section 4.D, which this record lists:
    the class name ([metaObject()->className()]), the canonical text
    ([toString()]), the source position, the type name of the literal
    value ([QMLType::typeToString(value().type())]), the member map
    ([members()], whose entries may be null), the ordered children when
    the node is a [QMLComplexEntity] ([contents()]), the unreferenced
    properties when it is a [QMLItem], and the unreferenced variables
    and parameters when it is a [QMLFunction]. *)
#[local] Unset Elimination Schemes.
Inductive QMLEntity : Type := mkEntity {
  className : string;
  toString : string;
  position : QPoint;
  valueTypeName : string;
  members : list (string * option QMLEntity);
  contents : option (list (option QMLEntity));
  unusedProperties : option (list (string * QPoint));
  unusedSymbols : option (list (string * QPoint) * list (string * QPoint))
}.
#[local] Set Elimination Schemes.

(** A node that is neither complex, nor an item, nor a function. *)
Definition leaf (cls text : string) (pos : QPoint) : QMLEntity :=
  mkEntity cls text pos EmptyString [] None None None.

(** *** [QMLBinaryOperation.cpp] *)
Inductive EOperator : Type :=
| boNone | boAssign | boAdd | boSub | boMul | boDiv | boMod
| boAnd | boOr | boXor | boLogicAnd | boLogicOr
| boEquals | boEqualsCheck | boNotEquals | boNotEqualsCheck
| boLower | boLowerOrEquals | boGreater | boGreaterOrEquals.

Record QMLBinaryOperation : Type := mkBinaryOperation {
  bo_position : QPoint;
  m_pLeft : option QMLEntity;
  m_pRight : option QMLEntity;
  m_eOperator : EOperator
}.

(** [QMLBinaryOperation::members]: two entries are written into an empty
    map, under the keys spelled as in the source. *)
Definition binaryOperation_members (b : QMLBinaryOperation)
  : QMap.t (option QMLEntity) :=
  QMap.insert "Right" (m_pRight b) (QMap.insert "Left" (m_pLeft b) []).

Definition operatorToString (eOperator : EOperator) : string :=
  match eOperator with
  | boNone => "NONE" | boAssign => "=" | boAdd => "+" | boSub => "-"
  | boMul => "*" | boDiv => "/" | boMod => "%" | boAnd => "&"
  | boOr => "|" | boXor => "^" | boLogicAnd => "&&" | boLogicOr => "||"
  | boEquals => "==" | boEqualsCheck => "===" | boNotEquals => "!="
  | boNotEqualsCheck => "!==" | boLower => "<" | boLowerOrEquals => "<="
  | boGreater => ">" | boGreaterOrEquals => ">="
  end.

(** A binary operation as a node of the tree: its member map is the one
    of [binaryOperation_members]. *)
Definition binaryOperation_entity (text : string) (b : QMLBinaryOperation) : QMLEntity :=
  mkEntity "QMLBinaryOperation" text (bo_position b) EmptyString
    (binaryOperation_members b) None None None.

End Tree.

(** ** The rule document *)
Module Xml.

(** Modelled from the spec: the class [CXMLNode] is declared outside the
    files at hand.  Following section 6, a node of the rule document has
    a tag, attributes read by name (a missing attribute reads as the
    empty text) and child nodes in document order;
    [getNodesByTagName] gives the children that carry a tag. *)
#[local] Unset Elimination Schemes.
Inductive CXMLNode : Type := mkNode {
  tag : string;
  attributes : QMap.t string;
  nodes : list CXMLNode
}.
#[local] Set Elimination Schemes.

Definition getNodesByTagName (sTag : string) (x : CXMLNode) : list CXMLNode :=
  filter (fun n => String.eqb (tag n) sTag) (nodes x).

Definition attribute (name : string) (x : CXMLNode) : string :=
  QMap.value name (attributes x).

(** A node written with its attributes in any order. *)
Definition element (sTag : string) (attrs : list (string * string))
           (children : list CXMLNode) : CXMLNode :=
  mkNode sTag (fold_left (fun m kv => QMap.insert (fst kv) (snd kv) m) attrs []) children.

End Xml.

(** ** The macro expander and the rule engine ([QMLAnalyzer.cpp]) *)
Module Analyzer.
Import QStr Tree Xml.

Definition ANALYZER_TOKEN_MACRO        : string := "Macro".
Definition ANALYZER_TOKEN_NAME         : string := "Name".
Definition ANALYZER_TOKEN_CHECK        : string := "Check".
Definition ANALYZER_TOKEN_CLASS        : string := "Class".
Definition ANALYZER_TOKEN_LIST         : string := "List".
Definition ANALYZER_TOKEN_COUNT        : string := "Count".
Definition ANALYZER_TOKEN_MEMBER       : string := "Member".
Definition ANALYZER_TOKEN_NESTED_COUNT : string := "NestedCount".
Definition ANALYZER_TOKEN_ACCEPT       : string := "Accept".
Definition ANALYZER_TOKEN_REJECT       : string := "Reject".
Definition ANALYZER_TOKEN_TEXT         : string := "Text".
Definition ANALYZER_TOKEN_TYPE         : string := "Type".
Definition ANALYZER_TOKEN_VALUE        : string := "Value".
Definition ANALYZER_TOKEN_REGEXP       : string := "RegExp".
Definition ANALYZER_TOKEN_PATH         : string := "Path".
Definition ANALYZER_TOKEN_OPERATION    : string := "Operation".
Definition ANALYZER_TOKEN_EXISTS       : string := "Exists".
Definition ANALYZER_TOKEN_CONTAINS     : string := "Contains".
Definition ANALYZER_TOKEN_CONDITION    : string := "Condition".
Definition ANALYZER_TOKEN_NEGATE       : string := "Negate".
Definition ANALYZER_TOKEN_EMPTY        : string := "Empty".
Definition ANALYZER_TOKEN_FILE_NAME    : string := "filename".
Definition ANALYZER_TOKEN_TRUE         : string := "true".

(** [QMLAnalyzerError]. *)
Record QMLAnalyzerError : Type := mkError {
  m_sFileName : string;
  m_pPosition : QPoint;
  m_sText : string
}.

(** [parseMacros]: the macro table is rebuilt from the [Macro] nodes. *)
Definition parseMacros (m_xGrammar : CXMLNode) : QMap.t string :=
  fold_left
    (fun m xMacro =>
       QMap.insert (attribute ANALYZER_TOKEN_NAME xMacro)
                   (attribute ANALYZER_TOKEN_VALUE xMacro) m)
    (getNodesByTagName ANALYZER_TOKEN_MACRO m_xGrammar) [].

(** One turn of the loop of [processMacros], for the macro [sMacro]. *)
Definition processMacro (m_mMacros : QMap.t string) (sResult sMacro : string) : string :=
  let sFullMacroName := "$" ++ sMacro ++ "$" in
  if contains sFullMacroName sResult then
    if (0 <? String.length (QMap.value sMacro m_mMacros))%nat then
      replace sFullMacroName (QMap.value sMacro m_mMacros) sResult
    else sResult
  else sResult.

(** [processMacros]: the macros are tried in the order of their names. *)
Definition processMacros (m_mMacros : QMap.t string) (sText : string) : string :=
  fold_left (processMacro m_mMacros) (QMap.keys m_mMacros) sText.

(** [outputError] appends to [m_vErrors]. *)
Definition outputError (sFileName : string) (pPosition : QPoint) (sText : string)
           (m_vErrors : list QMLAnalyzerError) : list QMLAnalyzerError :=
  (m_vErrors ++ [mkError sFileName pPosition sText])%list.

(** The member [sMember] of a node when the map has it and it is not null. *)
Definition member (sMember : string) (pEntity : QMLEntity) : option QMLEntity :=
  match QMap.lookup sMember (members pEntity) with
  | Some (Some m) => Some m
  | _ => None
  end.

(** [runGrammar_CountNested]. *)
Fixpoint runGrammar_CountNested (sClassName : string) (pEntity : QMLEntity) : Z :=
  let iCount :=
    (fix overMembers (l : list (string * option QMLEntity)) (iCount : Z) : Z :=
       match l with
       | [] => iCount
       | (_, None) :: l' => overMembers l' iCount
       | (_, Some m) :: l' =>
           let iNewCount := runGrammar_CountNested sClassName m in
           overMembers l' (if iNewCount >? iCount then iNewCount else iCount)
       end) (members pEntity) 0 in
  let iCount :=
    match contents pEntity with
    | Some children =>
        (fix overContents (l : list (option QMLEntity)) (iCount : Z) : Z :=
           match l with
           | [] => iCount
           | None :: l' => overContents l' iCount
           | Some c :: l' =>
               let iNewCount := runGrammar_CountNested sClassName c in
               overContents l' (if iNewCount >? iCount then iNewCount else iCount)
           end) children iCount
    | None => iCount
    end in
  if String.eqb (className pEntity) sClassName then iCount + 1 else iCount.

(** One turn of the loop of [runGrammar_SatisfiesConditions]: [false]
    where the source returns [false], [true] where it goes on to the
    next condition. *)
Definition satisfiesCondition (sFileName : string) (pEntity : QMLEntity)
           (xCondition : CXMLNode) : bool :=
  let sOperation := attribute ANALYZER_TOKEN_OPERATION xCondition in
  let sValue := attribute ANALYZER_TOKEN_VALUE xCondition in
  let sMember := toLower (attribute ANALYZER_TOKEN_MEMBER xCondition) in
  let sEmpty := toLower (attribute ANALYZER_TOKEN_EMPTY xCondition) in
  let sNegate := toLower (attribute ANALYZER_TOKEN_NEGATE xCondition) in
  match member sMember pEntity with
  | Some m =>
      let sMemberToString := stripQuotes (toString m) in
      if negb (isEmpty sValue) then
        if String.eqb sMemberToString sValue
        then (if String.eqb sNegate ANALYZER_TOKEN_TRUE then false else true)
        else (if negb (String.eqb sNegate ANALYZER_TOKEN_TRUE) then false else true)
      else if negb (isEmpty sEmpty) then
        if negb (isEmpty sMemberToString && String.eqb sEmpty ANALYZER_TOKEN_TRUE)
        then false else true
      else true
  | None =>
      if String.eqb sMember ANALYZER_TOKEN_FILE_NAME then
        if String.eqb sOperation ANALYZER_TOKEN_CONTAINS then
          if contains sValue sFileName
          then (if String.eqb sNegate ANALYZER_TOKEN_TRUE then false else true)
          else (if negb (String.eqb sNegate ANALYZER_TOKEN_TRUE) then false else true)
        else
          if String.eqb sFileName sValue
          then (if String.eqb sNegate ANALYZER_TOKEN_TRUE then false else true)
          else (if negb (String.eqb sNegate ANALYZER_TOKEN_TRUE) then false else true)
      else if negb (isEmpty sEmpty) then
        if negb (String.eqb sEmpty ANALYZER_TOKEN_TRUE) then false else true
      else true
  end.

Fixpoint satisfiesConditions_loop (sFileName : string) (pEntity : QMLEntity)
         (vConditions : list CXMLNode) : bool :=
  match vConditions with
  | [] => true
  | xCondition :: rest =>
      if satisfiesCondition sFileName pEntity xCondition
      then satisfiesConditions_loop sFileName pEntity rest
      else false
  end.

(** [runGrammar_SatisfiesConditions]. *)
Definition runGrammar_SatisfiesConditions (sFileName sClassName : string)
           (pEntity : QMLEntity) (xRule : CXMLNode) : bool :=
  satisfiesConditions_loop sFileName pEntity
    (getNodesByTagName ANALYZER_TOKEN_CONDITION xRule).

Section Engine.

(** [QRegExp(pattern).exactMatch(text)]; the regular expression
    engine is Qt's and stays a parameter. *)
Variable exactMatch : string -> string -> bool.

(** Whether the member text, taken as a path relative to the
    directory of the analysed file, exists as a file or as a
    directory; the file system stays a parameter. *)
Variable pathExists : string -> string -> bool.

(** The fields [m_xGrammar] and [m_mMacros] of the analyzer. *)
Variable m_xGrammar : CXMLNode.
Variable m_mMacros : QMap.t string.

(** [runGrammar_Reject]: whether the rule fired, and [m_vErrors] afterwards. *)
Definition runGrammar_Reject (sFileName sClassName : string) (pEntity : QMLEntity)
           (xRule : CXMLNode) (bInverseLogic : bool)
           (m_vErrors : list QMLAnalyzerError) : bool * list QMLAnalyzerError :=
  let sMember := processMacros m_mMacros (toLower (attribute ANALYZER_TOKEN_MEMBER xRule)) in
  let sValue := processMacros m_mMacros (attribute ANALYZER_TOKEN_VALUE xRule) in
  let sType := processMacros m_mMacros (attribute ANALYZER_TOKEN_TYPE xRule) in
  let sText := processMacros m_mMacros (attribute ANALYZER_TOKEN_TEXT xRule) in
  let sNestedCount := processMacros m_mMacros (attribute ANALYZER_TOKEN_NESTED_COUNT xRule) in
  let sCount := processMacros m_mMacros (attribute ANALYZER_TOKEN_COUNT xRule) in
  let sRegExp := processMacros m_mMacros (attribute ANALYZER_TOKEN_REGEXP xRule) in
  let sPath := processMacros m_mMacros (attribute ANALYZER_TOKEN_PATH xRule) in
  let sList := processMacros m_mMacros (attribute ANALYZER_TOKEN_LIST xRule) in
  let sClass := processMacros m_mMacros (attribute ANALYZER_TOKEN_CLASS xRule) in
  let fired := (true, outputError sFileName (position pEntity) sText m_vErrors) in
  let silent := (false, m_vErrors) in
  if runGrammar_SatisfiesConditions sFileName sClassName pEntity xRule then
    if negb (isEmpty sNestedCount) then
      let iNestedCountAllowed := toInt sNestedCount in
      if xorb (iNestedCountAllowed >? 0) bInverseLogic then
        let iNestedCount := runGrammar_CountNested sClassName pEntity in
        if iNestedCount >? iNestedCountAllowed then fired else silent
      else silent
    else
      match member sMember pEntity with
      | Some pMember =>
          let sMemberToString := stripQuotes (toString pMember) in
          let sMemberClass := className pMember in
          if negb (isEmpty sList) then
            let lNames := split "," sList in
            if xorb (listContains lNames sMemberToString) bInverseLogic
            then fired else silent
          else if negb (isEmpty sClass) then
            if xorb (String.eqb sMemberClass sClass) bInverseLogic
            then fired else silent
          else if negb (isEmpty sPath) then
            if String.eqb sPath ANALYZER_TOKEN_EXISTS then
              let bExists := pathExists sFileName sMemberToString in
              if xorb bExists bInverseLogic then fired else silent
            else silent
          else if negb (isEmpty sRegExp) && negb (isEmpty sMemberToString) then
            if xorb (exactMatch sRegExp sMemberToString) bInverseLogic
            then fired else silent
          else if negb (isEmpty sCount) then
            let iCountToCheck := toInt sCount in
            match contents pMember with
            | Some children =>
                if xorb (Z.of_nat (List.length children) >? iCountToCheck) bInverseLogic
                then fired else silent
            | None => silent
            end
          else if negb (isEmpty sType) then
            let sTypeToString := valueTypeName pMember in
            if xorb (String.eqb sTypeToString sType) bInverseLogic
            then fired else silent
          else
            if xorb (String.eqb sMemberToString sValue) bInverseLogic
            then fired else silent
      | None => silent
      end
  else silent.

(** The loop over the rules of one kind in a [Check] block. *)
Definition rules_loop (sFileName sClassName : string) (pEntity : QMLEntity)
           (bInverseLogic : bool) (vRules : list CXMLNode)
           (st : bool * list QMLAnalyzerError) : bool * list QMLAnalyzerError :=
  fold_left
    (fun st xRule =>
       let '(bHasRejects, m_vErrors) := st in
       let '(bFired, m_vErrors') :=
         runGrammar_Reject sFileName sClassName pEntity xRule bInverseLogic m_vErrors in
       (if bFired then true else bHasRejects, m_vErrors'))
    vRules st.

(** The body of the loop over the [Check] blocks. *)
Definition check_body (sFileName : string) (pEntity : QMLEntity)
           (st : bool * list QMLAnalyzerError) (xCheck : CXMLNode)
  : bool * list QMLAnalyzerError :=
  let sClassName := attribute ANALYZER_TOKEN_CLASS xCheck in
  if String.eqb (className pEntity) sClassName then
    let vAccepts := getNodesByTagName ANALYZER_TOKEN_ACCEPT xCheck in
    let vRejects := getNodesByTagName ANALYZER_TOKEN_REJECT xCheck in
    let st := rules_loop sFileName sClassName pEntity false vRejects st in
    rules_loop sFileName sClassName pEntity true vAccepts st
  else st.

Definition checks_loop (sFileName : string) (pEntity : QMLEntity)
           (m_vErrors : list QMLAnalyzerError) : bool * list QMLAnalyzerError :=
  fold_left (check_body sFileName pEntity)
    (getNodesByTagName ANALYZER_TOKEN_CHECK m_xGrammar) (false, m_vErrors).

(** The diagnostics on unreferenced symbols at the head of
    [runGrammar_Recurse]. *)
Definition outputUnreferenced (sFileName sText : string)
           (unused : list (string * QPoint))
           (m_vErrors : list QMLAnalyzerError) : list QMLAnalyzerError :=
  fold_left (fun errs kv => outputError sFileName (snd kv) sText errs) unused m_vErrors.

Definition symbolUsage (sFileName : string) (pEntity : QMLEntity)
           (m_vErrors : list QMLAnalyzerError) : list QMLAnalyzerError :=
  let m_vErrors :=
    match unusedProperties pEntity with
    | Some unused => outputUnreferenced sFileName "Unreferenced property" unused m_vErrors
    | None => m_vErrors
    end in
  match unusedSymbols pEntity with
  | Some (unusedVariables, unusedParameters) =>
      outputUnreferenced sFileName "Unreferenced parameter" unusedParameters
        (outputUnreferenced sFileName "Unreferenced variable" unusedVariables m_vErrors)
  | None => m_vErrors
  end.

(** [runGrammar_Recurse] on a node that is not null. *)
Fixpoint runGrammar_Recurse (sFileName : string) (pEntity : QMLEntity)
         (m_vErrors : list QMLAnalyzerError) {struct pEntity} : list QMLAnalyzerError :=
  let m_vErrors := symbolUsage sFileName pEntity m_vErrors in
  let '(bHasRejects, m_vErrors) := checks_loop sFileName pEntity m_vErrors in
  if negb bHasRejects then
    let m_vErrors :=
      (fix overMembers (l : list (string * option QMLEntity))
           (errs : list QMLAnalyzerError) : list QMLAnalyzerError :=
         match l with
         | [] => errs
         | (_, None) :: l' => overMembers l' errs
         | (_, Some m) :: l' => overMembers l' (runGrammar_Recurse sFileName m errs)
         end) (members pEntity) m_vErrors in
    match contents pEntity with
    | Some children =>
        (fix overContents (l : list (option QMLEntity))
             (errs : list QMLAnalyzerError) : list QMLAnalyzerError :=
           match l with
           | [] => errs
           | None :: l' => overContents l' errs
           | Some c :: l' => overContents l' (runGrammar_Recurse sFileName c errs)
           end) children m_vErrors
    | None => m_vErrors
    end
  else m_vErrors.

(** [runGrammar_Recurse] on a pointer: a null node is left at once. *)
Definition runGrammar_Recurse_ptr (sFileName : string) (pEntity : option QMLEntity)
           (m_vErrors : list QMLAnalyzerError) : list QMLAnalyzerError :=
  match pEntity with
  | None => m_vErrors
  | Some e => runGrammar_Recurse sFileName e m_vErrors
  end.

(** [runGrammar] over the contents of a file. *)
Definition runGrammar (sFileName : string) (fileContents : list (option QMLEntity))
           (m_vErrors : list QMLAnalyzerError) : list QMLAnalyzerError :=
  fold_left (fun errs pEntity => runGrammar_Recurse_ptr sFileName pEntity errs)
    fileContents m_vErrors.

End Engine.

End Analyzer.

(** ** The parse driver ([QMLTreeContext::parse]) and [QMLAnalyzer::analyzeFile] *)
Module Driver.
Import QStr Tree Xml Analyzer.

Inductive EParseError : Type := peSuccess | peNoFile | peSyntaxError.

Definition EParseError_eqb (a b : EParseError) : bool :=
  match a, b with
  | peSuccess, peSuccess | peNoFile, peNoFile | peSyntaxError, peSyntaxError => true
  | _, _ => false
  end.

(** What a [QMLFile] keeps for the driver: its name, the parsed flag and
    the entities the parser put into it. *)
Record QMLFile : Type := mkFile {
  fileName : string;
  parsed : bool;
  fileContents : list (option QMLEntity)
}.

(** The passes and signals that leave the files at hand, in the order
    in which they happen; [GrammarRun] marks a call of [runGrammar]. *)
Inductive Event : Type :=
| ParsingStarted (sFileName : string)
| ImportParsingStarted (sFileName : string)
| SolveSymbols (sFileName : string)
| SolveReferences (sFileName : string)
| SolveSymbolUsages (sFileName : string)
| ParsingFinished (sFileName : string)
| GrammarRun (sFileName : string)
| RemoveUnreferencedSymbols (sFileName : string)
| RewriteFile (sFileName : string).



(** The fields of [QMLTreeContext] the driver uses.  [m_vFiles] holds
    pointers to files that are only ever appended: a file is known by
    its place in the list. *)
Record QMLTreeContext : Type := mkContext {
  m_eError : EParseError;
  m_tErrorObject : QMLAnalyzerError;
  m_vFiles : list QMLFile;
  m_bIncludeImports : bool
}.

(** [QMLAnalyzerError::clear]. *)
Definition clearedError : QMLAnalyzerError := mkError EmptyString (0, 0) EmptyString.

(** The context made by [new QMLTreeContext()]. *)
Definition newContext : QMLTreeContext := mkContext peSuccess clearedError [] false.

(** [showError], on a scope opened on [sScopeFile] whose reader is at
    [(iColumn, iLine)]: both error codes and the error object are set. *)
Definition showError (sScopeFile : string) (iColumn iLine : Z) (sText : string)
           (st : EParseError * QMLTreeContext) : EParseError * QMLTreeContext :=
  let ctx := snd st in
  (peSyntaxError,
   mkContext peSyntaxError (mkError sScopeFile (iColumn, iLine) sText)
             (m_vFiles ctx) (m_bIncludeImports ctx)).

(** [fileByFileName]: the file of that name, added when it is new. *)
Definition fileByFileName (sFileName : string) (files : list QMLFile) : list QMLFile :=
  if existsb (fun f => String.eqb (fileName f) sFileName) files then files
  else (files ++ [mkFile sFileName false []])%list.

Definition findFile (sFileName : string) (files : list QMLFile) : option QMLFile :=
  find (fun f => String.eqb (fileName f) sFileName) files.

(** The place in [m_vFiles] of the file [fileByFileName] returns. *)
Fixpoint indexOf (sFileName : string) (files : list QMLFile) : nat :=
  match files with
  | [] => O
  | f :: rest => if String.eqb (fileName f) sFileName then O else S (indexOf sFileName rest)
  end.

(** The file at a place of [m_vFiles], and a change made to it through
    its pointer. *)
Definition fileAt (iFile : nat) (files : list QMLFile) : QMLFile :=
  nth iFile files (mkFile EmptyString false []).

Fixpoint updateAt (iFile : nat) (change : QMLFile -> QMLFile) (files : list QMLFile)
  : list QMLFile :=
  match files, iFile with
  | [], _ => []
  | f :: rest, O => change f :: rest
  | f :: rest, S i => f :: updateAt i change rest
  end.

(** [QMLFile::setParsed(true)]. *)
Definition setParsed (f : QMLFile) : QMLFile := mkFile (fileName f) true (fileContents f).

Definition setContents (contents : list (option QMLEntity)) (f : QMLFile) : QMLFile :=
  mkFile (fileName f) (parsed f) contents.

(** [fileParsed]. *)
Definition fileParsed (sFileName : string) (files : list QMLFile) : bool :=
  existsb (fun f => String.eqb (fileName f) sFileName && parsed f) files.

(** What the generated parser does to the context during one run, in
    order: it shows an error with the reader at some column and line,
    or it meets an import and calls [parseImportFile]. *)
Inductive ParserAction : Type :=
| ShowError (iColumn iLine : Z) (sText : string)
| ParseImportFile (sFileName : string).

Definition isShowError (action : ParserAction) : bool :=
  match action with ShowError _ _ _ => true | ParseImportFile _ => false end.

(** What one run of the generated parser does, seen from the driver. *)
Record ParserRun : Type := mkRun {
  ast : list (option QMLEntity);
  actions : list ParserAction
}.

(** The context and the trace of events. *)
Definition State : Type := (QMLTreeContext * list Event)%type.

Section Parser.

(** Modelled from the spec: the generated parser [yyparse] is outside
    the files at hand.  Following section 4.C, a run over a file
    builds the entities of the file and calls back into the context:
    [showError] upon a syntax error, [parseImportFile] upon an import;
    [actions] lists these calls in order, and the parser reports a
    syntax error on a file when it shows an error during the run. *)
Variable yyparse : string -> ParserRun.

Variable exactMatch : string -> string -> bool.
Variable pathExists : string -> string -> bool.

(** Whether [QFile::open(QFile::WriteOnly)] succeeds on a file; the
    file system stays a parameter. *)
Variable openWriteOnly : string -> bool.

(** [parseImportFile], given what [parse_Internal] does on the scope of
    a file: nothing unless imports are followed and the file is not
    marked as parsed; then the file is looked up, added when it is new,
    and parsed in a scope of its own.  The file is not marked as
    parsed, and the code returned is always [peSuccess]. *)
Definition parseImportFile_with
           (parse_Internal' : nat -> State -> option (EParseError * State))
           (sFileName : string) (st : State) : option State :=
  let '(ctx, trace) := st in
  if m_bIncludeImports ctx then
    if negb (fileParsed sFileName (m_vFiles ctx)) then
      let files := fileByFileName sFileName (m_vFiles ctx) in
      let ctx := mkContext (m_eError ctx) (m_tErrorObject ctx) files (m_bIncludeImports ctx) in
      let trace := (trace ++ [ImportParsingStarted sFileName])%list in
      option_map snd (parse_Internal' (indexOf sFileName files) (ctx, trace))
    else Some st
  else Some st.

(** The calls a run of the parser makes, on the scope of [sScopeFile]:
    the error code of the scope and the context after each. *)
Fixpoint run_actions (import : string -> State -> option State) (sScopeFile : string)
         (l : list ParserAction) (acc : EParseError * State) : option (EParseError * State) :=
  match l with
  | [] => Some acc
  | ShowError iColumn iLine sText :: rest =>
      let '(eScope, (ctx, trace)) := acc in
      let '(eScope, ctx) := showError sScopeFile iColumn iLine sText (eScope, ctx) in
      run_actions import sScopeFile rest (eScope, (ctx, trace))
  | ParseImportFile sFileName :: rest =>
      let '(eScope, st) := acc in
      match import sFileName st with
      | Some st => run_actions import sScopeFile rest (eScope, st)
      | None => None
      end
  end.

(** [parse_Internal] on the scope of the file at [iFile]: the error
    code of the scope is reset, the parser runs and leaves its entities
    in the file, the code of the scope is returned.  Imports nest, and
    nothing in the code stops a file from importing itself: [fuel]
    bounds the nesting, [None] is a run that needs more. *)
Fixpoint parse_Internal (fuel : nat) (iFile : nat) (st : State)
  : option (EParseError * State) :=
  match fuel with
  | O => None
  | S fuel' =>
      let sFileName := fileName (fileAt iFile (m_vFiles (fst st))) in
      match run_actions (parseImportFile_with (parse_Internal fuel')) sFileName
                        (actions (yyparse sFileName)) (peSuccess, st) with
      | Some (eScope, (ctx, trace)) =>
          Some (eScope,
                (mkContext (m_eError ctx) (m_tErrorObject ctx)
                           (updateAt iFile (setContents (ast (yyparse sFileName)))
                                     (m_vFiles ctx))
                           (m_bIncludeImports ctx),
                 trace))
      | None => None
      end
  end.

(** [parseImportFile]. *)
Definition parseImportFile (fuel : nat) : string -> State -> option State :=
  parseImportFile_with (parse_Internal fuel).

(** The loop of [parse] over the files that were in [m_vFiles] when it
    started: a file not parsed yet is parsed, then resolved by the
    three passes, then marked as parsed, whatever the parser returned;
    the code of the context is the one of the file parsed last. *)
Fixpoint parse_loop (fuel : nat) (places : list nat) (st : State) : option State :=
  match places with
  | [] => Some st
  | iFile :: rest =>
      let '(ctx, trace) := st in
      let pFile := fileAt iFile (m_vFiles ctx) in
      if negb (parsed pFile) then
        let name := fileName pFile in
        let trace := (trace ++ [ParsingStarted name])%list in
        match parse_Internal fuel iFile (ctx, trace) with
        | Some (eError, (ctx, trace)) =>
            let trace := (trace ++ [SolveSymbols name; SolveReferences name;
                                    SolveSymbolUsages name])%list in
            let ctx := mkContext eError (m_tErrorObject ctx)
                                 (updateAt iFile setParsed (m_vFiles ctx))
                                 (m_bIncludeImports ctx) in
            let trace := (trace ++ [ParsingFinished name])%list in
            parse_loop fuel rest (ctx, trace)
        | None => None
        end
      else parse_loop fuel rest st
  end.

(** [QMLTreeContext::parse]. *)
Definition parse (fuel : nat) (ctx : QMLTreeContext) (trace : list Event)
  : option (EParseError * QMLTreeContext * list Event) :=
  let ctx := mkContext peSuccess clearedError (m_vFiles ctx) (m_bIncludeImports ctx) in
  match parse_loop fuel (seq 0 (List.length (m_vFiles ctx))) (ctx, trace) with
  | Some (ctx, trace) => Some (m_eError ctx, ctx, trace)
  | None => None
  end.

(** The fields of [QMLAnalyzer] that [analyzeFile] uses. *)
Record QMLAnalyzer : Type := mkAnalyzer {
  m_xGrammar : CXMLNode;
  m_mMacros : QMap.t string;
  m_pContext : QMLTreeContext;
  m_vErrors : list QMLAnalyzerError;
  m_bIncludeImportsFlag : bool;
  m_bRewriteFiles : bool;
  m_bRemoveUnreferencedSymbols : bool;
  m_trace : list Event
}.

(** [QMLAnalyzer::analyzeFile]. *)
Definition analyzeFile (fuel : nat) (sFileName : string) (a : QMLAnalyzer)
  : option QMLAnalyzer :=
  let ctx := m_pContext a in
  let ctx := mkContext (m_eError ctx) (m_tErrorObject ctx)
                       (fileByFileName sFileName (m_vFiles ctx))
                       (m_bIncludeImportsFlag a) in
  match parse fuel ctx (m_trace a) with
  | Some (eError, ctx, trace) =>
      if EParseError_eqb eError peSuccess then
        let files := fileByFileName sFileName (m_vFiles ctx) in
        let ctx := mkContext (m_eError ctx) (m_tErrorObject ctx) files
                             (m_bIncludeImports ctx) in
        let entities :=
          match findFile sFileName files with
          | Some pFile => fileContents pFile
          | None => []
          end in
        let trace := (trace ++ [GrammarRun sFileName])%list in
        let errors := runGrammar exactMatch pathExists (m_xGrammar a) (m_mMacros a)
                                 sFileName entities (m_vErrors a) in
        let trace :=
          if m_bRewriteFiles a then
            ((if m_bRemoveUnreferencedSymbols a
              then trace ++ [RemoveUnreferencedSymbols sFileName]
              else trace)
             ++ (if openWriteOnly sFileName then [RewriteFile sFileName] else []))%list
          else trace in
        Some (mkAnalyzer (m_xGrammar a) (m_mMacros a) ctx errors (m_bIncludeImportsFlag a)
                         (m_bRewriteFiles a) (m_bRemoveUnreferencedSymbols a) trace)
      else
        Some (mkAnalyzer (m_xGrammar a) (m_mMacros a) ctx
                         (m_vErrors a ++ [m_tErrorObject ctx])%list
                         (m_bIncludeImportsFlag a)
                         (m_bRewriteFiles a) (m_bRemoveUnreferencedSymbols a) trace)
  | None => None
  end.

(** The analyzer as [analyze] leaves it before the first file. *)
Definition startAnalyzer (xGrammar : CXMLNode) : QMLAnalyzer :=
  mkAnalyzer xGrammar (parseMacros xGrammar) newContext [] false false false [].

End Parser.

End Driver.

(** ** The properties, worded as the specification words them *)
Module Spec.
Import QStr Tree Xml Analyzer.

(** *** The rows of the rule table (section 4.G) *)
Inductive Attribute : Type :=
| aValue | aRegExp | aClass | aList | aCount | aType | aPath.

Definition attributeName (a : Attribute) : string :=
  match a with
  | aValue => ANALYZER_TOKEN_VALUE
  | aRegExp => ANALYZER_TOKEN_REGEXP
  | aClass => ANALYZER_TOKEN_CLASS
  | aList => ANALYZER_TOKEN_LIST
  | aCount => ANALYZER_TOKEN_COUNT
  | aType => ANALYZER_TOKEN_TYPE
  | aPath => ANALYZER_TOKEN_PATH
  end.

Section Rows.
Variable exactMatch : string -> string -> bool.
Variable pathExists : string -> string -> bool.
Variable m_mMacros : QMap.t string.

(** The macro-expanded text of an attribute of a rule. *)
Definition attributeText (a : Attribute) (xRule : CXMLNode) : string :=
  processMacros m_mMacros (attribute (attributeName a) xRule).

(** A rule sets an attribute when its text is not empty. *)
Definition attributeSet (xRule : CXMLNode) (a : Attribute) : bool :=
  negb (isEmpty (attributeText a xRule)).

(** The canonical text of a member, quotes stripped. *)
Definition memberText (pMember : QMLEntity) : string :=
  stripQuotes (toString pMember).

(** The predicate of each row of the table on a member; a row that
    says nothing about the member (a count on a node that is not
    complex, a path attribute other than [Exists]) has none. *)
Definition attributeCheck (sFileName : string) (xRule : CXMLNode)
           (pMember : QMLEntity) (a : Attribute) : option bool :=
  match a with
  | aValue => Some (String.eqb (memberText pMember) (attributeText aValue xRule))
  | aRegExp => Some (exactMatch (attributeText aRegExp xRule) (memberText pMember))
  | aClass => Some (String.eqb (className pMember) (attributeText aClass xRule))
  | aList => Some (listContains (split "," (attributeText aList xRule)) (memberText pMember))
  | aCount =>
      match contents pMember with
      | Some children =>
          Some (Z.of_nat (List.length children) >? toInt (attributeText aCount xRule))
      | None => None
      end
  | aType => Some (String.eqb (valueTypeName pMember) (attributeText aType xRule))
  | aPath =>
      if String.eqb (attributeText aPath xRule) ANALYZER_TOKEN_EXISTS
      then Some (pathExists sFileName (memberText pMember))
      else None
  end.

(** The order in which the table of section 4.G lists the rows. *)
Definition tableOrder : list Attribute :=
  [aValue; aRegExp; aClass; aList; aCount; aType; aPath].

(** The order of the chain of tests in [runGrammar_Reject], the
    comparison with [Value] being what is left when no other applies. *)
Definition chainOrder : list Attribute :=
  [aList; aClass; aPath; aRegExp; aCount; aType; aValue].

(** In the chain a regular expression is only looked at on a member
    whose text is not empty. *)
Definition chainSet (xRule : CXMLNode) (pMember : QMLEntity) (a : Attribute) : bool :=
  match a with
  | aRegExp => attributeSet xRule aRegExp && negb (isEmpty (memberText pMember))
  | _ => attributeSet xRule a
  end.

(** The first attribute of [order] that a rule sets; the comparison
    with [Value] when it sets none. *)
Definition selected (isSet : Attribute -> bool) (order : list Attribute) : Attribute :=
  match find isSet order with
  | Some a => a
  | None => aValue
  end.

(** What a rule does on a node once its predicate is known: it fires,
    with one diagnostic at the position of the node, when the
    predicate differs from the invert flag. *)
Definition outcome (sFileName : string) (pEntity : QMLEntity) (xRule : CXMLNode)
           (check : option bool) (bInverseLogic : bool)
           (m_vErrors : list QMLAnalyzerError) : bool * list QMLAnalyzerError :=
  match check with
  | Some p =>
      if xorb p bInverseLogic
      then (true, (m_vErrors ++ [mkError sFileName (position pEntity)
                     (processMacros m_mMacros (attribute ANALYZER_TOKEN_TEXT xRule))])%list)
      else (false, m_vErrors)
  | None => (false, m_vErrors)
  end.

(** The member a rule names. *)
Definition ruleMember (xRule : CXMLNode) (pEntity : QMLEntity) : option QMLEntity :=
  member (processMacros m_mMacros (toLower (attribute ANALYZER_TOKEN_MEMBER xRule))) pEntity.

(** The check a rule without [NestedCount] makes on a node: the one of
    the first attribute of the chain that the rule sets, on the member
    the rule names; there is none when the node has no such member (or a
    null one), and when that attribute says nothing about the member. *)
Definition ruleCheck (sFileName : string) (xRule : CXMLNode) (pEntity : QMLEntity)
  : option bool :=
  match ruleMember xRule pEntity with
  | Some pMember =>
      attributeCheck sFileName xRule pMember (selected (chainSet xRule pMember) chainOrder)
  | None => None
  end.

(** *** The traversal (section 4.G), for one node *)
Variable m_xGrammar : CXMLNode.

(** Whether one rule fires on the node, and the diagnostics it emits. *)
Definition ruleFires (sFileName sClassName : string) (pEntity : QMLEntity)
           (bInverseLogic : bool) (xRule : CXMLNode) : bool :=
  fst (runGrammar_Reject exactMatch pathExists m_mMacros sFileName sClassName
         pEntity xRule bInverseLogic []).

Definition ruleDiagnostics (sFileName sClassName : string) (pEntity : QMLEntity)
           (bInverseLogic : bool) (xRule : CXMLNode) : list QMLAnalyzerError :=
  snd (runGrammar_Reject exactMatch pathExists m_mMacros sFileName sClassName
         pEntity xRule bInverseLogic []).

Definition checkMatches (pEntity : QMLEntity) (xCheck : CXMLNode) : bool :=
  String.eqb (className pEntity) (attribute ANALYZER_TOKEN_CLASS xCheck).

(** Within a matching [Check]: every [Reject] rule, then every
    [Accept] rule, each with the diagnostics of its own. *)
Definition checkDiagnostics (sFileName : string) (pEntity : QMLEntity)
           (xCheck : CXMLNode) : list QMLAnalyzerError :=
  if checkMatches pEntity xCheck then
    let sClassName := attribute ANALYZER_TOKEN_CLASS xCheck in
    (flat_map (ruleDiagnostics sFileName sClassName pEntity false)
              (getNodesByTagName ANALYZER_TOKEN_REJECT xCheck)
     ++ flat_map (ruleDiagnostics sFileName sClassName pEntity true)
                 (getNodesByTagName ANALYZER_TOKEN_ACCEPT xCheck))%list
  else [].

Definition checkFires (sFileName : string) (pEntity : QMLEntity)
           (xCheck : CXMLNode) : bool :=
  checkMatches pEntity xCheck &&
  (let sClassName := attribute ANALYZER_TOKEN_CLASS xCheck in
   existsb (ruleFires sFileName sClassName pEntity false)
           (getNodesByTagName ANALYZER_TOKEN_REJECT xCheck)
   || existsb (ruleFires sFileName sClassName pEntity true)
              (getNodesByTagName ANALYZER_TOKEN_ACCEPT xCheck)).

Definition nodeDiagnostics (sFileName : string) (pEntity : QMLEntity)
  : list QMLAnalyzerError :=
  flat_map (checkDiagnostics sFileName pEntity)
           (getNodesByTagName ANALYZER_TOKEN_CHECK m_xGrammar).

Definition nodeFires (sFileName : string) (pEntity : QMLEntity) : bool :=
  existsb (checkFires sFileName pEntity)
          (getNodesByTagName ANALYZER_TOKEN_CHECK m_xGrammar).

(** The evaluations of rules the engine makes at a node, in order: for
    every matching [Check] in document order, its [Reject] rules with the
    invert flag off, then its [Accept] rules with the invert flag on. *)
Definition checkEvaluations (pEntity : QMLEntity) (xCheck : CXMLNode)
  : list (string * CXMLNode * bool) :=
  if checkMatches pEntity xCheck then
    let sClassName := attribute ANALYZER_TOKEN_CLASS xCheck in
    (map (fun xRule => (sClassName, xRule, false))
         (getNodesByTagName ANALYZER_TOKEN_REJECT xCheck)
     ++ map (fun xRule => (sClassName, xRule, true))
            (getNodesByTagName ANALYZER_TOKEN_ACCEPT xCheck))%list
  else [].

Definition nodeEvaluations (pEntity : QMLEntity) : list (string * CXMLNode * bool) :=
  flat_map (checkEvaluations pEntity) (getNodesByTagName ANALYZER_TOKEN_CHECK m_xGrammar).

(** One evaluation: the rule is run on the error list as it stands, and
    the node is marked when the rule fired. *)
Definition evaluate (sFileName : string) (pEntity : QMLEntity)
           (st : bool * list QMLAnalyzerError) (e : string * CXMLNode * bool)
  : bool * list QMLAnalyzerError :=
  let '(sClassName, xRule, bInverseLogic) := e in
  let '(bHasRejects, m_vErrors) := st in
  let '(bFired, m_vErrors') :=
    runGrammar_Reject exactMatch pathExists m_mMacros sFileName sClassName
                      pEntity xRule bInverseLogic m_vErrors in
  (if bFired then true else bHasRejects, m_vErrors').

(** The members in the order of their names, then the ordered children. *)
Definition subNodes (pEntity : QMLEntity) : list (option QMLEntity) :=
  (map snd (members pEntity)
   ++ match contents pEntity with Some children => children | None => [] end)%list.

End Rows.

(** *** Hex literals (section 4.B): the base-16 reading of digits *)
Definition hexDigitValue (a : ascii) : option Z :=
  let n := Z.of_N (N_of_ascii a) in
  if (48 <=? n) && (n <=? 57) then Some (n - 48)
  else if (97 <=? n) && (n <=? 102) then Some (n - 87)
  else if (65 <=? n) && (n <=? 70) then Some (n - 55)
  else None.

Fixpoint base16Acc (acc : Z) (digits : string) : option Z :=
  match digits with
  | EmptyString => Some acc
  | String a r =>
      match hexDigitValue a with
      | Some d => base16Acc (16 * acc + d) r
      | None => None
      end
  end.

Definition base16 (digits : string) : option Z := base16Acc 0 digits.

(** White space, as the lexer takes it: every code up to the blank. *)
Fixpoint allWhite (s : string) : bool :=
  match s with
  | EmptyString => true
  | String a r => (ch a <=? 32) && allWhite r
  end.

End Spec.

(** ** Sample inputs used by the examples below *)
Module Samples.
Import QStr Tree Xml Analyzer Driver.

(** A pattern without metacharacters matches exactly itself. *)
Definition literalMatch (pattern text : string) : bool := String.eqb pattern text.

(** A file system in which no path exists. *)
Definition noPath (sFileName sPath : string) : bool := false.

(** The assignment of an empty string literal to the property [text];
    the canonical text of its content is empty. *)
Definition emptyTextAssignment : QMLEntity :=
  mkEntity "QMLPropertyAssignment" "text: " (4, 2) EmptyString
    [ ("content", Some (leaf "QMLEntity" EmptyString (10, 2)));
      ("name", Some (leaf "QMLIdentifier" "text" (4, 2))) ]
    None None None.

(** The assignment [text: abc]. *)
Definition abcAssignment : QMLEntity :=
  mkEntity "QMLPropertyAssignment" "text: abc" (4, 3) EmptyString
    [ ("content", Some (leaf "QMLIdentifier" "abc" (10, 3)));
      ("name", Some (leaf "QMLIdentifier" "text" (4, 3))) ]
    None None None.

Definition acceptRegExp : CXMLNode :=
  element "Accept" [("Member", "content"); ("RegExp", "abc"); ("Text", "abc expected")] [].

(** An Accept rule on a member that assignments do not have. *)
Definition acceptOnMissingMember : CXMLNode :=
  element "Accept" [("Member", "parameters"); ("Value", "abc"); ("Text", "abc expected")] [].

(** A rule that sets both [Class] and [List]. *)
Definition rejectClassAndList : CXMLNode :=
  element "Reject" [("Member", "content"); ("Class", "QMLIdentifier");
                    ("List", "red,green"); ("Text", "identifier")] [].

(** A condition on emptiness with [Negate]. *)
Definition conditionEmptyNegated : CXMLNode :=
  element "Condition" [("Member", "content"); ("Empty", "true"); ("Negate", "true")] [].

Definition conditionValueNegated : CXMLNode :=
  element "Condition" [("Member", "content"); ("Value", "abc"); ("Negate", "true")] [].

(** A grammar with one macro whose value is empty, and one with two macros. *)
Definition emptyMacro : QMap.t string := QMap.insert "FOO" EmptyString [].

Definition twoMacros : QMap.t string :=
  QMap.insert "FOO" "bar" (QMap.insert "A" "x" []).

(** A parser that shows one syntax error on every file. *)
Definition failingParser (sFileName : string) : ParserRun :=
  mkRun [] [ShowError 7 3 "syntax error"].

Definition emptyGrammar : CXMLNode := element "Root" [] [].

(** A grammar with two [Check] blocks on the same class: the first
    holds an Accept rule, the second a Reject rule. *)
Definition acceptXyz : CXMLNode :=
  element "Accept" [("Member", "content"); ("Value", "xyz"); ("Text", "xyz expected")] [].

Definition rejectAbc : CXMLNode :=
  element "Reject" [("Member", "content"); ("Value", "abc"); ("Text", "abc refused")] [].

Definition twoChecks : CXMLNode :=
  element "Root" []
    [ element "Check" [("Class", "QMLPropertyAssignment")] [acceptXyz];
      element "Check" [("Class", "QMLPropertyAssignment")] [rejectAbc] ].

(** The sum [a + b] as a binary operation. *)
Definition sumOperation : QMLBinaryOperation :=
  mkBinaryOperation (0, 0) (Some (leaf "QMLIdentifier" "a" (0, 0)))
                    (Some (leaf "QMLIdentifier" "b" (4, 0))) boAdd.

End Samples.

(** ** Notions used to state further properties of the code *)
Module Notions.
Import QStr Lexer Tree Xml Analyzer Driver.

(** A text without any dollar sign. *)
Fixpoint noDollar (s : string) : bool :=
  match s with
  | EmptyString => true
  | String a r => negb (Ascii.eqb a "$") && noDollar r
  end.

(** The keys of a map come in strictly ascending order. *)
Fixpoint ascending (keys : list string) : bool :=
  match keys with
  | [] => true
  | k :: rest =>
      match rest with
      | [] => true
      | k' :: _ => QMap.ltb k k' && ascending rest
      end
  end.

(** The larger of the count so far and the count of one more sub-node,
    as the two loops of [runGrammar_CountNested] take it; a null sub-node
    counts for nothing. *)
Definition countStep (sClassName : string) (iCount : Z) (c : option QMLEntity) : Z :=
  match c with
  | Some e =>
      let iNewCount := runGrammar_CountNested sClassName e in
      if iNewCount >? iCount then iNewCount else iCount
  | None => iCount
  end.

(** Items nested [depth] deep, each inside the contents of the one before. *)
Fixpoint nestedItems (depth : nat) : QMLEntity :=
  match depth with
  | O => mkEntity "QMLItem" "Item" (0, 0) EmptyString [] (Some []) (Some []) None
  | S d => mkEntity "QMLItem" "Item" (0, Z.of_nat depth) EmptyString []
                    (Some [Some (nestedItems d)]) (Some []) None
  end.

Definition rejectNested : CXMLNode :=
  element "Reject" [("NestedCount", "3"); ("Text", "Too many nested items")] [].

Definition conditionOnMissingMember : CXMLNode :=
  element "Condition" [("Member", "parameters"); ("Value", "x"); ("Negate", "true")] [].

Definition conditionOnFileName : CXMLNode :=
  element "Condition" [("Member", "FileName"); ("Operation", "Contains");
                       ("Value", "test")] [].


(** *** Classes of characters and texts, for the lexer *)

(** Every character of a text satisfies a test. *)
Fixpoint allChars (test : ascii -> bool) (s : string) : bool :=
  match s with
  | EmptyString => true
  | String a r => test a && allChars test r
  end.

(** The characters that start an identifier, and those that go on with it. *)
Definition isIdentStart (a : ascii) : bool :=
  isalpha (ch a) || (ch a =? ch "_") || (ch a =? ch "$").

Definition isIdentChar (a : ascii) : bool :=
  isalnum (ch a) || ((ch a =? ch "_") || (ch a =? ch "$")).

Definition isDigitChar (a : ascii) : bool := isdigit (ch a).

(** A character of the ASCII range; the lexer reads a character as a
    [char], whose sign beyond that range is the platform's. *)
Definition isAscii (a : ascii) : bool := ch a <? 128.

(** An ASCII character that neither closes the literal opened by
    [quote] nor starts an escape. *)
Definition isPlainIn (quote : ascii) (a : ascii) : bool :=
  isAscii a && negb (Ascii.eqb a quote) && negb (Ascii.eqb a "\").

(** The text that follows a token either is empty or starts with a
    character that fails [goesOn]. *)
Definition endsToken (goesOn : ascii -> bool) (tail : string) : bool :=
  match tail with
  | EmptyString => true
  | String d _ => negb (goesOn d)
  end.

(** What [parseNextToken] makes of the text of an identifier. *)
Definition identifierToken (text : string) (LVAL : UParserValue) : Z * UParserValue :=
  if String.eqb (toLower text) "true" then (TOKEN_BOOLCONSTANT, LBoolean true)
  else if String.eqb (toLower text) "false" then (TOKEN_BOOLCONSTANT, LBoolean false)
  else match QMap.lookup text m_mTokens with
       | Some token => (token, LVAL)
       | None => (TOKEN_IDENTIFIER, LString text)
       end.

(** The number that decimal digits write. *)
Fixpoint decimalValue (acc : Z) (digits : string) : Z :=
  match digits with
  | EmptyString => acc
  | String a r => decimalValue (10 * acc + (ch a - 48)) r
  end.

(** The value [toInt] gives to decimal digits: the number they write
    when it fits in an [int], 0 otherwise. *)
Definition intValue (digits : string) : Z :=
  let v := decimalValue 0 digits in if v <=? INT_MAX then v else 0.

(** The characters that go on with a number when the hexadecimal flag is
    down: a digit, and a dot as long as the float flag is down. *)
Definition goesOnNumber (float : bool) (a : ascii) : bool :=
  isdigit (ch a) || (negb float && (ch a =? ch ".")).

(** A text that begins with the mark of a hexadecimal constant. *)
Definition hexPrefix (text : string) : bool := startsWith "0x" text || startsWith "0X" text.

(** The characters for which [parseNextToken] has a rule of its own,
    digits, letters, underscore and dollar apart. *)
Definition ruleStarts : list ascii :=
  ["+"; "-"; "*"; "/"; "%"; "&"; "|"; "^"; "<"; ">"; "="; "!"; "~"; "["; "'"; "."; dquote]%char.

(** A black ASCII character that falls through every rule of
    [parseNextToken]. *)
Definition isOwnToken (a : ascii) : bool :=
  (32 <? ch a) && isAscii a
  && negb (existsb (Ascii.eqb a) ruleStarts)
  && negb (isDigitChar a) && negb (isIdentStart a).

(** An ASCII character other than the star, inside a block comment. *)
Definition isCommentChar (a : ascii) : bool := isAscii a && negb (Ascii.eqb a "*").

(** From [s] to [s'] nothing but the read position, the line and the
    column may have changed. *)
Definition sameText (s s' : QMLScope) : Prop :=
  m_sStream s' = m_sStream s
  /\ m_pCurrentTokenValue s' = m_pCurrentTokenValue s
  /\ m_iCommentLevel s' = m_iCommentLevel s
  /\ m_bParsingFloat s' = m_bParsingFloat s
  /\ m_bParsingHexa s' = m_bParsingHexa s.

(** The characters still to be read. *)
Definition remaining (s : QMLScope) : nat := String.length (m_sStream s) - m_iPos s.

(** *** The driver: steps, events and sample parsers *)


(** An error object that [showError] made during a run of the parser. *)
Definition shown (yyparse : string -> ParserRun) (e : QMLAnalyzerError) : Prop :=
  exists iColumn iLine sText,
    In (ShowError iColumn iLine sText) (actions (yyparse (m_sFileName e)))
    /\ e = mkError (m_sFileName e) (iColumn, iLine) sText.





(** The four events that end the parsing of a file by [parse]. *)
Definition resolved (sFileName : string) : list Event :=
  [SolveSymbols sFileName; SolveReferences sFileName; SolveSymbolUsages sFileName;
   ParsingFinished sFileName].

(** The errors a run shows, when imports are not followed. *)
Fixpoint showErrors (sScopeFile : string) (l : list ParserAction)
         (st : EParseError * QMLTreeContext) : EParseError * QMLTreeContext :=
  match l with
  | [] => st
  | ShowError iColumn iLine sText :: rest =>
      showErrors sScopeFile rest (showError sScopeFile iColumn iLine sText st)
  | ParseImportFile _ :: rest => showErrors sScopeFile rest st
  end.

(** The context when [parse] starts. *)
Definition cleared (ctx : QMLTreeContext) : QMLTreeContext :=
  mkContext peSuccess clearedError (m_vFiles ctx) (m_bIncludeImports ctx).

(** A file system in which every file opens for writing, and one in
    which none does. *)
Definition opens (sFileName : string) : bool := true.




(** What [analyzeFile] adds to the trace after the run of the rule
    engine, as the two flags of the analyzer and the file system ask. *)
Definition rewriteEvents (openWriteOnly : string -> bool) (a : QMLAnalyzer)
           (sFileName : string) : list Event :=
  if m_bRewriteFiles a then
    ((if m_bRemoveUnreferencedSymbols a then [RemoveUnreferencedSymbols sFileName] else [])
     ++ (if openWriteOnly sFileName then [RewriteFile sFileName] else []))%list
  else [].

End Notions.

(** ** String facts *)
Module StringFacts.
Import QStr.

Lemma replace_without_occurrence (p v s : string) :
  isEmpty p = false -> contains p s = false -> replace p v s = s.
Proof.
  intros Hp. unfold replace. rewrite Hp.
  induction s as [|a s IH]; intros Hc.
  - reflexivity.
  - cbn [contains] in Hc. apply orb_false_iff in Hc. destruct Hc as [Hs Hr].
    cbn [replaceFrom]. rewrite Hs. f_equal. apply IH. exact Hr.
Qed.

Lemma fullName_not_empty (name : string) : isEmpty ("$" ++ name ++ "$") = false.
Proof. reflexivity. Qed.

Lemma length_pos_not_empty (v : string) :
  v <> EmptyString -> (0 <? String.length v)%nat = true.
Proof. destruct v; [congruence | reflexivity]. Qed.

Lemma lowerChar_not_upper (a : ascii) :
  let n := N_of_ascii (lowerChar a) in ((65 <=? n) && (n <=? 90))%N = false.
Proof.
  destruct a as [[] [] [] [] [] [] [] []]; vm_compute; reflexivity.
Qed.

(** The text in lower case never starts with a capital letter. *)
Lemma toLower_head (s : string) (a : ascii) (r : string) :
  toLower s = String a r -> ((65 <=? N_of_ascii a) && (N_of_ascii a <=? 90))%N = false.
Proof.
  destruct s as [|b s']; cbn [toLower]; intros H; [discriminate|].
  injection H as <- _. apply lowerChar_not_upper.
Qed.

End StringFacts.

(** ** Macro expansion *)
Module MacroProperties.
Import QStr Analyzer StringFacts.

(** A macro that does not occur leaves the text as it is. *)
Lemma processMacro_absent (m : QMap.t string) (s k : string) :
  contains ("$" ++ k ++ "$") s = false -> processMacro m s k = s.
Proof. intros H. unfold processMacro. rewrite H. reflexivity. Qed.

Lemma processMacros_absent (m : QMap.t string) (l : list string) (s : string) :
  (forall k, In k l -> contains ("$" ++ k ++ "$") s = false) ->
  fold_left (processMacro m) l s = s.
Proof.
  induction l as [|k l IH]; intros H; cbn [fold_left].
  - reflexivity.
  - rewrite processMacro_absent by (apply H; left; reflexivity).
    apply IH. intros k' Hk'. apply H. right. exact Hk'.
Qed.

(** The turn of a macro with a value that is not empty is a textual
    replacement, whether the name occurs or not. *)
Lemma processMacro_present (m : QMap.t string) (s name v : string) :
  QMap.lookup name m = Some v -> v <> EmptyString ->
  processMacro m s name = replace ("$" ++ name ++ "$") v s.
Proof.
  intros Hl Hv. unfold processMacro, QMap.value. rewrite Hl.
  rewrite (length_pos_not_empty v Hv).
  destruct (contains ("$" ++ name ++ "$") s) eqn:Hc.
  - reflexivity.
  - symmetry. apply replace_without_occurrence; [apply fullName_not_empty | exact Hc].
Qed.

Lemma lookup_in_keys {V} (k : string) (m : QMap.t V) (v : V) :
  QMap.lookup k m = Some v -> In k (QMap.keys m).
Proof.
  induction m as [|[k' v'] m IH]; cbn [QMap.lookup QMap.keys map fst].
  - discriminate.
  - destruct (String.eqb k k') eqn:E.
    + intros _. left. symmetry. apply String.eqb_eq. exact E.
    + intros H. right. apply IH. exact H.
Qed.

(** The turn of a macro with the empty value leaves the text as it is. *)
Lemma processMacro_empty (m : QMap.t string) (s name : string) :
  QMap.lookup name m = Some EmptyString -> processMacro m s name = s.
Proof.
  intros Hl. unfold processMacro, QMap.value. rewrite Hl.
  destruct (contains ("$" ++ name ++ "$") s); reflexivity.
Qed.

(** C8, as amended.  For a macro table (its names unique, as in a map)
    that gives FOO a value, and a text in which no other macro of the
    table occurs, neither as it is nor in the result: when the value of
    FOO is not empty, macro expansion is exactly the textual replacement
    of every occurrence of $FOO$ by the value, found from left to right
    in one pass; when the value is empty the text is returned as it is,
    the occurrences of $FOO$ staying in it. *)
Theorem processMacros_is_textual_replacement
        (m : QMap.t string) (name v s : string) :
  QMap.lookup name m = Some v ->
  NoDup (QMap.keys m) ->
  let result := if isEmpty v then s else replace ("$" ++ name ++ "$") v s in
  (forall k, In k (QMap.keys m) -> k <> name ->
             contains ("$" ++ k ++ "$") s = false /\
             contains ("$" ++ k ++ "$") result = false) ->
  processMacros m s = result.
Proof.
  intros Hl Hnd result Hothers. unfold processMacros.
  destruct (in_split _ _ (lookup_in_keys _ _ _ Hl)) as [l1 [l2 Hsplit]].
  rewrite Hsplit in Hnd, Hothers |- *.
  apply NoDup_remove_2 in Hnd.
  rewrite fold_left_app. cbn [fold_left].
  rewrite (processMacros_absent m l1 s).
  - assert (Hturn : processMacro m s name = result).
    { subst result. destruct v as [|a v].
      - apply processMacro_empty. exact Hl.
      - apply processMacro_present; [exact Hl | discriminate]. }
    rewrite Hturn.
    apply processMacros_absent. intros k Hk.
    apply Hothers.
    + apply in_or_app. right. right. exact Hk.
    + intros ->. apply Hnd. apply in_or_app. right. exact Hk.
  - intros k Hk. apply Hothers.
    + apply in_or_app. left. exact Hk.
    + intros ->. apply Hnd. apply in_or_app. left. exact Hk.
Qed.

Lemma processMacros_is_textual_replacement_witness :
  processMacros Samples.twoMacros "a$FOO$b$FOO$" = "abarbbar"
  /\ processMacros Samples.emptyMacro "a$FOO$b" = "a$FOO$b".
Proof.
  split.
  - apply (processMacros_is_textual_replacement Samples.twoMacros "FOO" "bar" "a$FOO$b$FOO$").
    + reflexivity.
    + repeat constructor; cbn; intuition discriminate.
    + intros k [<- | [<- | []]] Hk.
      * split; reflexivity.
      * exfalso. apply Hk. reflexivity.
  - apply (processMacros_is_textual_replacement Samples.emptyMacro "FOO" EmptyString "a$FOO$b").
    + reflexivity.
    + repeat constructor; cbn; intuition discriminate.
    + intros k [<- | []] Hk. exfalso. apply Hk. reflexivity.
Defined.

(** C8 fails for the empty value: the occurrence of $FOO$ stays in the
    text, where the textual replacement removes it. *)
Lemma processMacros_keeps_empty_macro :
  processMacros Samples.emptyMacro "a$FOO$b" = "a$FOO$b" /\
  replace "$FOO$" EmptyString "a$FOO$b" = "ab" /\
  processMacros Samples.emptyMacro "a$FOO$b" <> replace "$FOO$" EmptyString "a$FOO$b".
Proof. repeat split; try reflexivity. vm_compute. discriminate. Qed.

(** One pass: what the replacement builds is not searched again. *)
Example processMacros_one_pass :
  processMacros (QMap.insert "aba" "b" []) "$a$aba$a$" = "$aba$".
Proof. reflexivity. Qed.

End MacroProperties.

(** ** The rule evaluator *)
Module RuleProperties.
Import QStr Tree Xml Analyzer Spec.

Section Chain.
Variable exactMatch : string -> string -> bool.
Variable pathExists : string -> string -> bool.
Variable m_mMacros : QMap.t string.

(** [runGrammar_Reject] on a rule without [NestedCount], on a node
    that satisfies the conditions and has the member: the outcome is
    the one of the first attribute set, in the order of the chain. *)
Lemma runGrammar_Reject_chain
      (sFileName sClassName : string) (pEntity pMember : QMLEntity)
      (xRule : CXMLNode) (bInverseLogic : bool) (m_vErrors : list QMLAnalyzerError) :
  runGrammar_SatisfiesConditions sFileName sClassName pEntity xRule = true ->
  isEmpty (processMacros m_mMacros (attribute ANALYZER_TOKEN_NESTED_COUNT xRule)) = true ->
  ruleMember m_mMacros xRule pEntity = Some pMember ->
  runGrammar_Reject exactMatch pathExists m_mMacros sFileName sClassName
                    pEntity xRule bInverseLogic m_vErrors
  = outcome m_mMacros sFileName pEntity xRule
      (attributeCheck exactMatch pathExists m_mMacros sFileName xRule pMember
         (selected (chainSet m_mMacros xRule pMember) chainOrder))
      bInverseLogic m_vErrors.
Proof.
  intros Hc Hn Hm. unfold runGrammar_Reject, ruleMember in *.
  rewrite Hc, Hn, Hm. cbn [negb].
  unfold selected, chainOrder, chainSet, attributeSet, attributeText, attributeName,
    outcome, attributeCheck, memberText, outputError.
  cbn [find].
  destruct (isEmpty (processMacros m_mMacros (attribute ANALYZER_TOKEN_LIST xRule)));
    cbn [negb andb]; [|reflexivity].
  destruct (isEmpty (processMacros m_mMacros (attribute ANALYZER_TOKEN_CLASS xRule)));
    cbn [negb andb]; [|reflexivity].
  destruct (isEmpty (processMacros m_mMacros (attribute ANALYZER_TOKEN_PATH xRule)));
    cbn [negb andb].
  2:{ destruct (String.eqb _ ANALYZER_TOKEN_EXISTS); reflexivity. }
  destruct (isEmpty (processMacros m_mMacros (attribute ANALYZER_TOKEN_REGEXP xRule)));
    cbn [negb andb].
  2:{ destruct (isEmpty (stripQuotes (toString pMember))) eqn:Et; cbn [negb andb];
      [|reflexivity].
      destruct (isEmpty (processMacros m_mMacros (attribute ANALYZER_TOKEN_COUNT xRule)));
        cbn [negb andb].
      2:{ destruct (contents pMember); reflexivity. }
      destruct (isEmpty (processMacros m_mMacros (attribute ANALYZER_TOKEN_TYPE xRule)));
        cbn [negb andb]; [|reflexivity].
      destruct (isEmpty (processMacros m_mMacros (attribute ANALYZER_TOKEN_VALUE xRule)));
        reflexivity. }
  destruct (isEmpty (processMacros m_mMacros (attribute ANALYZER_TOKEN_COUNT xRule)));
    cbn [negb andb].
  2:{ destruct (contents pMember); reflexivity. }
  destruct (isEmpty (processMacros m_mMacros (attribute ANALYZER_TOKEN_TYPE xRule)));
    cbn [negb andb]; [|reflexivity].
  destruct (isEmpty (processMacros m_mMacros (attribute ANALYZER_TOKEN_VALUE xRule)));
    reflexivity.
Qed.

(** Without the member, or when the conditions fail, a rule is silent
    whatever the invert flag. *)
Lemma runGrammar_Reject_no_member
      (sFileName sClassName : string) (pEntity : QMLEntity)
      (xRule : CXMLNode) (bInverseLogic : bool) (m_vErrors : list QMLAnalyzerError) :
  isEmpty (processMacros m_mMacros (attribute ANALYZER_TOKEN_NESTED_COUNT xRule)) = true ->
  ruleMember m_mMacros xRule pEntity = None ->
  runGrammar_Reject exactMatch pathExists m_mMacros sFileName sClassName
                    pEntity xRule bInverseLogic m_vErrors = (false, m_vErrors).
Proof.
  intros Hn Hm. unfold runGrammar_Reject, ruleMember in *.
  rewrite Hn, Hm. cbn [negb].
  destruct (runGrammar_SatisfiesConditions _ _ _ _); reflexivity.
Qed.

(** A rule only ever appends to the error list, and what it appends
    does not depend on what the list held. *)
Lemma runGrammar_Reject_appends
      (sFileName sClassName : string) (pEntity : QMLEntity)
      (xRule : CXMLNode) (bInverseLogic : bool) (m_vErrors : list QMLAnalyzerError) :
  runGrammar_Reject exactMatch pathExists m_mMacros sFileName sClassName
                    pEntity xRule bInverseLogic m_vErrors
  = (ruleFires exactMatch pathExists m_mMacros sFileName sClassName pEntity
               bInverseLogic xRule,
     (m_vErrors
      ++ ruleDiagnostics exactMatch pathExists m_mMacros sFileName sClassName pEntity
                         bInverseLogic xRule)%list).
Proof.
  unfold ruleFires, ruleDiagnostics, runGrammar_Reject, outputError.
  repeat match goal with
         | |- context [if ?c then _ else _] => destruct c
         | |- context [match ?c with Some _ => _ | None => _ end] => destruct c
         end;
    cbn [fst snd app]; rewrite ?app_nil_r; reflexivity.
Qed.

End Chain.

Import Samples.

Lemma find_skips_unset {A} (f : A -> bool) (pre l : list A) :
  forallb (fun a => negb (f a)) pre = true -> find f (pre ++ l)%list = find f l.
Proof.
  induction pre as [|x pre IH]; cbn [forallb app find]; intros H.
  - reflexivity.
  - apply andb_true_iff in H. destruct H as [Hx Hpre].
    destruct (f x); [discriminate | apply IH; exact Hpre].
Qed.

(** C1, as amended.  For a rule without [NestedCount], on a node that
    satisfies the conditions of the rule.  When the node has the member
    the rule names and the check the rule selects applies to it, with
    value p say: as an Accept rule it fires, and appends exactly one
    diagnostic at the position of the node with the text of the rule,
    if and only if p is false; as a Reject rule, if and only if p is
    true; Accept is Reject with the check XOR-ed with the invert flag.
    When the member is absent or null, when the rule sets a path
    attribute other than Exists, and when it asks the count of a member
    that is not complex, there is no check, and the rule is silent as an
    Accept rule and as a Reject rule alike. *)
Theorem accept_fires_iff_check_false
        (exactMatch pathExists : string -> string -> bool) (m_mMacros : QMap.t string)
        (sFileName sClassName : string) (pEntity : QMLEntity)
        (xRule : CXMLNode) (m_vErrors : list QMLAnalyzerError) :
  runGrammar_SatisfiesConditions sFileName sClassName pEntity xRule = true ->
  isEmpty (processMacros m_mMacros (attribute ANALYZER_TOKEN_NESTED_COUNT xRule)) = true ->
  let diagnostic :=
    mkError sFileName (position pEntity)
            (processMacros m_mMacros (attribute ANALYZER_TOKEN_TEXT xRule)) in
  let accept :=
    runGrammar_Reject exactMatch pathExists m_mMacros sFileName sClassName
                      pEntity xRule true m_vErrors in
  let reject :=
    runGrammar_Reject exactMatch pathExists m_mMacros sFileName sClassName
                      pEntity xRule false m_vErrors in
  match ruleCheck exactMatch pathExists m_mMacros sFileName xRule pEntity with
  | Some p =>
      accept = (negb p, if negb p then (m_vErrors ++ [diagnostic])%list else m_vErrors)
      /\ reject = (p, if p then (m_vErrors ++ [diagnostic])%list else m_vErrors)
  | None =>
      accept = (false, m_vErrors) /\ reject = (false, m_vErrors)
  end.
Proof.
  intros Hc Hn diagnostic accept reject. subst diagnostic accept reject.
  unfold ruleCheck.
  destruct (ruleMember m_mMacros xRule pEntity) as [pMember|] eqn:Hm.
  - rewrite !(runGrammar_Reject_chain _ _ _ _ _ _ pMember) by assumption.
    destruct (attributeCheck _ _ _ _ _ _ _) as [[|]|]; split; reflexivity.
  - rewrite !runGrammar_Reject_no_member by assumption. split; reflexivity.
Qed.

Lemma accept_fires_iff_check_false_witness :
  (runGrammar_Reject literalMatch noPath [] "Main.qml" "QMLPropertyAssignment"
                     abcAssignment acceptRegExp true []
   = (false, [])
   /\ runGrammar_Reject literalMatch noPath [] "Main.qml" "QMLPropertyAssignment"
                        abcAssignment acceptRegExp false []
      = (true, [mkError "Main.qml" (4, 3) "abc expected"]))
  /\ (runGrammar_Reject literalMatch noPath [] "Main.qml" "QMLPropertyAssignment"
                        abcAssignment acceptOnMissingMember true []
      = (false, [])
      /\ runGrammar_Reject literalMatch noPath [] "Main.qml" "QMLPropertyAssignment"
                           abcAssignment acceptOnMissingMember false []
         = (false, [])).
Proof.
  split.
  - exact (accept_fires_iff_check_false literalMatch noPath [] "Main.qml"
             "QMLPropertyAssignment" abcAssignment acceptRegExp [] eq_refl eq_refl).
  - exact (accept_fires_iff_check_false literalMatch noPath [] "Main.qml"
             "QMLPropertyAssignment" abcAssignment acceptOnMissingMember [] eq_refl eq_refl).
Defined.

(** C1 fails as stated.  The Accept rule with the regular expression
    abc, on the assignment of an empty string: the node satisfies the
    conditions (there are none), the predicate of the rule is false
    (the empty text does not match abc), and yet no diagnostic is
    emitted, because the regular expression is not looked at on an
    empty text. *)
Lemma accept_regexp_silent_on_empty_text :
  runGrammar_SatisfiesConditions "Main.qml" "QMLPropertyAssignment"
                                 emptyTextAssignment acceptRegExp = true
  /\ attributeCheck literalMatch noPath [] "Main.qml" acceptRegExp
       (leaf "QMLEntity" EmptyString (10, 2))
       (selected (attributeSet [] acceptRegExp) tableOrder) = Some false
  /\ runGrammar_Reject literalMatch noPath [] "Main.qml" "QMLPropertyAssignment"
                       emptyTextAssignment acceptRegExp true [] = (false, [])
  /\ ~ (ruleFires literalMatch noPath [] "Main.qml" "QMLPropertyAssignment"
                  emptyTextAssignment true acceptRegExp = true
        <-> literalMatch "abc" EmptyString = false).
Proof.
  repeat split; try reflexivity.
  intros [_ H]. specialize (H eq_refl). vm_compute in H. discriminate.
Qed.

(** C3, as amended.  The chain of [runGrammar_Reject] takes the
    attributes in the order List, Class, Path, RegExp (on a member text
    that is not empty), Count, Type, and Value last: on a node that
    satisfies the conditions and has the member, for a rule without
    [NestedCount], the outcome is the one of the attribute [a] as soon
    as no attribute before [a] in that order is set and [a] is set or
    is the last one (the comparison with Value).  What the rule sets
    after [a] plays no part. *)
Theorem first_attribute_of_chain_applies
        (exactMatch pathExists : string -> string -> bool) (m_mMacros : QMap.t string)
        (sFileName sClassName : string) (pEntity pMember : QMLEntity)
        (xRule : CXMLNode) (bInverseLogic : bool) (m_vErrors : list QMLAnalyzerError)
        (a : Attribute) (before after : list Attribute) :
  runGrammar_SatisfiesConditions sFileName sClassName pEntity xRule = true ->
  isEmpty (processMacros m_mMacros (attribute ANALYZER_TOKEN_NESTED_COUNT xRule)) = true ->
  ruleMember m_mMacros xRule pEntity = Some pMember ->
  chainOrder = (before ++ a :: after)%list ->
  forallb (fun a' => negb (chainSet m_mMacros xRule pMember a')) before = true ->
  chainSet m_mMacros xRule pMember a = true \/ after = [] ->
  runGrammar_Reject exactMatch pathExists m_mMacros sFileName sClassName
                    pEntity xRule bInverseLogic m_vErrors
  = outcome m_mMacros sFileName pEntity xRule
      (attributeCheck exactMatch pathExists m_mMacros sFileName xRule pMember a)
      bInverseLogic m_vErrors.
Proof.
  intros Hc Hn Hm Hsplit Hbefore Ha.
  rewrite (runGrammar_Reject_chain _ _ _ _ _ _ pMember) by assumption.
  unfold selected. rewrite Hsplit, (find_skips_unset _ _ _ Hbefore). cbn [find].
  destruct (chainSet m_mMacros xRule pMember a) eqn:Eset; [reflexivity|].
  destruct Ha as [Ha | Ha]; [discriminate|]. subst after. cbn [find].
  assert (a = aValue) as ->; [|reflexivity].
  apply (f_equal (fun l => last l aValue)) in Hsplit.
  rewrite last_last in Hsplit. symmetry. exact Hsplit.
Qed.

Lemma first_attribute_of_chain_applies_witness :
  runGrammar_Reject literalMatch noPath [] "Main.qml" "QMLPropertyAssignment"
                    abcAssignment rejectClassAndList false []
  = (false, []).
Proof.
  apply (first_attribute_of_chain_applies literalMatch noPath [] "Main.qml"
           "QMLPropertyAssignment" abcAssignment (leaf "QMLIdentifier" "abc" (10, 3))
           rejectClassAndList false [] aList []
           [aClass; aPath; aRegExp; aCount; aType; aValue]).
  - reflexivity.
  - reflexivity.
  - reflexivity.
  - reflexivity.
  - reflexivity.
  - left. reflexivity.
Defined.

(** C3 fails as stated.  A Reject rule that sets Class and List, on an
    assignment whose content is the identifier abc: in the order of the
    table the first attribute set is Class, whose predicate is true, so
    that the rule would fire; the code looks at List first, abc is not
    in the list, and the rule stays silent. *)
Lemma table_order_is_not_the_chain :
  selected (attributeSet [] rejectClassAndList) tableOrder = aClass
  /\ attributeCheck literalMatch noPath [] "Main.qml" rejectClassAndList
       (leaf "QMLIdentifier" "abc" (10, 3)) aClass = Some true
  /\ runGrammar_Reject literalMatch noPath [] "Main.qml" "QMLPropertyAssignment"
                       abcAssignment rejectClassAndList false [] = (false, [])
  /\ runGrammar_Reject literalMatch noPath [] "Main.qml" "QMLPropertyAssignment"
                       abcAssignment rejectClassAndList false []
     <> outcome [] "Main.qml" abcAssignment rejectClassAndList
          (attributeCheck literalMatch noPath [] "Main.qml" rejectClassAndList
             (leaf "QMLIdentifier" "abc" (10, 3))
             (selected (attributeSet [] rejectClassAndList) tableOrder))
          false [].
Proof.
  repeat split; try reflexivity. vm_compute. discriminate.
Qed.

End RuleProperties.

(** ** Conditions *)
Module ConditionProperties.
Import QStr Tree Xml Analyzer Spec Samples.

(** With [Value] set on a member that is there, a condition passes when
    the text equals the value, and [Negate] set to true inverts that. *)
Lemma satisfiesCondition_value
      (sFileName : string) (pEntity pMember : QMLEntity) (xCondition : CXMLNode) :
  member (toLower (attribute ANALYZER_TOKEN_MEMBER xCondition)) pEntity = Some pMember ->
  isEmpty (attribute ANALYZER_TOKEN_VALUE xCondition) = false ->
  satisfiesCondition sFileName pEntity xCondition
  = xorb (String.eqb (memberText pMember) (attribute ANALYZER_TOKEN_VALUE xCondition))
         (String.eqb (toLower (attribute ANALYZER_TOKEN_NEGATE xCondition))
                     ANALYZER_TOKEN_TRUE).
Proof.
  intros Hm Hv. unfold satisfiesCondition, memberText. rewrite Hm, Hv. cbn [negb].
  destruct (String.eqb (stripQuotes (toString pMember)) _);
    destruct (String.eqb (toLower _) ANALYZER_TOKEN_TRUE); reflexivity.
Qed.

(** With [Empty] set and no [Value], the attribute [Negate] is not read. *)
Lemma satisfiesCondition_empty
      (sFileName : string) (pEntity pMember : QMLEntity) (xCondition : CXMLNode) :
  member (toLower (attribute ANALYZER_TOKEN_MEMBER xCondition)) pEntity = Some pMember ->
  isEmpty (attribute ANALYZER_TOKEN_VALUE xCondition) = true ->
  isEmpty (toLower (attribute ANALYZER_TOKEN_EMPTY xCondition)) = false ->
  satisfiesCondition sFileName pEntity xCondition
  = isEmpty (memberText pMember)
    && String.eqb (toLower (attribute ANALYZER_TOKEN_EMPTY xCondition)) ANALYZER_TOKEN_TRUE.
Proof.
  intros Hm Hv He. unfold satisfiesCondition, memberText. rewrite Hm, Hv, He. cbn [negb].
  destruct (isEmpty (stripQuotes (toString pMember)) && _); reflexivity.
Qed.

(** C6 at the failing input.  The condition on the member content with
    Empty and Negate both true: on a content whose text is empty the
    emptiness check holds and the condition still passes; on the
    content abc the check fails and the condition still fails.  The
    same condition with Value is inverted by Negate. *)
Theorem condition_empty_is_not_negated :
  satisfiesCondition "Main.qml" emptyTextAssignment conditionEmptyNegated = true
  /\ satisfiesCondition "Main.qml" abcAssignment conditionEmptyNegated = false
  /\ satisfiesCondition "Main.qml" abcAssignment conditionValueNegated = false
  /\ satisfiesCondition "Main.qml" emptyTextAssignment conditionValueNegated = true.
Proof. repeat split; reflexivity. Qed.

End ConditionProperties.

(** ** Member names *)
Module MemberProperties.
Import QStr Tree Xml Analyzer Spec Samples StringFacts.

Lemma toLower_is_not (s : string) (a : ascii) (r : string) :
  ((65 <=? N_of_ascii a) && (N_of_ascii a <=? 90))%N = true -> toLower s <> String a r.
Proof.
  intros Hup H. apply toLower_head in H. rewrite H in Hup. discriminate.
Qed.

(** C7 at the failing input, which is every binary operation.  The
    keys of its member map are Left and Right, with a capital; neither
    is its own lower case, and no text in lower case finds a member. *)
Theorem binaryOperation_keys_are_capitalised (b : QMLBinaryOperation) (sMember : string) :
  QMap.keys (binaryOperation_members b) = ["Left"; "Right"]
  /\ toLower "Left" = "left" /\ toLower "Right" = "right"
  /\ QMap.lookup (toLower sMember) (binaryOperation_members b) = None
  /\ QMap.lookup "left" (binaryOperation_members b) = None
  /\ QMap.lookup "Left" (binaryOperation_members b) = Some (m_pLeft b).
Proof.
  repeat split.
  unfold binaryOperation_members. cbn [QMap.insert String.eqb QMap.ltb].
  cbn. 
  destruct (String.eqb (toLower sMember) "Left") eqn:E1.
  - apply String.eqb_eq in E1. exfalso. revert E1. apply toLower_is_not. reflexivity.
  - destruct (String.eqb (toLower sMember) "Right") eqn:E2; [|reflexivity].
    apply String.eqb_eq in E2. exfalso. revert E2. apply toLower_is_not. reflexivity.
Qed.

(** A condition on the left operand of a sum never finds it. *)
Example condition_on_left_operand :
  member (toLower "left") (binaryOperation_entity "a + b" sumOperation) = None
  /\ member (toLower "Left") (binaryOperation_entity "a + b" sumOperation) = None.
Proof. split; reflexivity. Qed.

End MemberProperties.

(** ** The traversal *)
Module TraversalProperties.
Import QStr Tree Xml Analyzer Spec RuleProperties.

(** Induction over a tree: a property that passes from the members and
    children of a node to the node holds of every node. *)
Lemma QMLEntity_subNodes_ind (P : QMLEntity -> Prop) :
  (forall e, (forall c, In (Some c) (subNodes e) -> P c) -> P e) ->
  forall e, P e.
Proof.
  intros step. fix IH 1. intros [cls text pos ty mem cont up us].
  apply step. unfold subNodes. cbn [members contents].
  intros c Hin. apply in_app_or in Hin. destruct Hin as [Hin | Hin].
  - induction mem as [|[k [m|]] mem IHmem]; cbn [map snd In] in Hin.
    + contradiction.
    + destruct Hin as [Heq | Hin].
      * injection Heq as Heq. rewrite <- Heq. apply IH.
      * apply IHmem. exact Hin.
    + destruct Hin as [Heq | Hin]; [discriminate | apply IHmem; exact Hin].
  - destruct cont as [children|]; [|contradiction].
    induction children as [|[c'|] children IHc]; cbn [In] in Hin.
    + contradiction.
    + destruct Hin as [Heq | Hin].
      * injection Heq as Heq. rewrite <- Heq. apply IH.
      * apply IHc. exact Hin.
    + destruct Hin as [Heq | Hin]; [discriminate | apply IHc; exact Hin].
Qed.

Section Traversal.
Variable exactMatch : string -> string -> bool.
Variable pathExists : string -> string -> bool.
Variable m_xGrammar : CXMLNode.
Variable m_mMacros : QMap.t string.

(** The loop over the rules of one kind evaluates every rule. *)
Lemma rules_loop_all (sFileName sClassName : string) (pEntity : QMLEntity)
      (bInverseLogic : bool) (vRules : list CXMLNode)
      (bHasRejects : bool) (m_vErrors : list QMLAnalyzerError) :
  rules_loop exactMatch pathExists m_mMacros sFileName sClassName pEntity
             bInverseLogic vRules (bHasRejects, m_vErrors)
  = (bHasRejects
     || existsb (ruleFires exactMatch pathExists m_mMacros sFileName sClassName
                           pEntity bInverseLogic) vRules,
     (m_vErrors
      ++ flat_map (ruleDiagnostics exactMatch pathExists m_mMacros sFileName sClassName
                                   pEntity bInverseLogic) vRules)%list).
Proof.
  unfold rules_loop. revert bHasRejects m_vErrors.
  induction vRules as [|xRule vRules IH]; intros bHasRejects m_vErrors;
    cbn [fold_left existsb flat_map].
  - rewrite orb_false_r, app_nil_r. reflexivity.
  - rewrite runGrammar_Reject_appends. rewrite IH. rewrite <- app_assoc.
    f_equal. destruct (ruleFires _ _ _ _ _ _ _ xRule); destruct bHasRejects; reflexivity.
Qed.

Lemma check_body_all (sFileName : string) (pEntity : QMLEntity) (xCheck : CXMLNode)
      (bHasRejects : bool) (m_vErrors : list QMLAnalyzerError) :
  check_body exactMatch pathExists m_mMacros sFileName pEntity
             (bHasRejects, m_vErrors) xCheck
  = (bHasRejects || checkFires exactMatch pathExists m_mMacros sFileName pEntity xCheck,
     (m_vErrors
      ++ checkDiagnostics exactMatch pathExists m_mMacros sFileName pEntity xCheck)%list).
Proof.
  unfold check_body, checkFires, checkDiagnostics, checkMatches.
  destruct (String.eqb (className pEntity) (attribute ANALYZER_TOKEN_CLASS xCheck)).
  - rewrite !rules_loop_all. cbn [andb]. rewrite orb_assoc, app_assoc. reflexivity.
  - cbn [andb]. rewrite orb_false_r, app_nil_r. reflexivity.
Qed.

Lemma checks_fold_all (sFileName : string) (pEntity : QMLEntity)
      (vChecks : list CXMLNode) (bHasRejects : bool) (m_vErrors : list QMLAnalyzerError) :
  fold_left (check_body exactMatch pathExists m_mMacros sFileName pEntity)
            vChecks (bHasRejects, m_vErrors)
  = (bHasRejects
     || existsb (checkFires exactMatch pathExists m_mMacros sFileName pEntity) vChecks,
     (m_vErrors
      ++ flat_map (checkDiagnostics exactMatch pathExists m_mMacros sFileName pEntity)
                  vChecks)%list).
Proof.
  revert bHasRejects m_vErrors.
  induction vChecks as [|xCheck vChecks IH]; intros bHasRejects m_vErrors;
    cbn [fold_left existsb flat_map].
  - rewrite orb_false_r, app_nil_r. reflexivity.
  - rewrite check_body_all, IH, <- app_assoc, orb_assoc. reflexivity.
Qed.

Lemma checks_loop_all (sFileName : string) (pEntity : QMLEntity)
      (m_vErrors : list QMLAnalyzerError) :
  checks_loop exactMatch pathExists m_xGrammar m_mMacros sFileName pEntity m_vErrors
  = (nodeFires exactMatch pathExists m_mMacros m_xGrammar sFileName pEntity,
     (m_vErrors
      ++ nodeDiagnostics exactMatch pathExists m_mMacros m_xGrammar sFileName pEntity)%list).
Proof.
  unfold checks_loop, nodeFires, nodeDiagnostics.
  rewrite checks_fold_all. reflexivity.
Qed.

(** The loops over the checks and their rules are one loop over the
    evaluations of the node: every one of them is made, in that order. *)
Lemma rules_loop_evaluations (sFileName sClassName : string) (pEntity : QMLEntity)
      (bInverseLogic : bool) (vRules : list CXMLNode) (st : bool * list QMLAnalyzerError) :
  rules_loop exactMatch pathExists m_mMacros sFileName sClassName pEntity
             bInverseLogic vRules st
  = fold_left (evaluate exactMatch pathExists m_mMacros sFileName pEntity)
              (map (fun xRule => (sClassName, xRule, bInverseLogic)) vRules) st.
Proof.
  unfold rules_loop. revert st.
  induction vRules as [|xRule vRules IH]; intros st; cbn [fold_left map].
  - reflexivity.
  - rewrite IH. f_equal.
Qed.

Lemma checks_loop_evaluations (sFileName : string) (pEntity : QMLEntity)
      (m_vErrors : list QMLAnalyzerError) :
  checks_loop exactMatch pathExists m_xGrammar m_mMacros sFileName pEntity m_vErrors
  = fold_left (evaluate exactMatch pathExists m_mMacros sFileName pEntity)
              (nodeEvaluations m_xGrammar pEntity) (false, m_vErrors).
Proof.
  unfold checks_loop, nodeEvaluations.
  generalize (false, m_vErrors) as st.
  induction (getNodesByTagName ANALYZER_TOKEN_CHECK m_xGrammar) as [|xCheck vChecks IH];
    intros st; cbn [fold_left flat_map].
  - reflexivity.
  - rewrite fold_left_app, IH. f_equal.
    unfold check_body, checkEvaluations, checkMatches.
    destruct (String.eqb (className pEntity) (attribute ANALYZER_TOKEN_CLASS xCheck)).
    + rewrite fold_left_app, !rules_loop_evaluations. reflexivity.
    + reflexivity.
Qed.

(** The diagnostics on unreferenced symbols are appended too. *)
Lemma outputUnreferenced_shift (sFileName sText : string)
      (unused : list (string * QPoint)) (m_vErrors acc : list QMLAnalyzerError) :
  outputUnreferenced sFileName sText unused (m_vErrors ++ acc)%list
  = (m_vErrors ++ outputUnreferenced sFileName sText unused acc)%list.
Proof.
  unfold outputUnreferenced, outputError. revert acc.
  induction unused as [|kv unused IH]; intros acc; cbn [fold_left].
  - reflexivity.
  - rewrite <- app_assoc. apply IH.
Qed.

Lemma outputUnreferenced_appends (sFileName sText : string)
      (unused : list (string * QPoint)) (m_vErrors : list QMLAnalyzerError) :
  outputUnreferenced sFileName sText unused m_vErrors
  = (m_vErrors ++ outputUnreferenced sFileName sText unused [])%list.
Proof.
  rewrite <- outputUnreferenced_shift, app_nil_r. reflexivity.
Qed.

Lemma symbolUsage_appends (sFileName : string) (pEntity : QMLEntity)
      (m_vErrors : list QMLAnalyzerError) :
  symbolUsage sFileName pEntity m_vErrors
  = (m_vErrors ++ symbolUsage sFileName pEntity [])%list.
Proof.
  unfold symbolUsage.
  destruct (unusedProperties pEntity) as [props|];
    destruct (unusedSymbols pEntity) as [[vars params]|];
    rewrite ?app_nil_r; try reflexivity.
  - rewrite (outputUnreferenced_appends _ "Unreferenced property" props m_vErrors).
    rewrite !outputUnreferenced_shift. reflexivity.
  - apply outputUnreferenced_appends.
  - rewrite (outputUnreferenced_appends _ "Unreferenced variable" vars m_vErrors).
    rewrite !outputUnreferenced_shift. reflexivity.
Qed.

(** [runGrammar_Recurse], one level unfolded: the inner loops are one
    loop over the members and then the children. *)
Lemma runGrammar_Recurse_unfold (sFileName : string) (pEntity : QMLEntity)
      (m_vErrors : list QMLAnalyzerError) :
  runGrammar_Recurse exactMatch pathExists m_xGrammar m_mMacros sFileName pEntity m_vErrors
  = let '(bHasRejects, errs) :=
      checks_loop exactMatch pathExists m_xGrammar m_mMacros sFileName pEntity
                  (symbolUsage sFileName pEntity m_vErrors) in
    if negb bHasRejects then
      fold_left (fun errs c =>
                   runGrammar_Recurse_ptr exactMatch pathExists m_xGrammar m_mMacros
                                          sFileName c errs)
                (subNodes pEntity) errs
    else errs.
Proof.
  destruct pEntity as [cls text pos ty mem cont up us].
  cbn [runGrammar_Recurse]. unfold subNodes. cbn [members contents].
  destruct (checks_loop _ _ _ _ _ _ _) as [bHasRejects errs].
  destruct bHasRejects; cbn [negb]; [reflexivity|].
  rewrite fold_left_app.
  assert (Hmem : forall l e,
             (fix overMembers (l : list (string * option QMLEntity))
                  (errs : list QMLAnalyzerError) {struct l} : list QMLAnalyzerError :=
                match l with
                | [] => errs
                | (_, None) :: l' => overMembers l' errs
                | (_, Some m) :: l' =>
                    overMembers l'
                      (runGrammar_Recurse exactMatch pathExists m_xGrammar m_mMacros
                                          sFileName m errs)
                end) l e
             = fold_left (fun errs c =>
                            runGrammar_Recurse_ptr exactMatch pathExists m_xGrammar
                                                   m_mMacros sFileName c errs)
                         (map snd l) e).
  { induction l as [|[k [m|]] l IHl]; intros e; cbn [map snd fold_left];
      [reflexivity | rewrite IHl; reflexivity | rewrite IHl; reflexivity]. }
  rewrite Hmem.
  destruct cont as [children|]; [|reflexivity].
  generalize (fold_left
                (fun errs c =>
                   runGrammar_Recurse_ptr exactMatch pathExists m_xGrammar m_mMacros
                                          sFileName c errs) (map snd mem) errs) as e.
  induction children as [|[c|] children IHc]; intros e; cbn [fold_left];
    [reflexivity | rewrite IHc; reflexivity | rewrite IHc; reflexivity].
Qed.

Lemma subNodes_fold_appends (sFileName : string) (l : list (option QMLEntity)) :
  (forall c, In (Some c) l ->
     forall errs,
       runGrammar_Recurse exactMatch pathExists m_xGrammar m_mMacros sFileName c errs
       = (errs ++ runGrammar_Recurse exactMatch pathExists m_xGrammar m_mMacros
                                     sFileName c [])%list) ->
  forall errs,
    fold_left (fun errs c =>
                 runGrammar_Recurse_ptr exactMatch pathExists m_xGrammar m_mMacros
                                        sFileName c errs) l errs
    = (errs ++ flat_map (fun c =>
                           runGrammar_Recurse_ptr exactMatch pathExists m_xGrammar
                                                  m_mMacros sFileName c []) l)%list.
Proof.
  induction l as [|[c|] l IH]; intros Hsub errs; cbn [fold_left flat_map].
  - rewrite app_nil_r. reflexivity.
  - cbn [runGrammar_Recurse_ptr].
    rewrite IH by (intros c' Hc'; apply Hsub; right; exact Hc').
    rewrite (Hsub c (or_introl eq_refl) errs), <- app_assoc. reflexivity.
  - cbn [runGrammar_Recurse_ptr app].
    apply IH. intros c' Hc'. apply Hsub. right. exact Hc'.
Qed.

(** The traversal of a node, one level unfolded, from any error list. *)
Lemma runGrammar_Recurse_level (sFileName : string) (pEntity : QMLEntity) :
  (forall c, In (Some c) (subNodes pEntity) ->
     forall errs,
       runGrammar_Recurse exactMatch pathExists m_xGrammar m_mMacros sFileName c errs
       = (errs ++ runGrammar_Recurse exactMatch pathExists m_xGrammar m_mMacros
                                     sFileName c [])%list) ->
  forall m_vErrors,
    runGrammar_Recurse exactMatch pathExists m_xGrammar m_mMacros sFileName
                       pEntity m_vErrors
    = (m_vErrors
       ++ symbolUsage sFileName pEntity []
       ++ nodeDiagnostics exactMatch pathExists m_mMacros m_xGrammar sFileName pEntity
       ++ (if nodeFires exactMatch pathExists m_mMacros m_xGrammar sFileName pEntity
           then []
           else flat_map (fun c =>
                            runGrammar_Recurse_ptr exactMatch pathExists m_xGrammar
                                                   m_mMacros sFileName c [])
                         (subNodes pEntity)))%list.
Proof.
  intros Hsub m_vErrors.
  rewrite runGrammar_Recurse_unfold, checks_loop_all, symbolUsage_appends.
  destruct (nodeFires _ _ _ _ _ _); cbn [negb].
  - rewrite app_nil_r, app_assoc. reflexivity.
  - rewrite (subNodes_fold_appends sFileName _ Hsub), !app_assoc. reflexivity.
Qed.

Lemma runGrammar_Recurse_appends (sFileName : string) (pEntity : QMLEntity) :
  forall m_vErrors,
    runGrammar_Recurse exactMatch pathExists m_xGrammar m_mMacros sFileName
                       pEntity m_vErrors
    = (m_vErrors ++ runGrammar_Recurse exactMatch pathExists m_xGrammar m_mMacros
                                        sFileName pEntity [])%list.
Proof.
  induction pEntity as [e IH] using QMLEntity_subNodes_ind. intros m_vErrors.
  rewrite (runGrammar_Recurse_level sFileName e IH m_vErrors).
  rewrite (runGrammar_Recurse_level sFileName e IH []). reflexivity.
Qed.

(** C2, as amended.  The traversal is depth first and in pre-order.
    At a node the engine first emits the diagnostics on unreferenced
    symbols, then makes every evaluation of [nodeEvaluations] in order:
    the matching Check blocks in document order and, within each block,
    all its Reject rules and then all its Accept rules, whether an
    earlier rule fired or not, each rule appending the diagnostics of
    its own; and then, if and only if no rule fired on the node, it
    traverses the members and the ordered children.  A null node is
    left at once. *)
Theorem rejects_then_accepts_then_recursion
        (sFileName : string) (pEntity : QMLEntity) (m_vErrors : list QMLAnalyzerError) :
  checks_loop exactMatch pathExists m_xGrammar m_mMacros sFileName pEntity m_vErrors
  = fold_left (evaluate exactMatch pathExists m_mMacros sFileName pEntity)
              (nodeEvaluations m_xGrammar pEntity) (false, m_vErrors)
  /\ runGrammar_Recurse_ptr exactMatch pathExists m_xGrammar m_mMacros sFileName
                            (Some pEntity) m_vErrors
     = (m_vErrors
        ++ symbolUsage sFileName pEntity []
        ++ nodeDiagnostics exactMatch pathExists m_mMacros m_xGrammar sFileName pEntity
        ++ (if nodeFires exactMatch pathExists m_mMacros m_xGrammar sFileName pEntity
            then []
            else flat_map (fun c =>
                             runGrammar_Recurse_ptr exactMatch pathExists m_xGrammar
                                                    m_mMacros sFileName c [])
                          (subNodes pEntity)))%list
  /\ runGrammar_Recurse_ptr exactMatch pathExists m_xGrammar m_mMacros sFileName
                            None m_vErrors = m_vErrors.
Proof.
  split; [apply checks_loop_evaluations|].
  split; [|reflexivity]. cbn [runGrammar_Recurse_ptr].
  apply runGrammar_Recurse_level. intros c _. apply runGrammar_Recurse_appends.
Qed.

End Traversal.

(** C2 fails as stated.  With two Check blocks that match the node, the
    Accept rule of the first block is evaluated, and its diagnostic
    emitted, before the Reject rule of the second block: the Reject
    rules of the matching blocks do not all come before the Accept
    rules. *)
Lemma accept_of_first_check_precedes_reject_of_second :
  nodeEvaluations Samples.twoChecks Samples.abcAssignment
  = [("QMLPropertyAssignment", Samples.acceptXyz, true);
     ("QMLPropertyAssignment", Samples.rejectAbc, false)]
  /\ checks_loop Samples.literalMatch Samples.noPath Samples.twoChecks [] "Main.qml"
                 Samples.abcAssignment []
     = (true, [mkError "Main.qml" (4, 3) "xyz expected";
               mkError "Main.qml" (4, 3) "abc refused"])
  /\ runGrammar Samples.literalMatch Samples.noPath Samples.twoChecks [] "Main.qml"
                [Some Samples.abcAssignment] []
     = [mkError "Main.qml" (4, 3) "xyz expected"; mkError "Main.qml" (4, 3) "abc refused"].
Proof. repeat split; reflexivity. Qed.

End TraversalProperties.

(** ** The lexer *)
Module LexerProperties.
Import QStr Lexer Spec.

(** *** Hex literals *)

(** In base 10 a text that starts with 0x is not a number. *)
Lemma toInt_0x (x : ascii) (rest : string) :
  x = "x"%char \/ x = "X"%char -> toInt (String "0" (String x rest)) = 0.
Proof. intros [-> | ->]; reflexivity. Qed.

Lemma startsWith_append (p t x : string) :
  startsWith p t = true -> startsWith p (t ++ x) = true.
Proof.
  revert t. induction p as [|a p IH]; intros t H; [reflexivity|].
  destruct t as [|b t]; cbn [startsWith append] in *; [discriminate|].
  apply andb_true_iff in H. destruct H as [Hab Ht].
  rewrite Hab. cbn [andb]. apply IH. exact Ht.
Qed.

Lemma Keeps_refl (p : string) (s : QMLScope) : Keeps p s s.
Proof. split; [tauto | reflexivity]. Qed.

Lemma Keeps_trans (p : string) (s1 s2 s3 : QMLScope) :
  Keeps p s1 s2 -> Keeps p s2 s3 -> Keeps p s1 s3.
Proof. intros [A1 B1] [A2 B2]. split; [tauto | congruence]. Qed.

Lemma getChar_keeps (p : string) (s : QMLScope) : Keeps p s (snd (getChar s)).
Proof.
  unfold getChar. destruct (String.get _ _) as [a|]; [|apply Keeps_refl].
  cbn [snd]. destruct (ch a =? 10); [|destruct (ch a =? 9); [|destruct (ch a =? 13)]];
    split; cbn; tauto.
Qed.

Lemma ungetChar_keeps (p : string) (c : Z) (s : QMLScope) : Keeps p s (ungetChar c s).
Proof.
  unfold ungetChar. destruct (c =? 10); [|destruct (c =? 9); [|destruct (c =? 13)]];
    split; cbn; tauto.
Qed.

Lemma store_keeps (p : string) (c : Z) (s : QMLScope) :
  Keeps p s (setTokenValue (m_pCurrentTokenValue s ++ String (qchar c) EmptyString) s).
Proof. split; [cbn; apply startsWith_append | reflexivity]. Qed.

Lemma setParsingFloat_keeps (p : string) (b : bool) (s : QMLScope) :
  Keeps p s (setParsingFloat b s).
Proof. split; cbn; tauto. Qed.

Create HintDb keeps.
#[local] Hint Resolve Keeps_refl getChar_keeps ungetChar_keeps store_keeps
  setParsingFloat_keeps : keeps.

(** The number loop only ever appends to the token text. *)
Lemma parseNumber_loop_keeps (p : string) (fuel : nat) :
  forall s s', parseNumber_loop fuel s = Some (tt, s') -> Keeps p s s'.
Proof.
  induction fuel as [|fuel IH]; intros s s' H; [discriminate|].
  cbn [parseNumber_loop] in H. unfold bind, GET in H.
  pose proof (getChar_keeps p s) as Hg.
  destruct (getChar s) as [c s1]. cbn [snd] in Hg.
  apply (Keeps_trans p s s1 s'); [exact Hg|]. clear Hg.
  unfold STORE, UNGET, reads, update in H.
  repeat match type of H with
         | (if ?b then _ else _) _ = Some _ => destruct b
         | (if ?b then _ else _) = Some _ => destruct b
         | Some _ = Some _ => injection H as <-
         | ret _ _ = Some _ => unfold ret in H
         end;
    try (eapply Keeps_trans; [|apply IH; exact H]);
    eauto using Keeps_trans with keeps.
  Unshelve. all: exact true.
Qed.

(** In hexadecimal mode, on a token text that starts with 0x, an
    integer constant returned by [parseNumber] has the value 0. *)
Lemma parseNumber_hexa_value (fuel : nat) (LVAL : UParserValue) (s s' : QMLScope)
      (token : Z) (value : UParserValue) (x : ascii) :
  x = "x"%char \/ x = "X"%char ->
  m_bParsingHexa s = true ->
  startsWith (String "0" (String x EmptyString)) (m_pCurrentTokenValue s) = true ->
  parseNumber fuel LVAL s = Some ((token, value), s') ->
  token = TOKEN_INTEGERCONSTANT ->
  value = LInteger 0.
Proof.
  intros Hx Hh Hp H Htok. unfold parseNumber, bind in H.
  destruct (parseNumber_loop fuel s) as [[[] s1]|] eqn:Eloop; [|discriminate].
  destruct (parseNumber_loop_keeps (String "0" (String x EmptyString)) _ _ _ Eloop)
    as [Hk1 Hk2].
  specialize (Hk1 Hp). unfold reads, ret in H.
  destruct (m_bParsingFloat s1).
  - injection H as Ht _ _. rewrite <- Ht in Htok. discriminate.
  - rewrite Hk2, Hh in H. injection H as _ <- _.
    destruct (m_pCurrentTokenValue s1) as [|a t1]; cbn [startsWith] in Hk1;
      [discriminate|].
    apply andb_true_iff in Hk1. destruct Hk1 as [Ha Hb].
    destruct t1 as [|b rest]; cbn [startsWith] in Hb; [discriminate|].
    apply andb_true_iff in Hb. destruct Hb as [Hb _].
    apply Ascii.eqb_eq in Ha, Hb. subst a b. rewrite (toInt_0x x rest Hx). reflexivity.
Qed.

(** *** More turns never change what a loop returns *)

Lemma refines_refl {A} (m : Lex A) : refines m m.
Proof. intros s r H. exact H. Qed.

Lemma refines_outOfFuel {A} (m : Lex A) : refines outOfFuel m.
Proof. intros s r H. discriminate. Qed.

Lemma refines_bind {A B} (m1 m2 : Lex A) (k1 k2 : A -> Lex B) :
  refines m1 m2 -> (forall a, refines (k1 a) (k2 a)) ->
  refines (bind m1 k1) (bind m2 k2).
Proof.
  intros Hm Hk s r H. unfold bind in *.
  destruct (m1 s) as [[a s1]|] eqn:E; [|discriminate].
  rewrite (Hm _ _ E). apply Hk. exact H.
Qed.

Ltac refine_step :=
  match goal with
  | |- refines outOfFuel _ => apply refines_outOfFuel
  | H : refines ?a ?b |- refines ?a ?b => exact H
  | H : forall c, refines (?a c) (?b c) |- refines (?a _) (?b _) => apply H
  | H : forall c d, refines (?a c d) (?b c d) |- refines (?a _ _) (?b _ _) => apply H
  | |- refines ?m ?m => apply refines_refl
  | |- refines (bind _ _) (bind _ _) => apply refines_bind; [|intro]
  | |- refines (if ?b then _ else _) (if ?b then _ else _) => destruct b
  | |- refines (match ?o with Some _ => _ | None => _ end)
               (match ?o with Some _ => _ | None => _ end) => destruct o
  end.

Ltac refine_loop := repeat refine_step.

Lemma parseNumber_loop_more (fuel : nat) :
  refines (parseNumber_loop fuel) (parseNumber_loop (S fuel)).
Proof.
  induction fuel as [|fuel IH]; [apply refines_outOfFuel|].
  pose (more := S fuel). change (refines (parseNumber_loop fuel) (parseNumber_loop more)) in IH.
  change (refines (parseNumber_loop (S fuel)) (parseNumber_loop (S more))).
  clearbody more. cbn [parseNumber_loop]. refine_loop.
Qed.

Lemma lineComment_loop_more (fuel : nat) :
  forall c, refines (lineComment_loop fuel c) (lineComment_loop (S fuel) c).
Proof.
  induction fuel as [|fuel IH]; intros c; [apply refines_outOfFuel|].
  pose (more := S fuel).
  change (forall c, refines (lineComment_loop fuel c) (lineComment_loop more c)) in IH.
  change (refines (lineComment_loop (S fuel) c) (lineComment_loop (S more) c)).
  clearbody more. cbn [lineComment_loop]. refine_loop.
Qed.

Lemma skip_loop_more (fuel : nat) :
  refines (skip_loop fuel) (skip_loop (S fuel)).
Proof.
  induction fuel as [|fuel IH]; [apply refines_outOfFuel|].
  pose proof (lineComment_loop_more fuel) as Hline.
  pose (more := S fuel). change (refines (skip_loop fuel) (skip_loop more)) in IH.
  change (forall c, refines (lineComment_loop fuel c) (lineComment_loop more c)) in Hline.
  change (refines (skip_loop (S fuel)) (skip_loop (S more))).
  clearbody more. cbn [skip_loop]. refine_loop.
Qed.

Lemma dimension_loop_more (fuel : nat) :
  refines (dimension_loop fuel) (dimension_loop (S fuel)).
Proof.
  induction fuel as [|fuel IH]; [apply refines_outOfFuel|].
  pose (more := S fuel). change (refines (dimension_loop fuel) (dimension_loop more)) in IH.
  change (refines (dimension_loop (S fuel)) (dimension_loop (S more))).
  clearbody more. cbn [dimension_loop]. refine_loop.
Qed.

Lemma literal_loop_more (fuel : nat) :
  forall quote, refines (literal_loop fuel quote) (literal_loop (S fuel) quote).
Proof.
  induction fuel as [|fuel IH]; intros quote; [apply refines_outOfFuel|].
  pose (more := S fuel).
  change (forall q, refines (literal_loop fuel q) (literal_loop more q)) in IH.
  change (refines (literal_loop (S fuel) quote) (literal_loop (S more) quote)).
  clearbody more. cbn [literal_loop]. refine_loop.
Qed.

Lemma identifier_loop_more (fuel : nat) :
  forall c, refines (identifier_loop fuel c) (identifier_loop (S fuel) c).
Proof.
  induction fuel as [|fuel IH]; intros c; [apply refines_outOfFuel|].
  pose (more := S fuel).
  change (forall c, refines (identifier_loop fuel c) (identifier_loop more c)) in IH.
  change (refines (identifier_loop (S fuel) c) (identifier_loop (S more) c)).
  clearbody more. cbn [identifier_loop]. refine_loop.
Qed.

Lemma parseNumber_more (fuel : nat) (LVAL : UParserValue) :
  refines (parseNumber fuel LVAL) (parseNumber (S fuel) LVAL).
Proof.
  pose proof (parseNumber_loop_more fuel) as Hloop.
  unfold parseNumber. generalize dependent (parseNumber_loop (S fuel)).
  intros more Hloop. refine_loop.
Qed.

(** A call that returns with some number of turns returns the same with
    one more. *)
Lemma parseNextToken_more (fuel : nat) (LVAL : UParserValue) :
  refines (parseNextToken fuel LVAL) (parseNextToken (S fuel) LVAL).
Proof.
  pose proof (skip_loop_more fuel) as Hskip.
  pose proof (dimension_loop_more fuel) as Hdim.
  pose proof (literal_loop_more fuel) as Hlit.
  pose proof (identifier_loop_more fuel) as Hid.
  pose proof (parseNumber_more fuel) as Hnum.
  unfold parseNextToken.
  generalize dependent (skip_loop (S fuel)). intros skip' Hskip.
  generalize dependent (dimension_loop (S fuel)). intros dim' Hdim.
  generalize dependent (literal_loop (S fuel)). intros lit' Hlit.
  generalize dependent (identifier_loop (S fuel)). intros id' Hid.
  generalize dependent (parseNumber (S fuel)). intros num' Hnum.
  refine_loop.
Qed.

Lemma parseNextToken_enough (fuel extra : nat) (LVAL : UParserValue) :
  refines (parseNextToken fuel LVAL) (parseNextToken (fuel + extra) LVAL).
Proof.
  induction extra as [|extra IH].
  - rewrite Nat.add_0_r. apply refines_refl.
  - rewrite Nat.add_succ_r. intros s r H. apply parseNextToken_more, IH, H.
Qed.

Lemma firstToken_enough (fuel extra : nat) (text : string) (r : Z * UParserValue) :
  firstToken fuel text = Some r -> firstToken (fuel + extra) text = Some r.
Proof.
  unfold firstToken.
  destruct (parseNextToken fuel LNone (openScope text)) as [[r' s']|] eqn:E; [|discriminate].
  rewrite (parseNextToken_enough fuel extra LNone _ _ E). intros H. exact H.
Qed.

(** *** The loop after an opening bracket *)

Lemma getChar_restWhite (s : QMLScope) :
  restWhite s -> fst (getChar s) <= 32 /\ restWhite (snd (getChar s)).
Proof.
  intros Hw. unfold getChar.
  destruct (String.get (m_iPos s) (m_sStream s)) as [a|] eqn:E; cbn [fst snd].
  - split; [apply (Hw (m_iPos s) a (Nat.le_refl _) E)|].
    assert (Hnext : forall s2, m_sStream s2 = m_sStream s -> m_iPos s2 = S (m_iPos s) ->
                               restWhite s2).
    { intros s2 Hs Hp n b Hn Hb. rewrite Hs in Hb. rewrite Hp in Hn.
      apply (Hw n b); [lia | exact Hb]. }
    destruct (ch a =? 10); [|destruct (ch a =? 9); [|destruct (ch a =? 13)]];
      apply Hnext; reflexivity.
  - split; [unfold EOF; lia | exact Hw].
Qed.

(** With white space only up to the end of the stream, the loop is
    never left: at the end [getChar] gives [EOF], which is not above
    the blank, and the loop reads again. *)
Lemma dimension_loop_never_returns (fuel : nat) :
  forall s, restWhite s -> dimension_loop fuel s = None.
Proof.
  induction fuel as [|fuel IH]; intros s Hw; [reflexivity|].
  cbn [dimension_loop]. unfold bind, GET.
  destruct (getChar_restWhite s Hw) as [Hc Hw'].
  destruct (getChar s) as [d s1]. cbn [fst snd] in Hc, Hw'.
  replace (d >? ch " ") with false
    by (symmetry; rewrite Z.gtb_ltb; apply Z.ltb_ge; exact Hc).
  apply IH. exact Hw'.
Qed.

Lemma allWhite_get (ws : string) :
  allWhite ws = true -> forall n a, String.get n ws = Some a -> ch a <= 32.
Proof.
  induction ws as [|b ws IH]; intros H n a Hget; [destruct n; discriminate|].
  cbn [allWhite] in H. apply andb_true_iff in H. destruct H as [Hb Hws].
  destruct n as [|n]; cbn [String.get] in Hget.
  - injection Hget as <-. apply Z.leb_le. exact Hb.
  - apply (IH Hws n a Hget).
Qed.

(** An opening bracket followed by white space up to the end of the
    stream: no number of turns lets the call return. *)
Lemma bracket_then_white_never_returns (ws : string) (fuel : nat) (LVAL : UParserValue) :
  allWhite ws = true ->
  parseNextToken fuel LVAL (openScope (String "[" ws)) = None.
Proof.
  intros Hws. destruct fuel as [|fuel]; [reflexivity|].
  unfold parseNextToken.
  pose proof (dimension_loop_never_returns (S fuel)) as Hdim.
  set (dim := dimension_loop (S fuel)) in *. clearbody dim.
  unfold bind, update, openScope. cbn [skip_loop].
  unfold bind, GET, reads, UNGET, ret, STORE, getChar. cbn.
  rewrite Hdim; [reflexivity|].
  intros n a Hn Hget. cbn in Hn, Hget.
  destruct n as [|n]; [lia|]. cbn [String.get] in Hget.
  apply (allWhite_get ws Hws n a Hget).
Qed.

(** C10 at the failing input.  On a stream that ends with an opening
    bracket, or with an opening bracket and blanks, no number of turns
    of the loops lets [parseNextToken] return: the call does not
    terminate. *)
Theorem open_bracket_at_end_never_returns (fuel : nat) (LVAL : UParserValue) :
  parseNextToken fuel LVAL (openScope "[") = None
  /\ parseNextToken fuel LVAL (openScope "[  ") = None
  /\ firstToken (3 + fuel) "[ ]" = Some (TOKEN_DIMENSION, LNone)
  /\ firstToken (3 + fuel) "[ 1" = Some (ch "[", LNone).
Proof.
  split; [apply bracket_then_white_never_returns; reflexivity|].
  split; [apply bracket_then_white_never_returns; reflexivity|].
  split; apply firstToken_enough; reflexivity.
Qed.

(** A block comment left open that ends with a star does the same in
    the first loop: the star is read, [EOF] is put back and moves the
    stream onto the star again. *)
Example open_comment_ending_with_star (fuel : nat) (LVAL : UParserValue) :
  parseNextToken fuel LVAL (openScope "/* *") = None.
Proof.
  destruct fuel as [|fuel]; [reflexivity|].
  unfold parseNextToken, bind, update, openScope. cbn [skip_loop].
  unfold bind, GET, reads, UNGET, ret, getChar. cbn.
  destruct fuel as [|fuel]; [reflexivity|]. cbn [skip_loop].
  unfold bind, GET, reads, UNGET, ret, getChar. cbn.
  match goal with
  | |- match skip_loop fuel ?s with _ => _ end = None =>
      assert (Hloop : skip_loop fuel s = None); [|rewrite Hloop; reflexivity]
  end.
  induction fuel as [|fuel IH]; [reflexivity|]. cbn [skip_loop].
  unfold bind, GET, reads, UNGET, ret, getChar. cbn. exact IH.
Qed.

(** *** Comments and hex literals, evaluated *)

(** C4 at the failing input.  The comment opened first is closed by
    the first closing mark: after it the lexer is out of any comment
    and the next token is the identifier c, not x. *)
Theorem nested_comment_ends_at_first_close (extra : nat) :
  firstToken (16 + extra) "/* a /* b */ c */ x" = Some (TOKEN_IDENTIFIER, LString "c")
  /\ firstToken (16 + extra) "/* a b */ x" = Some (TOKEN_IDENTIFIER, LString "x").
Proof. split; apply firstToken_enough; reflexivity. Qed.

(** C5 at the failing input.  The text 0x1F is an integer constant of
    value 0, where base 16 gives 31; the decimal text 31 has the value
    31. *)
Theorem hex_literal_is_read_in_base_10 (extra : nat) :
  firstToken (4 + extra) "0x1F" = Some (TOKEN_INTEGERCONSTANT, LInteger 0)
  /\ base16 "1F" = Some 31
  /\ firstToken (4 + extra) "0XfF;" = Some (TOKEN_INTEGERCONSTANT, LInteger 0)
  /\ firstToken (4 + extra) "31" = Some (TOKEN_INTEGERCONSTANT, LInteger 31).
Proof.
  split; [apply firstToken_enough; reflexivity|].
  split; [reflexivity|].
  split; apply firstToken_enough; reflexivity.
Qed.

End LexerProperties.

(** ** Syntax errors *)
Module DriverProperties.
Import QStr Tree Xml Analyzer Driver Samples Notions.

(** *** Files known by their place *)



Lemma fileAt_app (i : nat) (files more : list QMLFile) :
  (i < List.length files)%nat -> fileAt i (files ++ more) = fileAt i files.
Proof. intros H. unfold fileAt. apply app_nth1. exact H. Qed.





(** *** One step and the next *)



Section Parser.
Variable yyparse : string -> ParserRun.
Variable exactMatch : string -> string -> bool.
Variable pathExists : string -> string -> bool.
Variable openWriteOnly : string -> bool.




Lemma parse_loop_app (fuel : nat) (p1 p2 : list nat) :
  forall st,
    parse_loop yyparse fuel (p1 ++ p2) st
    = match parse_loop yyparse fuel p1 st with
      | Some st1 => parse_loop yyparse fuel p2 st1
      | None => None
      end.
Proof.
  induction p1 as [|iFile p1 IH]; intros [ctx trace]; cbn [app parse_loop]; [reflexivity|].
  destruct (negb (parsed (fileAt iFile (m_vFiles ctx)))); [|apply IH].
  destruct (parse_Internal yyparse fuel iFile _) as [[eError [ctx1 trace1]]|]; [|reflexivity].
  apply IH.
Qed.



(** *** Without imports *)

Lemma showErrors_keeps (sScopeFile : string) (l : list ParserAction) :
  forall st,
    m_vFiles (snd (showErrors sScopeFile l st)) = m_vFiles (snd st)
    /\ m_bIncludeImports (snd (showErrors sScopeFile l st)) = m_bIncludeImports (snd st)
    /\ fst (showErrors sScopeFile l st)
       = (if existsb isShowError l then peSyntaxError else fst st).
Proof.
  induction l as [|[c l' t | f] l IH]; intros st; cbn [showErrors existsb isShowError orb].
  - repeat split; reflexivity.
  - destruct (IH (showError sScopeFile c l' t st)) as [H1 [H2 H3]].
    rewrite H1, H2, H3. cbn. destruct (existsb isShowError l); repeat split; reflexivity.
  - apply IH.
Qed.


Lemma run_actions_no_imports
      (parse_Internal' : nat -> State -> option (EParseError * State))
      (sScopeFile : string) (l : list ParserAction) :
  forall (eScope : EParseError) (ctx : QMLTreeContext) (trace : list Event),
    m_bIncludeImports ctx = false ->
    run_actions (parseImportFile_with parse_Internal') sScopeFile l (eScope, (ctx, trace))
    = Some (fst (showErrors sScopeFile l (eScope, ctx)),
            (snd (showErrors sScopeFile l (eScope, ctx)), trace)).
Proof.
  induction l as [|[c l' t | f] l IH]; intros eScope ctx trace Hflag;
    cbn [run_actions showErrors].
  - reflexivity.
  - cbn [showError snd]. rewrite IH by exact Hflag. reflexivity.
  - unfold parseImportFile_with. rewrite Hflag. apply IH. exact Hflag.
Qed.

Lemma parse_Internal_no_imports (fuel iFile : nat) (ctx : QMLTreeContext)
      (trace : list Event) :
  m_bIncludeImports ctx = false ->
  let sFileName := fileName (fileAt iFile (m_vFiles ctx)) in
  let shown := showErrors sFileName (actions (yyparse sFileName)) (peSuccess, ctx) in
  parse_Internal yyparse (S fuel) iFile (ctx, trace)
  = Some (fst shown,
          (mkContext (m_eError (snd shown)) (m_tErrorObject (snd shown))
                     (updateAt iFile (setContents (ast (yyparse sFileName))) (m_vFiles ctx))
                     false,
           trace)).
Proof.
  intros Hflag sFileName shown. cbn [parse_Internal fst].
  fold sFileName. rewrite run_actions_no_imports by exact Hflag. fold shown.
  destruct (showErrors_keeps sFileName (actions (yyparse sFileName)) (peSuccess, ctx))
    as [Hfiles [Hflag' _]].
  fold shown in Hfiles, Hflag'. cbn [snd] in Hfiles, Hflag'.
  rewrite Hfiles, Hflag', Hflag. reflexivity.
Qed.

(** Files already parsed are passed over, whatever the turns given. *)
Lemma parse_loop_parsed (fuel : nat) (places : list nat) (st : State) :
  (forall j, In j places -> parsed (fileAt j (m_vFiles (fst st))) = true) ->
  parse_loop yyparse fuel places st = Some st.
Proof.
  destruct st as [ctx trace]. cbn [fst].
  induction places as [|iFile places IH]; intros H; cbn [parse_loop]; [reflexivity|].
  rewrite (H iFile) by (left; reflexivity). cbn [negb].
  apply IH. intros j Hj. apply H. right. exact Hj.
Qed.


Lemma parsed_all (files : list QMLFile) :
  forallb parsed files = true ->
  forall j, (j < List.length files)%nat -> parsed (fileAt j files) = true.
Proof.
  intros H j Hj. rewrite forallb_forall in H. apply H. apply nth_In. exact Hj.
Qed.





(** [parse] when every file is marked as parsed: nothing runs. *)
Lemma parse_all_parsed (fuel : nat) (ctx : QMLTreeContext) (trace : list Event) :
  forallb parsed (m_vFiles ctx) = true ->
  parse yyparse fuel ctx trace = Some (peSuccess, cleared ctx, trace).
Proof.
  intros H. unfold parse. cbn [m_vFiles]. rewrite parse_loop_parsed; [reflexivity|].
  intros j Hj. apply in_seq in Hj. cbn [fst m_vFiles]. apply (parsed_all _ H). lia.
Qed.

Lemma updateAt_last (g : QMLFile -> QMLFile) (files : list QMLFile) (f : QMLFile) :
  updateAt (List.length files) g (files ++ [f]) = (files ++ [g f])%list.
Proof. induction files as [|x files IH]; cbn; [reflexivity | rewrite IH; reflexivity]. Qed.

(** [parse] without imports on a context whose last file is new, the
    others being marked as parsed. *)
Lemma parse_new_file_no_imports (fuel : nat) (sFileName : string) (ctx : QMLTreeContext)
      (files : list QMLFile) (trace : list Event) :
  m_bIncludeImports ctx = false ->
  forallb parsed files = true ->
  m_vFiles ctx = (files ++ [mkFile sFileName false []])%list ->
  let shown := showErrors sFileName (actions (yyparse sFileName)) (peSuccess, cleared ctx) in
  parse yyparse (S fuel) ctx trace
  = Some (fst shown,
          mkContext (fst shown) (m_tErrorObject (snd shown))
                    (files ++ [mkFile sFileName true (ast (yyparse sFileName))]) false,
          (trace ++ [ParsingStarted sFileName] ++ resolved sFileName)%list).
Proof.
  intros Hflag Hparsed Hfiles shown. subst shown. unfold parse, cleared. cbn [m_vFiles].
  rewrite Hfiles, length_app. cbn [List.length].
  rewrite Nat.add_1_r, seq_S, parse_loop_app. cbn [Nat.add].
  rewrite parse_loop_parsed.
  2:{ intros j Hj. apply in_seq in Hj. cbn [fst m_vFiles].
      rewrite fileAt_app by lia. apply (parsed_all _ Hparsed). lia. }
  cbn [parse_loop m_vFiles].
  assert (Hnew : fileAt (List.length files) (files ++ [mkFile sFileName false []])
                 = mkFile sFileName false []).
  { unfold fileAt. rewrite app_nth2 by lia. rewrite Nat.sub_diag. reflexivity. }
  rewrite Hnew. cbn [parsed negb fileName].
  rewrite parse_Internal_no_imports by exact Hflag.
  cbn [m_vFiles]. rewrite Hnew. cbn [fileName].
  cbn [m_tErrorObject m_vFiles m_bIncludeImports].
  rewrite !updateAt_last. cbn [setContents setParsed fileName parsed fileContents].
  unfold resolved. rewrite <- !app_assoc. reflexivity.
Qed.

(** *** The statements *)

Lemma fileByFileName_absent (sFileName : string) (files : list QMLFile) :
  existsb (fun f => String.eqb (fileName f) sFileName) files = false ->
  fileByFileName sFileName files = (files ++ [mkFile sFileName false []])%list.
Proof. intros H. unfold fileByFileName. rewrite H. reflexivity. Qed.

Lemma fileByFileName_present (sFileName : string) (files : list QMLFile) (pFile : QMLFile) :
  fileName pFile = sFileName ->
  fileByFileName sFileName (files ++ [pFile])%list = (files ++ [pFile])%list.
Proof.
  intros Hname. unfold fileByFileName. rewrite existsb_app. cbn [existsb].
  rewrite Hname, String.eqb_refl, orb_true_r. reflexivity.
Qed.

Lemma findFile_new (sFileName : string) (files : list QMLFile) (pFile : QMLFile) :
  existsb (fun f => String.eqb (fileName f) sFileName) files = false ->
  fileName pFile = sFileName ->
  findFile sFileName (files ++ [pFile])%list = Some pFile.
Proof.
  intros Hnew Hname. unfold findFile.
  induction files as [|f files IH]; cbn [app find].
  - rewrite Hname, String.eqb_refl. reflexivity.
  - cbn [existsb] in Hnew. apply orb_false_iff in Hnew. destruct Hnew as [Hf Hrest].
    rewrite Hf. apply IH. exact Hrest.
Qed.

Lemma rewrite_events (a : QMLAnalyzer) (sFileName : string) (trace : list Event) :
  (if m_bRewriteFiles a then
     ((if m_bRemoveUnreferencedSymbols a
       then trace ++ [RemoveUnreferencedSymbols sFileName]
       else trace)
      ++ (if openWriteOnly sFileName then [RewriteFile sFileName] else []))%list
   else trace)
  = (trace ++ rewriteEvents openWriteOnly a sFileName)%list.
Proof.
  unfold rewriteEvents. destruct (m_bRewriteFiles a); [|rewrite app_nil_r; reflexivity].
  destruct (m_bRemoveUnreferencedSymbols a); [rewrite <- app_assoc|]; reflexivity.
Qed.




(** A file that is new to the context and on which the parser shows
    a syntax error, the other files being marked as parsed and imports
    not followed, analysed twice: the first analysis ends in the syntax
    error and appends the error object; the second finds the file
    marked as parsed, so nothing is parsed again and the context ends
    in success with a cleared error object; no error is appended this
    time, and the rule engine runs over what the failed parse left in
    the file. *)
Theorem analyzeFile_again_after_syntax_error
        (fuel : nat) (sFileName : string) (a : QMLAnalyzer) :
  m_bIncludeImportsFlag a = false ->
  forallb parsed (m_vFiles (m_pContext a)) = true ->
  existsb (fun f => String.eqb (fileName f) sFileName) (m_vFiles (m_pContext a)) = false ->
  existsb isShowError (actions (yyparse sFileName)) = true ->
  exists a1 a2,
    analyzeFile yyparse exactMatch pathExists openWriteOnly (S fuel) sFileName a = Some a1
    /\ analyzeFile yyparse exactMatch pathExists openWriteOnly (S fuel) sFileName a1 = Some a2
    /\ m_eError (m_pContext a1) = peSyntaxError
    /\ m_vErrors a1 = (m_vErrors a ++ [m_tErrorObject (m_pContext a1)])%list
    /\ m_eError (m_pContext a2) = peSuccess
    /\ m_tErrorObject (m_pContext a2) = clearedError
    /\ m_vErrors a2 = runGrammar exactMatch pathExists (m_xGrammar a) (m_mMacros a)
                                 sFileName (ast (yyparse sFileName)) (m_vErrors a1)
    /\ m_trace a2
       = (m_trace a1 ++ [GrammarRun sFileName] ++ rewriteEvents openWriteOnly a sFileName)%list.
Proof.
  intros Hflag Hparsed Hnew Hreports.
  pose proof (parse_new_file_no_imports fuel sFileName
                (mkContext (m_eError (m_pContext a)) (m_tErrorObject (m_pContext a))
                           (fileByFileName sFileName (m_vFiles (m_pContext a)))
                           (m_bIncludeImportsFlag a))
                (m_vFiles (m_pContext a)) (m_trace a)
                Hflag Hparsed (fileByFileName_absent _ _ Hnew)) as Hfirst.
  cbn zeta in Hfirst.
  destruct (showErrors_keeps sFileName (actions (yyparse sFileName))
              (peSuccess,
               cleared (mkContext (m_eError (m_pContext a)) (m_tErrorObject (m_pContext a))
                                  (fileByFileName sFileName (m_vFiles (m_pContext a)))
                                  (m_bIncludeImportsFlag a))))
    as [_ [_ Hcode]].
  rewrite Hreports in Hcode. rewrite Hcode in Hfirst.
  set (files1 := (m_vFiles (m_pContext a)
                  ++ [mkFile sFileName true (ast (yyparse sFileName))])%list) in *.
  assert (Hall : forallb parsed files1 = true)
    by (subst files1; rewrite forallb_app, Hparsed; reflexivity).
  eexists. eexists.
  split; [unfold analyzeFile; rewrite Hfirst; cbn [EParseError_eqb]; reflexivity|].
  split.
  - unfold analyzeFile.
    cbn [m_pContext m_vFiles m_eError m_tErrorObject m_bIncludeImportsFlag m_trace].
    subst files1. rewrite (fileByFileName_present sFileName) by reflexivity.
    rewrite parse_all_parsed by exact Hall.
    cbn [EParseError_eqb cleared m_vFiles m_eError m_tErrorObject m_bIncludeImports].
    rewrite (fileByFileName_present sFileName) by reflexivity.
    rewrite (findFile_new sFileName _ _ Hnew) by reflexivity.
    cbn [m_xGrammar m_mMacros m_vErrors m_bRewriteFiles m_bRemoveUnreferencedSymbols].
    rewrite rewrite_events. reflexivity.
  - cbn [m_pContext m_eError m_tErrorObject m_vErrors m_trace fileContents].
    repeat split; try reflexivity. rewrite <- app_assoc. reflexivity.
Qed.

End Parser.





Lemma analyzeFile_again_after_syntax_error_witness :
  exists a1 a2,
    analyzeFile failingParser literalMatch noPath opens 1 "Main.qml"
                (startAnalyzer emptyGrammar) = Some a1
    /\ analyzeFile failingParser literalMatch noPath opens 1 "Main.qml" a1 = Some a2
    /\ m_eError (m_pContext a1) = peSyntaxError
    /\ m_vErrors a1 = [m_tErrorObject (m_pContext a1)]
    /\ m_eError (m_pContext a2) = peSuccess
    /\ m_tErrorObject (m_pContext a2) = clearedError
    /\ m_vErrors a2 = m_vErrors a1
    /\ m_trace a2 = (m_trace a1 ++ [GrammarRun "Main.qml"])%list.
Proof.
  apply (analyzeFile_again_after_syntax_error failingParser literalMatch noPath opens 0
           "Main.qml" (startAnalyzer emptyGrammar)); reflexivity.
Defined.

End DriverProperties.

(** ** Further properties: the macro table *)
Module MacroTableProperties.
Import QStr Tree Xml Analyzer Notions StringFacts.

Lemma lookup_insert_same {V} (k : string) (v : V) (m : QMap.t V) :
  QMap.lookup k (QMap.insert k v m) = Some v.
Proof.
  induction m as [|[k' v'] m IH]; cbn [QMap.insert QMap.lookup].
  - rewrite String.eqb_refl. reflexivity.
  - destruct (String.eqb k k') eqn:E.
    + cbn [QMap.lookup]. rewrite String.eqb_refl. reflexivity.
    + destruct (QMap.ltb k k'); cbn [QMap.lookup].
      * rewrite String.eqb_refl. reflexivity.
      * rewrite E. exact IH.
Qed.

Lemma lookup_insert_other {V} (k k2 : string) (v : V) (m : QMap.t V) :
  k2 <> k -> QMap.lookup k2 (QMap.insert k v m) = QMap.lookup k2 m.
Proof.
  intros Hne. apply String.eqb_neq in Hne.
  induction m as [|[k' v'] m IH]; cbn [QMap.insert QMap.lookup].
  - rewrite Hne. reflexivity.
  - destruct (String.eqb k k') eqn:E.
    + apply String.eqb_eq in E. subst k'. cbn [QMap.lookup]. rewrite Hne. reflexivity.
    + destruct (QMap.ltb k k'); cbn [QMap.lookup].
      * rewrite Hne. reflexivity.
      * destruct (String.eqb k2 k'); [reflexivity | exact IH].
Qed.

(** The table built by [parseMacros]: a name has the value of the last
    [Macro] node that carries it, and a name that no [Macro] node carries
    is not in the table. *)
Theorem parseMacros_last_definition_wins (m_xGrammar : CXMLNode) (sName : string) :
  QMap.lookup sName (parseMacros m_xGrammar)
  = option_map (attribute ANALYZER_TOKEN_VALUE)
      (find (fun xMacro => String.eqb sName (attribute ANALYZER_TOKEN_NAME xMacro))
            (rev (getNodesByTagName ANALYZER_TOKEN_MACRO m_xGrammar))).
Proof.
  unfold parseMacros.
  induction (getNodesByTagName ANALYZER_TOKEN_MACRO m_xGrammar) as [|xMacro vMacros IH]
    using rev_ind.
  - reflexivity.
  - rewrite fold_left_app, rev_app_distr. cbn [fold_left rev app find].
    destruct (String.eqb sName (attribute ANALYZER_TOKEN_NAME xMacro)) eqn:E.
    + apply String.eqb_eq in E. subst sName. apply lookup_insert_same.
    + apply String.eqb_neq in E. rewrite (lookup_insert_other _ _ _ _ E). exact IH.
Qed.

Lemma ltb_lt (a b : string) : QMap.ltb a b = true <-> String.compare a b = Lt.
Proof. unfold QMap.ltb. destruct (String.compare a b); split; congruence. Qed.

Lemma not_eq_not_lt_gt (k k' : string) :
  String.eqb k k' = false -> QMap.ltb k k' = false -> QMap.ltb k' k = true.
Proof.
  intros He Hl. apply ltb_lt. rewrite String.compare_antisym.
  unfold QMap.ltb in Hl. destruct (String.compare k k') eqn:C.
  - apply String.compare_eq_iff in C. apply String.eqb_neq in He. contradiction.
  - discriminate.
  - reflexivity.
Qed.

Lemma compare_lt_trans (a b c : string) :
  String.compare a b = Lt -> String.compare b c = Lt -> String.compare a c = Lt.
Proof.
  revert b c. induction a as [|x a IH]; intros [|y b] [|z c]; cbn [String.compare];
    try congruence.
  unfold Ascii.compare.
  destruct (N.compare_spec (N_of_ascii x) (N_of_ascii y)) as [Hxy|Hxy|Hxy];
    destruct (N.compare_spec (N_of_ascii y) (N_of_ascii z)) as [Hyz|Hyz|Hyz];
    try congruence; intros H1 H2.
  - rewrite Hxy, Hyz, N.compare_refl. apply (IH b c H1 H2).
  - rewrite Hxy. apply N.compare_lt_iff in Hyz. rewrite Hyz. reflexivity.
  - rewrite <- Hyz. apply N.compare_lt_iff in Hxy. rewrite Hxy. reflexivity.
  - assert (Hxz : (N_of_ascii x < N_of_ascii z)%N) by lia.
    apply N.compare_lt_iff in Hxz. rewrite Hxz. reflexivity.
Qed.

Lemma compare_lt_irrefl (a : string) : String.compare a a <> Lt.
Proof.
  induction a as [|x a IH]; cbn [String.compare]; [discriminate|].
  unfold Ascii.compare. rewrite N.compare_refl. exact IH.
Qed.

(** Writing into a map keeps its keys in ascending order. *)
Lemma insert_ascending {V} (k : string) (v : V) (m : QMap.t V) :
  ascending (QMap.keys m) = true -> ascending (QMap.keys (QMap.insert k v m)) = true.
Proof.
  induction m as [|[k' v'] m IH]; intros Hm.
  - reflexivity.
  - cbn [QMap.insert]. destruct (String.eqb k k') eqn:E.
    + apply String.eqb_eq in E. subst k'. exact Hm.
    + destruct (QMap.ltb k k') eqn:L.
      * change (QMap.keys ((k, v) :: (k', v') :: m)) with (k :: k' :: QMap.keys m).
        cbn [ascending]. rewrite L. exact Hm.
      * pose proof (not_eq_not_lt_gt k k' E L) as G.
        assert (Hrest : ascending (QMap.keys m) = true).
        { change (QMap.keys ((k', v') :: m)) with (k' :: QMap.keys m) in Hm.
          cbn [ascending] in Hm. destruct (QMap.keys m); [reflexivity|].
          apply andb_true_iff in Hm. apply Hm. }
        specialize (IH Hrest).
        change (QMap.keys ((k', v') :: QMap.insert k v m))
          with (k' :: QMap.keys (QMap.insert k v m)).
        destruct m as [|[k2 v2] m2].
        -- cbn. rewrite G. reflexivity.
        -- cbn [QMap.insert] in IH |- *.
           change (QMap.keys ((k', v') :: (k2, v2) :: m2))
             with (k' :: k2 :: QMap.keys m2) in Hm.
           cbn [ascending] in Hm. apply andb_true_iff in Hm. destruct Hm as [H12 _].
           destruct (String.eqb k k2) eqn:E2.
           ++ apply String.eqb_eq in E2. subst k2.
              change (QMap.keys ((k, v) :: m2)) with (k :: QMap.keys m2) in IH |- *.
              cbn [ascending]. rewrite G. exact IH.
           ++ destruct (QMap.ltb k k2).
              ** change (QMap.keys ((k, v) :: (k2, v2) :: m2))
                   with (k :: k2 :: QMap.keys m2) in IH |- *.
                 cbn [ascending] in IH |- *. rewrite G. exact IH.
              ** change (QMap.keys ((k2, v2) :: QMap.insert k v m2))
                   with (k2 :: QMap.keys (QMap.insert k v m2)) in IH |- *.
                 cbn [ascending] in IH |- *. rewrite H12. exact IH.
Qed.

Lemma ascending_above (k : string) (keys : list string) :
  ascending (k :: keys) = true -> forall k', In k' keys -> QMap.ltb k k' = true.
Proof.
  revert k. induction keys as [|k1 keys IH]; intros k H k' Hin; [contradiction|].
  cbn [ascending] in H. apply andb_true_iff in H. destruct H as [H1 H2].
  destruct Hin as [<- | Hin]; [exact H1|].
  apply ltb_lt. apply (compare_lt_trans k k1 k'); [apply ltb_lt; exact H1|].
  apply ltb_lt. apply (IH k1 H2 k' Hin).
Qed.

Lemma ascending_NoDup (keys : list string) : ascending keys = true -> NoDup keys.
Proof.
  induction keys as [|k keys IH]; intros H; constructor.
  - intros Hin. pose proof (ascending_above k keys H k Hin) as Hlt.
    apply ltb_lt in Hlt. exact (compare_lt_irrefl k Hlt).
  - apply IH. cbn [ascending] in H. destruct keys; [reflexivity|].
    apply andb_true_iff in H. apply H.
Qed.

(** The names of the table built by [parseMacros] are in strictly
    ascending order, so that no name comes twice; [processMacros] tries
    the macros in that order. *)
Theorem parseMacros_keys_ascending (m_xGrammar : CXMLNode) :
  ascending (QMap.keys (parseMacros m_xGrammar)) = true
  /\ NoDup (QMap.keys (parseMacros m_xGrammar)).
Proof.
  assert (H : ascending (QMap.keys (parseMacros m_xGrammar)) = true).
  { unfold parseMacros.
    induction (getNodesByTagName ANALYZER_TOKEN_MACRO m_xGrammar) as [|xMacro vMacros IH]
      using rev_ind.
    - reflexivity.
    - rewrite fold_left_app. cbn [fold_left]. apply insert_ascending. exact IH. }
  split; [exact H | apply ascending_NoDup; exact H].
Qed.

Lemma noDollar_startsWith (p s : string) :
  noDollar s = true -> startsWith (String "$" p) s = false.
Proof.
  destruct s as [|a s]; cbn [noDollar startsWith]; [reflexivity|].
  intros H. apply andb_true_iff in H. destruct H as [Ha _].
  rewrite Ascii.eqb_sym. destruct (Ascii.eqb a "$"); [discriminate | reflexivity].
Qed.

Lemma noDollar_contains (p s : string) :
  noDollar s = true -> contains (String "$" p) s = false.
Proof.
  induction s as [|a s IH]; intros H.
  - reflexivity.
  - cbn [contains]. rewrite (noDollar_startsWith p _ H). cbn [orb].
    apply IH. cbn [noDollar] in H. apply andb_true_iff in H. apply H.
Qed.

(** A text without a dollar sign comes out of the macro expansion as it
    went in, whatever the macro table holds. *)
Theorem processMacros_without_dollar (m_mMacros : QMap.t string) (sText : string) :
  noDollar sText = true -> processMacros m_mMacros sText = sText.
Proof.
  intros H. unfold processMacros. apply MacroProperties.processMacros_absent.
  intros k _. apply (noDollar_contains (k ++ "$") sText H).
Qed.

Lemma processMacros_without_dollar_witness :
  processMacros Samples.twoMacros "No hardcoded colors allowed" = "No hardcoded colors allowed".
Proof.
  apply (processMacros_without_dollar Samples.twoMacros "No hardcoded colors allowed").
  reflexivity.
Defined.

End MacroTableProperties.

(** ** Further properties: rules, conditions and the traversal *)
Module EngineProperties.
Import QStr Tree Xml Analyzer Spec Notions TraversalProperties.

Section Engine.
Variable exactMatch : string -> string -> bool.
Variable pathExists : string -> string -> bool.
Variable m_xGrammar : CXMLNode.
Variable m_mMacros : QMap.t string.

(** Whatever the rule, the node and the invert flag, [runGrammar_Reject]
    either leaves the error list as it is and returns false, or appends
    exactly one diagnostic, made of the file name, the position of the
    node and the expanded text of the rule, and returns true. *)
Theorem runGrammar_Reject_one_diagnostic
        (sFileName sClassName : string) (pEntity : QMLEntity)
        (xRule : CXMLNode) (bInverseLogic : bool) (m_vErrors : list QMLAnalyzerError) :
  let r := runGrammar_Reject exactMatch pathExists m_mMacros sFileName sClassName
                             pEntity xRule bInverseLogic m_vErrors in
  snd r = if fst r
          then (m_vErrors
                ++ [mkError sFileName (position pEntity)
                      (processMacros m_mMacros (attribute ANALYZER_TOKEN_TEXT xRule))])%list
          else m_vErrors.
Proof.
  intros r.
  assert (H : r = (false, m_vErrors)
              \/ r = (true,
                      (m_vErrors
                       ++ [mkError sFileName (position pEntity)
                             (processMacros m_mMacros
                                (attribute ANALYZER_TOKEN_TEXT xRule))])%list)).
  { subst r. unfold runGrammar_Reject, outputError.
    repeat match goal with
           | |- context [if ?c then _ else _] => destruct c
           | |- context [match ?c with Some _ => _ | None => _ end] => destruct c
           end; auto. }
  destruct H as [-> | ->]; reflexivity.
Qed.

(** A rule with [NestedCount] is decided by the nesting count alone:
    the member attributes are not looked at.  As a Reject rule it fires
    exactly when the conditions pass, the allowed count is positive and
    the count of the node is above it; as an Accept rule it fires exactly
    when the conditions pass, the allowed count is zero, negative or not
    a number, and the count of the node is above it. *)
Theorem runGrammar_Reject_nested_count
        (sFileName sClassName : string) (pEntity : QMLEntity)
        (xRule : CXMLNode) (bInverseLogic : bool) (m_vErrors : list QMLAnalyzerError) :
  isEmpty (processMacros m_mMacros (attribute ANALYZER_TOKEN_NESTED_COUNT xRule)) = false ->
  let iNestedCountAllowed :=
    toInt (processMacros m_mMacros (attribute ANALYZER_TOKEN_NESTED_COUNT xRule)) in
  fst (runGrammar_Reject exactMatch pathExists m_mMacros sFileName sClassName
                         pEntity xRule bInverseLogic m_vErrors)
  = runGrammar_SatisfiesConditions sFileName sClassName pEntity xRule
    && (if bInverseLogic then iNestedCountAllowed <=? 0 else 0 <? iNestedCountAllowed)
    && (iNestedCountAllowed <? runGrammar_CountNested sClassName pEntity).
Proof.
  intros Hn n. subst n. unfold runGrammar_Reject. rewrite Hn. cbn [negb].
  set (n := toInt _).
  destruct (runGrammar_SatisfiesConditions _ _ _ _); cbn [andb]; [|reflexivity].
  rewrite Z.gtb_ltb. rewrite (Z.gtb_ltb (runGrammar_CountNested _ _)).
  destruct bInverseLogic; rewrite ?Z.leb_antisym; destruct (0 <? n); cbn [xorb negb andb];
    try reflexivity; destruct (n <? _); reflexivity.
Qed.

(** [runGrammar_CountNested], one level unfolded. *)
Lemma runGrammar_CountNested_unfold (sClassName : string) (pEntity : QMLEntity) :
  runGrammar_CountNested sClassName pEntity
  = fold_left (countStep sClassName) (subNodes pEntity) 0
    + (if String.eqb (className pEntity) sClassName then 1 else 0).
Proof.
  destruct pEntity as [cls text pos ty mem cont up us].
  cbn [runGrammar_CountNested]. unfold subNodes. cbn [members contents className].
  rewrite fold_left_app.
  assert (Hmem : forall l n,
             (fix overMembers (l : list (string * option QMLEntity)) (iCount : Z) {struct l} : Z :=
                match l with
                | [] => iCount
                | (_, None) :: l' => overMembers l' iCount
                | (_, Some m) :: l' =>
                    overMembers l'
                      (if runGrammar_CountNested sClassName m >? iCount
                       then runGrammar_CountNested sClassName m else iCount)
                end) l n
             = fold_left (countStep sClassName) (map snd l) n).
  { induction l as [|[k [m|]] l IHl]; intros n; cbn [map snd fold_left countStep];
      [reflexivity | apply IHl | apply IHl]. }
  rewrite Hmem.
  destruct cont as [children|]; cbn [fold_left].
  - assert (Hcont : forall l n,
               (fix overContents (l : list (option QMLEntity)) (iCount : Z) {struct l} : Z :=
                  match l with
                  | [] => iCount
                  | None :: l' => overContents l' iCount
                  | Some c :: l' =>
                      overContents l'
                        (if runGrammar_CountNested sClassName c >? iCount
                         then runGrammar_CountNested sClassName c else iCount)
                  end) l n
               = fold_left (countStep sClassName) l n).
    { induction l as [|[c|] l IHl]; intros n; cbn [fold_left countStep];
        [reflexivity | apply IHl | apply IHl]. }
    rewrite Hcont. destruct (String.eqb cls sClassName); lia.
  - destruct (String.eqb cls sClassName); lia.
Qed.

Lemma countStep_fold_bounds (sClassName : string) (l : list (option QMLEntity)) (n : Z) :
  n <= fold_left (countStep sClassName) l n
  /\ forall c, In (Some c) l ->
               runGrammar_CountNested sClassName c <= fold_left (countStep sClassName) l n.
Proof.
  revert n. induction l as [|[e|] l IH]; intros n; cbn [fold_left countStep].
  - split; [lia | intros c []].
  - destruct (IH (if runGrammar_CountNested sClassName e >? n
                  then runGrammar_CountNested sClassName e else n)) as [H1 H2].
    assert (Hmax : n <= (if runGrammar_CountNested sClassName e >? n
                         then runGrammar_CountNested sClassName e else n)
                   /\ runGrammar_CountNested sClassName e
                      <= (if runGrammar_CountNested sClassName e >? n
                          then runGrammar_CountNested sClassName e else n)).
    { destruct (runGrammar_CountNested sClassName e >? n) eqn:G;
        [apply Z.gtb_lt in G | rewrite Z.gtb_ltb in G; apply Z.ltb_ge in G]; lia. }
    split; [lia|]. intros c [Heq | Hin].
    + injection Heq as <-. lia.
    + apply H2. exact Hin.
  - destruct (IH n) as [H1 H2]. split; [exact H1|].
    intros c [Heq | Hin]; [discriminate | apply H2; exact Hin].
Qed.

(** The nesting count of a node is never negative and never below the
    count of one of its members or children; when the node is of the
    class counted it is at least 1 and strictly above the count of every
    member and child. *)
Theorem runGrammar_CountNested_grows (sClassName : string) (pEntity : QMLEntity) :
  0 <= runGrammar_CountNested sClassName pEntity
  /\ Forall (fun c => match c with
                      | Some e => runGrammar_CountNested sClassName e
                                  + (if String.eqb (className pEntity) sClassName then 1 else 0)
                                  <= runGrammar_CountNested sClassName pEntity
                      | None => True
                      end) (subNodes pEntity)
  /\ (if String.eqb (className pEntity) sClassName then 1 else 0)
     <= runGrammar_CountNested sClassName pEntity.
Proof.
  rewrite runGrammar_CountNested_unfold.
  destruct (countStep_fold_bounds sClassName (subNodes pEntity) 0) as [H0 Hsub].
  assert (Hb : 0 <= (if String.eqb (className pEntity) sClassName then 1 else 0))
    by (destruct (String.eqb _ _); lia).
  split; [lia|]. split; [|lia].
  apply Forall_forall. intros [e|] Hin; [|exact I].
  specialize (Hsub e Hin). lia.
Qed.

(** Items nested one inside the other, [depth] times below the first:
    the count of the class of items at the outermost one is [depth + 1]. *)
Theorem runGrammar_CountNested_nestedItems (depth : nat) :
  runGrammar_CountNested "QMLItem" (nestedItems depth) = Z.of_nat depth + 1.
Proof.
  induction depth as [|d IH].
  - reflexivity.
  - rewrite runGrammar_CountNested_unfold.
    cbn [nestedItems subNodes members contents className map app fold_left countStep].
    rewrite IH. cbn [String.eqb Ascii.eqb Bool.eqb andb].
    replace (Z.of_nat d + 1 >? 0) with true by (symmetry; apply Z.gtb_lt; lia).
    lia.
Qed.

(** *** Conditions *)

(** A condition that names a member the node does not have, other than
    the file name, passes, unless it carries an [Empty] attribute that is
    not true: a missing member is taken as empty, and [Value] and
    [Negate] are not looked at. *)
Theorem satisfiesCondition_missing_member
        (sFileName : string) (pEntity : QMLEntity) (xCondition : CXMLNode) :
  member (toLower (attribute ANALYZER_TOKEN_MEMBER xCondition)) pEntity = None ->
  toLower (attribute ANALYZER_TOKEN_MEMBER xCondition) <> ANALYZER_TOKEN_FILE_NAME ->
  satisfiesCondition sFileName pEntity xCondition
  = isEmpty (toLower (attribute ANALYZER_TOKEN_EMPTY xCondition))
    || String.eqb (toLower (attribute ANALYZER_TOKEN_EMPTY xCondition)) ANALYZER_TOKEN_TRUE.
Proof.
  intros Hm Hf. apply String.eqb_neq in Hf.
  unfold satisfiesCondition. rewrite Hm, Hf.
  destruct (isEmpty (toLower (attribute ANALYZER_TOKEN_EMPTY xCondition))); cbn [negb orb];
    [reflexivity|].
  destruct (String.eqb _ ANALYZER_TOKEN_TRUE); reflexivity.
Qed.

(** A condition on the file name, on a node without a member of that
    name: with the operation [Contains] it tests that the file name
    contains the value, otherwise that it equals the value, and [Negate]
    set to true inverts the test. *)
Theorem satisfiesCondition_file_name
        (sFileName : string) (pEntity : QMLEntity) (xCondition : CXMLNode) :
  member (toLower (attribute ANALYZER_TOKEN_MEMBER xCondition)) pEntity = None ->
  toLower (attribute ANALYZER_TOKEN_MEMBER xCondition) = ANALYZER_TOKEN_FILE_NAME ->
  satisfiesCondition sFileName pEntity xCondition
  = xorb (if String.eqb (attribute ANALYZER_TOKEN_OPERATION xCondition) ANALYZER_TOKEN_CONTAINS
          then contains (attribute ANALYZER_TOKEN_VALUE xCondition) sFileName
          else String.eqb sFileName (attribute ANALYZER_TOKEN_VALUE xCondition))
         (String.eqb (toLower (attribute ANALYZER_TOKEN_NEGATE xCondition)) ANALYZER_TOKEN_TRUE).
Proof.
  intros Hm Hf. unfold satisfiesCondition. rewrite Hm, Hf. cbn [String.eqb Ascii.eqb Bool.eqb andb].
  rewrite String.eqb_refl.
  destruct (String.eqb (attribute ANALYZER_TOKEN_OPERATION xCondition) ANALYZER_TOKEN_CONTAINS);
    [destruct (contains _ _) | destruct (String.eqb sFileName _)];
    destruct (String.eqb (toLower _) ANALYZER_TOKEN_TRUE); reflexivity.
Qed.

(** *** The traversal *)

(** [runGrammar] only ever appends: the diagnostics that were in the
    list stay in it, first and in their order, and what is appended does
    not depend on them. *)
Theorem runGrammar_appends (sFileName : string) (fileContents : list (option QMLEntity))
        (m_vErrors : list QMLAnalyzerError) :
  runGrammar exactMatch pathExists m_xGrammar m_mMacros sFileName fileContents m_vErrors
  = (m_vErrors
     ++ runGrammar exactMatch pathExists m_xGrammar m_mMacros sFileName fileContents [])%list.
Proof.
  unfold runGrammar.
  rewrite (subNodes_fold_appends exactMatch pathExists m_xGrammar m_mMacros sFileName
             fileContents) by (intros c _; apply runGrammar_Recurse_appends).
  rewrite (subNodes_fold_appends exactMatch pathExists m_xGrammar m_mMacros sFileName
             fileContents (fun c _ => runGrammar_Recurse_appends _ _ _ _ sFileName c) []).
  reflexivity.
Qed.

Lemma outputUnreferenced_file (sFileName sText : string) (unused : list (string * QPoint))
      (m_vErrors : list QMLAnalyzerError) :
  Forall (fun e => m_sFileName e = sFileName) m_vErrors ->
  Forall (fun e => m_sFileName e = sFileName)
         (outputUnreferenced sFileName sText unused m_vErrors).
Proof.
  unfold outputUnreferenced, outputError. revert m_vErrors.
  induction unused as [|kv unused IH]; intros m_vErrors H; cbn [fold_left]; [exact H|].
  apply IH. apply Forall_app. split; [exact H | repeat constructor].
Qed.

Lemma flat_map_Forall {A B} (P : B -> Prop) (f : A -> list B) (l : list A) :
  (forall a, In a l -> Forall P (f a)) -> Forall P (flat_map f l).
Proof.
  induction l as [|a l IH]; intros H; cbn [flat_map]; [constructor|].
  apply Forall_app. split; [apply H; left; reflexivity|].
  apply IH. intros a' Ha'. apply H. right. exact Ha'.
Qed.

Lemma ruleDiagnostics_file (sFileName sClassName : string) (pEntity : QMLEntity)
      (bInverseLogic : bool) (xRule : CXMLNode) :
  Forall (fun e => m_sFileName e = sFileName /\ m_pPosition e = position pEntity)
         (ruleDiagnostics exactMatch pathExists m_mMacros sFileName sClassName pEntity
                          bInverseLogic xRule).
Proof.
  unfold ruleDiagnostics.
  pose proof (runGrammar_Reject_one_diagnostic sFileName sClassName pEntity xRule
                bInverseLogic []) as H.
  cbn zeta in H. rewrite H.
  destruct (fst _); [repeat constructor | constructor].
Qed.

(** Every diagnostic of the rule engine carries the name of the file
    under analysis. *)
Theorem runGrammar_file_name (sFileName : string) (fileContents : list (option QMLEntity)) :
  Forall (fun e => m_sFileName e = sFileName)
         (runGrammar exactMatch pathExists m_xGrammar m_mMacros sFileName fileContents []).
Proof.
  assert (Hnode : forall e,
             Forall (fun d => m_sFileName d = sFileName)
                    (runGrammar_Recurse exactMatch pathExists m_xGrammar m_mMacros
                                        sFileName e [])).
  { induction e as [e IH] using QMLEntity_subNodes_ind.
    rewrite (runGrammar_Recurse_level exactMatch pathExists m_xGrammar m_mMacros sFileName e
               (fun c _ => runGrammar_Recurse_appends _ _ _ _ sFileName c) []).
    cbn [app]. repeat (apply Forall_app; split).
    - unfold symbolUsage.
      destruct (unusedProperties e); destruct (unusedSymbols e) as [[vars params]|];
        repeat apply outputUnreferenced_file; constructor.
    - unfold nodeDiagnostics. apply flat_map_Forall. intros xCheck _.
      unfold checkDiagnostics. destruct (checkMatches e xCheck); [|constructor].
      apply Forall_app. split; apply flat_map_Forall; intros xRule _;
        (eapply Forall_impl; [|apply ruleDiagnostics_file]); cbn beta; tauto.
    - destruct (nodeFires _ _ _ _ _ _); [constructor|].
      apply flat_map_Forall. intros [c|] Hin; cbn [runGrammar_Recurse_ptr];
        [apply IH; exact Hin | constructor]. }
  unfold runGrammar.
  rewrite (subNodes_fold_appends exactMatch pathExists m_xGrammar m_mMacros sFileName
             fileContents (fun c _ => runGrammar_Recurse_appends _ _ _ _ sFileName c) []).
  cbn [app]. apply flat_map_Forall. intros [c|] _; cbn [runGrammar_Recurse_ptr];
    [apply Hnode | constructor].
Qed.

End Engine.

Lemma runGrammar_Reject_nested_count_witness :
  fst (runGrammar_Reject Samples.literalMatch Samples.noPath Samples.twoMacros "Main.qml" "QMLItem"
                         (nestedItems 3) rejectNested false [])
  = runGrammar_SatisfiesConditions "Main.qml" "QMLItem" (nestedItems 3) rejectNested
    && (0 <? toInt (processMacros Samples.twoMacros (attribute ANALYZER_TOKEN_NESTED_COUNT rejectNested)))
    && (toInt (processMacros Samples.twoMacros (attribute ANALYZER_TOKEN_NESTED_COUNT rejectNested))
        <? runGrammar_CountNested "QMLItem" (nestedItems 3)).
Proof.
  apply (runGrammar_Reject_nested_count Samples.literalMatch Samples.noPath Samples.twoMacros
           "Main.qml" "QMLItem" (nestedItems 3)
           rejectNested false []).
  rewrite MacroTableProperties.processMacros_without_dollar; reflexivity.
Defined.


Lemma satisfiesCondition_missing_member_witness :
  satisfiesCondition "Main.qml" Samples.abcAssignment conditionOnMissingMember = true.
Proof.
  apply (satisfiesCondition_missing_member "Main.qml" Samples.abcAssignment
           conditionOnMissingMember).
  - reflexivity.
  - discriminate.
Defined.

Lemma satisfiesCondition_file_name_witness :
  satisfiesCondition "tests/Main.qml" Samples.abcAssignment conditionOnFileName = true.
Proof.
  apply (satisfiesCondition_file_name "tests/Main.qml" Samples.abcAssignment
           conditionOnFileName); reflexivity.
Defined.

End EngineProperties.

(** ** Further properties: the files of the context and their analysis *)
Module ContextProperties.
Import QStr Tree Xml Analyzer Driver.

(** [fileByFileName] keeps the files that are there, in their order, and
    has the file afterwards; asking twice adds nothing more. *)
Theorem fileByFileName_adds_once (sFileName : string) (files : list QMLFile) :
  firstn (List.length files) (fileByFileName sFileName files) = files
  /\ existsb (fun f => String.eqb (fileName f) sFileName) (fileByFileName sFileName files) = true
  /\ fileByFileName sFileName (fileByFileName sFileName files) = fileByFileName sFileName files.
Proof.
  assert (Hhas : existsb (fun f => String.eqb (fileName f) sFileName)
                         (fileByFileName sFileName files) = true).
  { unfold fileByFileName.
    destruct (existsb (fun f => String.eqb (fileName f) sFileName) files) eqn:E; [exact E|].
    rewrite existsb_app. cbn. rewrite String.eqb_refl, orb_true_r. reflexivity. }
  split; [|split; [exact Hhas|]].
  - unfold fileByFileName. destruct (existsb _ files).
    + apply firstn_all.
    + rewrite firstn_app, Nat.sub_diag, firstn_all. cbn [firstn]. apply app_nil_r.
  - unfold fileByFileName at 1. rewrite Hhas. reflexivity.
Qed.

End ContextProperties.

(** ** Further properties: the character reader *)
Module ReaderProperties.
Import QStr Lexer Notions.

(** Reading an ASCII character and putting it back: for any character
    but the line feed the scope is exactly as before; for a line feed
    the line is as before and the column is left at 1024; and at the
    end of the stream, where nothing was read, putting [EOF] back still
    moves the stream one character back. *)
Theorem getChar_then_ungetChar (s : QMLScope) :
  match String.get (m_iPos s) (m_sStream s) with
  | Some a =>
      isAscii a = true ->
      fst (getChar s) = ch a
      /\ ungetChar (ch a) (snd (getChar s))
         = (if ch a =? 10 then setLineColumn (m_iLine s) 1024 s else s)
  | None =>
      getChar s = (EOF, s)
      /\ m_iPos (ungetChar EOF s) = Nat.pred (m_iPos s)
  end.
Proof.
  destruct s as [stream pos line col pl pc lvl fl hx tok].
  unfold getChar. cbn [m_iPos m_sStream].
  destruct (String.get pos stream) as [a|]; [intros _|split; reflexivity].
  split; [reflexivity|]. cbn [snd]. unfold ungetChar.
  generalize (ch a) as c. intros c.
  destruct (c =? 10); [|destruct (c =? 9); [|destruct (c =? 13)]];
    unfold setLineColumn, setPos; cbn; f_equal; lia.
Qed.

Lemma getChar_then_ungetChar_witness :
  fst (getChar (setPos 5 (openScope "Item {}"))) = ch "{"
  /\ ungetChar (ch "{") (snd (getChar (setPos 5 (openScope "Item {}"))))
     = setPos 5 (openScope "Item {}").
Proof.
  exact (getChar_then_ungetChar (setPos 5 (openScope "Item {}")) eq_refl).
Defined.

End ReaderProperties.

(** ** Further properties: tokens *)
Module TokenProperties.
Import QStr Lexer Spec Notions LexerProperties.

Lemma append_empty (s : string) : s ++ EmptyString = s.
Proof. induction s as [|a s IH]; cbn [append]; [reflexivity | rewrite IH; reflexivity]. Qed.

Lemma append_associative (a b c : string) : (a ++ b) ++ c = a ++ (b ++ c).
Proof. induction a as [|x a IH]; cbn [append]; [reflexivity | rewrite IH; reflexivity]. Qed.

Lemma length_append (a b : string) :
  String.length (a ++ b) = (String.length a + String.length b)%nat.
Proof. induction a as [|x a IH]; cbn [append String.length]; [reflexivity | rewrite IH; reflexivity]. Qed.

Lemma ch_range (a : ascii) : 0 <= ch a < 256.
Proof.
  unfold ch. pose proof (N_ascii_bounded a) as H. lia.
Qed.

Lemma ch_injective (a b : ascii) : ch a = ch b -> a = b.
Proof.
  unfold ch. intros H. apply N2Z.inj in H.
  rewrite <- (ascii_N_embedding a), <- (ascii_N_embedding b), H. reflexivity.
Qed.

Lemma qchar_ch (a : ascii) : qchar (ch a) = a.
Proof. unfold qchar, ch. rewrite N2Z.id. apply ascii_N_embedding. Qed.

Lemma ch_eqb (a b : ascii) : (ch a =? ch b) = Ascii.eqb a b.
Proof.
  destruct (Ascii.eqb a b) eqn:E.
  - apply Ascii.eqb_eq in E. subst b. apply Z.eqb_refl.
  - apply Z.eqb_neq. intros H. apply ch_injective in H. apply Ascii.eqb_neq in E. contradiction.
Qed.

Lemma get_at (done : string) (a : ascii) (rest : string) :
  String.get (String.length done) (done ++ String a rest) = Some a.
Proof. induction done as [|x done IH]; cbn; [reflexivity | exact IH]. Qed.

Lemma get_end (done : string) : String.get (String.length done) done = None.
Proof. induction done as [|x done IH]; cbn; [reflexivity | exact IH]. Qed.

(** [getChar] in the middle of the stream and at its end. *)
Lemma getChar_at (s : QMLScope) (done : string) (a : ascii) (rest : string) :
  m_sStream s = done ++ String a rest -> m_iPos s = String.length done ->
  fst (getChar s) = ch a
  /\ m_iPos (snd (getChar s)) = S (String.length done)
  /\ sameText s (snd (getChar s)).
Proof.
  intros Hs Hp. unfold getChar. rewrite Hs, Hp, get_at. cbn [fst snd].
  split; [reflexivity|].
  destruct (ch a =? 10); [|destruct (ch a =? 9); [|destruct (ch a =? 13)]];
    cbn; rewrite ?Hp; repeat split; reflexivity.
Qed.

Lemma getChar_end (s : QMLScope) :
  m_iPos s = String.length (m_sStream s) -> getChar s = (EOF, s).
Proof. intros Hp. unfold getChar. rewrite Hp, get_end. reflexivity. Qed.

Lemma ungetChar_sameText (c : Z) (s : QMLScope) :
  m_iPos (ungetChar c s) = Nat.pred (m_iPos s) /\ sameText s (ungetChar c s).
Proof.
  unfold ungetChar. destruct (c =? 10); [|destruct (c =? 9); [|destruct (c =? 13)]];
    cbn; repeat split; reflexivity.
Qed.

(** *** String literals *)

Lemma literal_loop_plain (quote : ascii) (body : string) :
  forall (fuel : nat) (done tail : string) (s : QMLScope),
    m_sStream s = done ++ body ++ tail ->
    m_iPos s = String.length done ->
    allChars (isPlainIn quote) body = true ->
    tail = EmptyString \/ (exists rest, tail = String quote rest) ->
    (String.length body < fuel)%nat ->
    exists s', literal_loop fuel (ch quote) s = Some (negb (isEmpty tail), s')
               /\ m_pCurrentTokenValue s' = m_pCurrentTokenValue s ++ body.
Proof.
  induction body as [|a body IH]; intros fuel done tail s Hs Hp Hplain Htail Hfuel;
    (destruct fuel as [|fuel]; [cbn in Hfuel; lia|]); cbn [literal_loop]; unfold bind, GET.
  - cbn [append] in Hs. destruct Htail as [-> | [rest ->]].
    + rewrite append_empty in Hs. rewrite getChar_end by (rewrite Hp, Hs; reflexivity).
      cbn. exists s. rewrite append_empty. split; reflexivity.
    + destruct (getChar_at s done quote rest Hs Hp) as [Hc [_ Hsame]].
      destruct (getChar s) as [c s1]. cbn [fst snd] in Hc, Hsame. subst c.
      replace (ch quote =? EOF) with false
        by (symmetry; apply Z.eqb_neq; pose proof (ch_range quote); unfold EOF; lia).
      rewrite Z.eqb_refl. cbn. exists s1. rewrite append_empty.
      split; [reflexivity | apply Hsame].
  - cbn [append] in Hs. cbn [allChars] in Hplain.
    apply andb_true_iff in Hplain. destruct Hplain as [Ha Hplain].
    unfold isPlainIn in Ha. rewrite !andb_true_iff in Ha. destruct Ha as [[_ Hq] Hb].
    destruct (getChar_at s done a (body ++ tail) Hs Hp) as [Hc [Hp1 Hsame]].
    destruct (getChar s) as [c s1]. cbn [fst snd] in Hc, Hp1, Hsame. subst c.
    replace (ch a =? EOF) with false
      by (symmetry; apply Z.eqb_neq; pose proof (ch_range a); unfold EOF; lia).
    rewrite !ch_eqb.
    destruct (Ascii.eqb a quote); [discriminate|].
    destruct (Ascii.eqb a "\"); [discriminate|].
    unfold ret, STORE. rewrite qchar_ch.
    destruct Hsame as [Hst [Htok _]].
    destruct (IH fuel (done ++ String a EmptyString) tail
                 (setTokenValue (m_pCurrentTokenValue s1 ++ String a EmptyString) s1))
      as [s' [Hloop Htok']].
    + cbn. rewrite Hst, Hs, append_associative. reflexivity.
    + cbn. rewrite Hp1, length_append. cbn. lia.
    + exact Hplain.
    + exact Htail.
    + cbn in Hfuel. lia.
    + exists s'. split; [exact Hloop|].
      rewrite Htok'. cbn. rewrite Htok, append_associative. reflexivity.
Qed.





(** *** White space *)

Lemma get_some_lt (n : nat) (s : string) (a : ascii) :
  String.get n s = Some a -> (n < String.length s)%nat.
Proof.
  revert n. induction s as [|x s IH]; intros n H; [destruct n; discriminate|].
  destruct n as [|n]; cbn [String.length]; [lia|]. cbn [String.get] in H.
  apply IH in H. lia.
Qed.

Lemma skip_loop_white (n : nat) :
  forall (fuel : nat) (s : QMLScope),
    (remaining s <= n)%nat -> (n < fuel)%nat ->
    restWhite s -> m_iCommentLevel s = 0 ->
    exists s', skip_loop fuel s = Some (false, s').
Proof.
  induction n as [|n IH]; intros fuel s Hrem Hfuel Hw Hlevel;
    (destruct fuel as [|fuel]; [lia|]); cbn [skip_loop]; unfold bind, GET;
    pose proof (getChar_restWhite s Hw) as [Hc Hw1];
    unfold getChar in *;
    destruct (String.get (m_iPos s) (m_sStream s)) as [a|] eqn:Eget;
    try (cbn; exists s; reflexivity).
  - apply get_some_lt in Eget. unfold remaining in Hrem. lia.
  - cbn [fst snd] in Hc, Hw1.
    set (s1 := if ch a =? 10 then _ else _) in *.
    assert (Hs1 : m_sStream s1 = m_sStream s /\ m_iPos s1 = S (m_iPos s)
                  /\ m_iCommentLevel s1 = m_iCommentLevel s).
    { subst s1. destruct (ch a =? 10); [|destruct (ch a =? 9); [|destruct (ch a =? 13)]];
        repeat split; reflexivity. }
    destruct Hs1 as [Hst [Hpos Hlvl]]. clearbody s1.
    replace (ch a =? EOF) with false
      by (symmetry; apply Z.eqb_neq; pose proof (ch_range a); unfold EOF; lia).
    unfold reads. rewrite Hlvl, Hlevel. cbn [Z.gtb Z.compare].
    replace (ch a =? ch "/") with false by (symmetry; apply Z.eqb_neq; cbn; lia).
    replace (ch a >? ch " ") with false
      by (symmetry; rewrite Z.gtb_ltb; apply Z.ltb_ge; cbn; lia).
    apply (IH fuel s1).
    + apply get_some_lt in Eget. unfold remaining in *. rewrite Hst, Hpos. lia.
    + lia.
    + exact Hw1.
    + rewrite Hlvl. exact Hlevel.
Qed.

(** A text of white space only, the empty text included: the call
    returns 0, the end of the stream. *)
Theorem white_space_only_is_end_of_stream (text : string) (extra : nat) :
  allWhite text = true ->
  firstToken (1 + String.length text + extra) text = Some (0, LNone).
Proof.
  intros Hw. apply firstToken_enough.
  unfold firstToken, parseNextToken, bind, update. cbn [Nat.add].
  set (s0 := setParsingHexa false _).
  destruct (skip_loop_white (String.length text) (S (String.length text)) s0) as [s' Hs'].
  - unfold remaining. cbn. lia.
  - lia.
  - intros n a _ Hget. cbn in Hget. apply (allWhite_get text Hw n a Hget).
  - reflexivity.
  - rewrite Hs'. reflexivity.
Qed.

Lemma white_space_only_is_end_of_stream_witness :
  firstToken 4 "   " = Some (0, LNone).
Proof. apply (white_space_only_is_end_of_stream "   " 0). reflexivity. Defined.

(** *** The start of a token *)

Lemma isdigit_range (c : Z) : isdigit c = true <-> 48 <= c <= 57.
Proof. unfold isdigit. rewrite andb_true_iff, !Z.leb_le. reflexivity. Qed.

Lemma isalpha_range (c : Z) :
  isalpha c = true <-> 65 <= c <= 90 \/ 97 <= c <= 122.
Proof. unfold isalpha. rewrite orb_true_iff, !andb_true_iff, !Z.leb_le. reflexivity. Qed.

Lemma isIdentStart_range (a : ascii) :
  isIdentStart a = true ->
  65 <= ch a <= 90 \/ 97 <= ch a <= 122 \/ ch a = 95 \/ ch a = 36.
Proof.
  unfold isIdentStart. rewrite !orb_true_iff, isalpha_range, !Z.eqb_eq.
  cbn. lia.
Qed.

Lemma sameText_trans (s1 s2 s3 : QMLScope) :
  sameText s1 s2 -> sameText s2 s3 -> sameText s1 s3.
Proof.
  unfold sameText. intros [A1 [A2 [A3 [A4 A5]]]] [B1 [B2 [B3 [B4 B5]]]].
  repeat split; congruence.
Qed.

Lemma skip_loop_stops (fuel : nat) (s : QMLScope) (done : string) (a : ascii) (rest : string) :
  m_sStream s = done ++ String a rest -> m_iPos s = String.length done ->
  m_iCommentLevel s = 0 -> 32 < ch a -> ch a <> 47 ->
  exists s1, skip_loop (S fuel) s = Some (true, s1)
             /\ m_iPos s1 = String.length done /\ sameText s s1.
Proof.
  intros Hs Hp Hlevel Hgt Hne. cbn [skip_loop]. unfold bind, GET.
  destruct (getChar_at s done a rest Hs Hp) as [Hc [Hp1 Hsame]].
  destruct (getChar s) as [c s0]. cbn [fst snd] in Hc, Hp1, Hsame. subst c.
  replace (ch a =? EOF) with false by (symmetry; apply Z.eqb_neq; unfold EOF; lia).
  unfold reads. destruct Hsame as [Hst [Htok [Hlvl [Hfl Hhx]]]].
  rewrite Hlvl, Hlevel. cbn [Z.gtb Z.compare].
  replace (ch a =? ch "/") with false by (symmetry; apply Z.eqb_neq; cbn; lia).
  replace (ch a >? ch " ") with true
    by (symmetry; rewrite Z.gtb_ltb; apply Z.ltb_lt; cbn; lia).
  unfold UNGET, ret.
  destruct (ungetChar_sameText (ch a) s0) as [Hp2 Hsame2].
  eexists. split; [reflexivity|]. split.
  - rewrite Hp2, Hp1. reflexivity.
  - apply (sameText_trans s s0); [repeat split; assumption | exact Hsame2].
Qed.

(** The first steps of [parseNextToken] when the next character is
    black and no slash: the four fields are reset, the first loop stops
    at once, and the character is read; the scope then holds an empty
    token text and both number flags down. *)
Lemma token_start (s : QMLScope) (done : string) (a : ascii) (rest : string) (fuel : nat) :
  m_sStream s = done ++ String a rest -> m_iPos s = String.length done ->
  32 < ch a -> ch a <> 47 ->
  exists s1 s3,
    skip_loop (S fuel)
      (setParsingHexa false (setParsingFloat false (setCommentLevel 0 (setTokenValue "" s))))
    = Some (true, s1)
    /\ GET (setPrevious (m_iLine s1) (m_iColumn s1) s1) = Some (ch a, s3)
    /\ m_sStream s3 = m_sStream s
    /\ m_iPos s3 = S (String.length done)
    /\ m_pCurrentTokenValue s3 = EmptyString
    /\ m_bParsingFloat s3 = false
    /\ m_bParsingHexa s3 = false.
Proof.
  intros Hs Hp Hgt Hne.
  destruct (skip_loop_stops fuel
              (setParsingHexa false
                 (setParsingFloat false (setCommentLevel 0 (setTokenValue "" s))))
              done a rest Hs Hp eq_refl Hgt Hne)
    as [s1 [Hskip [Hp1 [Hst [Htok [_ [Hfl Hhx]]]]]]].
  cbn in Hst, Htok, Hfl, Hhx.
  exists s1. unfold GET.
  set (s2 := setPrevious _ _ s1).
  assert (Hs2 : m_sStream s2 = done ++ String a rest) by (cbn; congruence).
  destruct (getChar_at s2 done a rest Hs2 Hp1) as [Hc [Hp3 [Hst3 [Htok3 [_ [Hfl3 Hhx3]]]]]].
  destruct (getChar s2) as [c s3]. cbn [fst snd] in *. subst c.
  exists s3. cbn in Hst3, Htok3, Hfl3, Hhx3.
  repeat split; congruence.
Qed.

Ltac start_token Hs Hp Hgt Hne s3 Hst Hpos Htok Hfl Hhx :=
  unfold parseNextToken, bind, update; cbn beta iota;
  let s1 := fresh "s1" in
  let Hskip := fresh "Hskip" in
  let Hget := fresh "Hget" in
  match goal with
  | |- context [skip_loop (S ?fuel) _] =>
      destruct (token_start _ _ _ _ fuel Hs Hp Hgt Hne)
        as [s1 [s3 [Hskip [Hget [Hst [Hpos [Htok [Hfl Hhx]]]]]]]];
      rewrite Hskip; cbn [negb]; cbn beta iota;
      rewrite Hget; cbn beta iota;
      clear Hskip Hget; clear s1
  end.

(** The tests of the first character against the fixed characters. *)
Ltac decide_tests c :=
  repeat match goal with
  | |- context [c =? ?k] =>
      first [ replace (c =? k) with false by (symmetry; apply Z.eqb_neq; unfold EOF; cbn; lia)
            | replace (c =? k) with true by (symmetry; apply Z.eqb_eq; unfold EOF; cbn; lia) ]
  end.

(** *** String literals left open *)

(** A string literal of ASCII characters without escapes that the
    stream ends before closing, read from any place of the stream: the
    call returns 0, the end of the stream, and the parser value is the
    one it was given; no error is shown. *)
Theorem string_literal_unterminated (s : QMLScope) (done : string) (quote : ascii)
        (body : string) (LVAL : UParserValue) (extra : nat) :
  m_sStream s = done ++ String quote body ->
  m_iPos s = String.length done ->
  quote = dquote \/ quote = "'"%char ->
  allChars (isPlainIn quote) body = true ->
  exists s', parseNextToken (2 + String.length body + extra) LVAL s = Some ((0, LVAL), s').
Proof.
  intros Hs Hp Hq Hplain.
  assert (Hgt : 32 < ch quote) by (destruct Hq as [-> | ->]; cbn; lia).
  assert (Hne : ch quote <> 47) by (destruct Hq as [-> | ->]; cbn; lia).
  assert (Htest : (ch quote =? ch dquote) || (ch quote =? ch "'") = true)
    by (destruct Hq as [-> | ->]; reflexivity).
  assert (Hc : ch quote = 34 \/ ch quote = 39) by (destruct Hq as [-> | ->]; [left | right]; reflexivity).
  assert (Hsome : exists s',
             parseNextToken (2 + String.length body) LVAL s = Some ((0, LVAL), s')).
  { cbn [Nat.add]. rewrite <- (append_empty body) in Hs.
    start_token Hs Hp Hgt Hne s3 Hst Hpos Htok Hfl Hhx.
    rewrite Htest.
    remember (ch quote) as c eqn:Ec.
    decide_tests c. subst c. cbn beta iota.
    rewrite append_empty in Hs.
    destruct (literal_loop_plain quote body (S (S (String.length body)))
                (done ++ String quote EmptyString) EmptyString s3)
      as [s' [Hloop Htok']].
    - rewrite Hst, Hs, append_empty, append_associative. reflexivity.
    - rewrite Hpos, length_append. cbn. lia.
    - exact Hplain.
    - left. reflexivity.
    - lia.
    - rewrite Hloop. cbn [isEmpty negb]. exists s'. reflexivity. }
  destruct Hsome as [s' Htoken]. exists s'. apply parseNextToken_enough. exact Htoken.
Qed.

Lemma string_literal_unterminated_witness :
  exists s',
    parseNextToken 10 (LInteger 7) (setPos 7 (openScope "color: '#FF0000")) 
    = Some ((0, LInteger 7), s').
Proof.
  apply (string_literal_unterminated (setPos 7 (openScope "color: '#FF0000")) "color: " "'"
           "#FF0000" (LInteger 7) 1).
  - reflexivity.
  - reflexivity.
  - right. reflexivity.
  - reflexivity.
Defined.

(** *** Identifiers *)

Lemma identifier_loop_run (more : string) :
  forall (fuel : nat) (done tail : string) (s : QMLScope) (c0 : Z),
    m_sStream s = done ++ more ++ tail ->
    m_iPos s = String.length done ->
    allChars isIdentChar more = true ->
    endsToken isIdentChar tail = true ->
    (String.length more < fuel)%nat ->
    exists s',
      identifier_loop fuel c0 s
      = Some (match tail with EmptyString => EOF | String d _ => ch d end, s')
      /\ m_sStream s' = m_sStream s
      /\ m_pCurrentTokenValue s' = m_pCurrentTokenValue s ++ String (qchar c0) more
      /\ m_iPos s' = (String.length done + String.length more
                      + (if isEmpty tail then 0 else 1))%nat.
Proof.
  induction more as [|a more IH]; intros fuel done tail s c0 Hs Hp Hall Hend Hfuel;
    (destruct fuel as [|fuel]; [cbn in Hfuel; lia|]); cbn [identifier_loop];
    unfold bind, STORE, GET.
  - cbn [append] in Hs. destruct tail as [|d rest].
    + rewrite append_empty in Hs.
      rewrite getChar_end by (cbn; rewrite Hp, Hs; reflexivity).
      cbn. eexists. split; [reflexivity|]. split; [reflexivity|].
      split; [reflexivity|]. cbn. rewrite Hp. lia.
    + set (s0 := setTokenValue _ s).
      destruct (getChar_at s0 done d rest Hs Hp) as [Hc [Hp1 Hsame]].
      destruct (getChar s0) as [c s1]. cbn [fst snd] in Hc, Hp1, Hsame. subst c.
      replace (ch d =? EOF) with false
        by (symmetry; apply Z.eqb_neq; pose proof (ch_range d); unfold EOF; lia).
      cbn [endsToken] in Hend. unfold isIdentChar in Hend.
      apply negb_true_iff in Hend. rewrite Hend. cbn [negb andb].
      exists s1. split; [reflexivity|]. split; [apply Hsame|]. split; [apply Hsame|].
      rewrite Hp1. cbn. lia.
  - cbn [append] in Hs. cbn [allChars] in Hall.
    apply andb_true_iff in Hall. destruct Hall as [Ha Hall].
    set (s0 := setTokenValue _ s).
    destruct (getChar_at s0 done a (more ++ tail) Hs Hp) as [Hc [Hp1 Hsame]].
    destruct (getChar s0) as [c s1]. cbn [fst snd] in Hc, Hp1, Hsame. subst c.
    replace (ch a =? EOF) with false
      by (symmetry; apply Z.eqb_neq; pose proof (ch_range a); unfold EOF; lia).
    unfold isIdentChar in Ha. rewrite Ha. cbn [negb andb].
    destruct Hsame as [Hst [Htok _]].
    destruct (IH fuel (done ++ String a EmptyString) tail s1 (ch a))
      as [s' [Hloop [Hst' [Htok' Hpos']]]].
    + rewrite Hst. cbn. rewrite Hs, append_associative. reflexivity.
    + rewrite Hp1, length_append. cbn. lia.
    + exact Hall.
    + exact Hend.
    + cbn in Hfuel. lia.
    + exists s'. split; [exact Hloop|]. split; [rewrite Hst', Hst; reflexivity|]. split.
      * rewrite Htok', Htok, qchar_ch. cbn. rewrite append_associative. reflexivity.
      * rewrite Hpos', length_append. cbn. lia.
Qed.

Lemma identifier_token (s : QMLScope) (done : string) (a0 : ascii) (more tail : string)
      (LVAL : UParserValue) :
  m_sStream s = done ++ String a0 (more ++ tail) ->
  m_iPos s = String.length done ->
  isIdentStart a0 = true ->
  allChars isIdentChar more = true ->
  endsToken isIdentChar tail = true ->
  exists s',
    parseNextToken (2 + String.length more) LVAL s
    = Some (identifierToken (String a0 more) LVAL, s')
    /\ m_sStream s' = m_sStream s
    /\ m_iPos s' = (String.length done + String.length more
                    + (if isEmpty tail then 0 else 1))%nat.
Proof.
  intros Hs Hp Hstart Hall Hend. cbn [Nat.add].
  pose proof (isIdentStart_range a0 Hstart) as Hc.
  assert (Hgt : 32 < ch a0) by lia.
  assert (Hne : ch a0 <> 47) by lia.
  start_token Hs Hp Hgt Hne s3 Hst Hpos Htok Hfl Hhx.
  remember (ch a0) as c eqn:Ec.
  decide_tests c.
  replace (isdigit c) with false
    by (symmetry; apply not_true_iff_false; rewrite isdigit_range; lia).
  replace (isalpha c || (c =? ch "_") || (c =? ch "$")) with true
    by (subst c; symmetry; exact Hstart).
  cbn [orb]. cbn beta iota.
  destruct (identifier_loop_run more (S (S (String.length more))) (done ++ String a0 EmptyString)
              tail s3 c) as [s4 [Hloop [Hst4 [Htok4 Hpos4]]]].
  - rewrite Hst, Hs, append_associative. reflexivity.
  - rewrite Hpos, length_append. cbn. lia.
  - exact Hall.
  - exact Hend.
  - lia.
  - rewrite Hloop. unfold UNGET, reads.
    destruct (ungetChar_sameText (match tail with EmptyString => EOF | String d _ => ch d end) s4)
      as [Hp5 [Hst5 [Htok5 _]]].
    rewrite Htok5, Htok4, Htok, Ec, qchar_ch. cbn [append].
    eexists. split; [|split].
    + unfold identifierToken, ret.
      destruct (String.eqb (toLower (String a0 more)) "true"); [reflexivity|].
      destruct (String.eqb (toLower (String a0 more)) "false"); [reflexivity|].
      destruct (QMap.lookup (String a0 more) m_mTokens); reflexivity.
    + congruence.
    + rewrite Hp5, Hpos4, length_append. cbn. destruct (isEmpty tail); lia.
Qed.

Lemma tokens_nonzero (k : string) (v : Z) : QMap.lookup k m_mTokens = Some v -> v <> 0.
Proof.
  assert (Hall : Forall (fun p => snd p <> 0) m_mTokens)
    by (vm_compute; repeat constructor; discriminate).
  induction Hall as [|[k' v'] m Hv Hall IH]; cbn [QMap.lookup]; [discriminate|].
  destruct (String.eqb k k'); [|exact IH].
  intros H. injection H as <-. exact Hv.
Qed.

Lemma identifierToken_nonzero (text : string) (LVAL : UParserValue) :
  fst (identifierToken text LVAL) <> 0.
Proof.
  unfold identifierToken.
  destruct (String.eqb (toLower text) "true"); [discriminate|].
  destruct (String.eqb (toLower text) "false"); [discriminate|].
  destruct (QMap.lookup text m_mTokens) as [v|] eqn:E; [|discriminate].
  exact (tokens_nonzero text v E).
Qed.

(** An identifier that a character which cannot go on with it follows,
    read from any place of the stream: the token is what the keyword
    table and the two boolean words make of exactly the text of the
    identifier, and the stream is left on the character that followed,
    which the next call reads. *)
Theorem identifier_ends_at_delimiter (s : QMLScope) (done : string) (a0 : ascii)
        (more : string) (d : ascii) (rest : string) (LVAL : UParserValue) (extra : nat) :
  m_sStream s = done ++ String a0 (more ++ String d rest) ->
  m_iPos s = String.length done ->
  isIdentStart a0 = true ->
  allChars isIdentChar more = true ->
  isIdentChar d = false ->
  exists s',
    parseNextToken (2 + String.length more + extra) LVAL s
    = Some (identifierToken (String a0 more) LVAL, s')
    /\ m_sStream s' = m_sStream s
    /\ m_iPos s' = String.length (done ++ String a0 more).
Proof.
  intros Hs Hp Hstart Hall Hd.
  destruct (identifier_token s done a0 more (String d rest) LVAL Hs Hp Hstart Hall)
    as [s' [Htoken [Hst' Hpos']]].
  - cbn [endsToken]. rewrite Hd. reflexivity.
  - exists s'. split; [apply parseNextToken_enough; exact Htoken|].
    split; [exact Hst'|]. rewrite Hpos', length_append. cbn. lia.
Qed.

Lemma identifier_ends_at_delimiter_witness :
  exists s',
    parseNextToken 6 LNone (setPos 5 (openScope "Item{width: 100}"))
    = Some ((TOKEN_IDENTIFIER, LString "width"), s')
    /\ m_sStream s' = "Item{width: 100}"
    /\ m_iPos s' = 10%nat.
Proof.
  apply (identifier_ends_at_delimiter (setPos 5 (openScope "Item{width: 100}"))
           "Item{" "w" "idth" ":" " 100}" LNone 0); reflexivity.
Defined.

(** An identifier that runs to the end of the stream: the token is
    right, but the end of the stream, read and put back like a
    character, moves the stream one step back, onto the last character
    of the identifier; the stream is not at its end. *)
Theorem identifier_at_end_steps_back (s : QMLScope) (done : string) (a0 : ascii)
        (more : string) (LVAL : UParserValue) (extra : nat) :
  m_sStream s = done ++ String a0 more ->
  m_iPos s = String.length done ->
  isIdentStart a0 = true ->
  allChars isIdentChar more = true ->
  exists s',
    parseNextToken (2 + String.length more + extra) LVAL s
    = Some (identifierToken (String a0 more) LVAL, s')
    /\ m_sStream s' = m_sStream s
    /\ S (m_iPos s') = String.length (m_sStream s).
Proof.
  intros Hs Hp Hstart Hall.
  destruct (identifier_token s done a0 more EmptyString LVAL) as [s' [Htoken [Hst' Hpos']]];
    try assumption.
  - rewrite append_empty. exact Hs.
  - reflexivity.
  - exists s'. split; [apply parseNextToken_enough; exact Htoken|].
    split; [exact Hst'|]. rewrite Hpos', Hs, length_append. cbn. lia.
Qed.

Lemma identifier_at_end_steps_back_witness :
  exists s',
    parseNextToken 5 LNone (openScope "var")
    = Some ((505, LNone), s')
    /\ m_sStream s' = "var"
    /\ S (m_iPos s') = 3%nat.
Proof.
  apply (identifier_at_end_steps_back (openScope "var") "" "v" "ar" LNone 1); reflexivity.
Defined.

(** *** Characters that are their own token *)

Lemma isOwnToken_tests (a : ascii) :
  isOwnToken a = true ->
  32 < ch a < 128 /\ Forall (fun k => Ascii.eqb a k = false) ruleStarts
  /\ isdigit (ch a) = false /\ isIdentStart a = false.
Proof.
  unfold isOwnToken, isAscii, isDigitChar. rewrite !andb_true_iff, !negb_true_iff.
  intros [[[[Hlo Hhi] Hrule] Hdig] Hid].
  apply Z.ltb_lt in Hlo, Hhi.
  split; [lia|]. split; [|split; assumption].
  apply Forall_forall. intros k Hk.
  destruct (Ascii.eqb a k) eqn:E; [|reflexivity].
  assert (Hex : existsb (Ascii.eqb a) ruleStarts = true)
    by (apply existsb_exists; exists k; split; assumption).
  congruence.
Qed.

Lemma own_token (s : QMLScope) (done : string) (a : ascii) (rest : string)
      (LVAL : UParserValue) :
  m_sStream s = done ++ String a rest ->
  m_iPos s = String.length done ->
  isOwnToken a = true ->
  exists s',
    parseNextToken 1 LVAL s = Some ((ch a, LVAL), s')
    /\ m_sStream s' = m_sStream s
    /\ m_iPos s' = S (String.length done)
    /\ m_pCurrentTokenValue s' = String a EmptyString.
Proof.
  intros Hs Hp Hown.
  destruct (isOwnToken_tests a Hown) as [Hrange [Hrule [Hdig Hid]]].
  unfold ruleStarts in Hrule.
  repeat match goal with
         | H : Forall _ (_ :: _) |- _ =>
             let E := fresh "E" in
             apply Forall_cons_iff in H; destruct H as [E H]
         end.
  assert (Hgt : 32 < ch a) by lia.
  assert (Hne : ch a <> 47)
    by (intros Heq; change 47 with (ch "/") in Heq; apply ch_injective in Heq; subst a;
        discriminate).
  start_token Hs Hp Hgt Hne s3 Hst Hpos Htok Hfl Hhx.
  replace (ch a =? EOF) with false by (symmetry; apply Z.eqb_neq; unfold EOF; lia).
  unfold isIdentStart in Hid. rewrite Hdig, Hid.
  rewrite !ch_eqb.
  repeat match goal with
         | E : Ascii.eqb a _ = false |- _ => rewrite E; clear E
         end.
  cbn [orb]. cbn beta iota. unfold STORE, ret.
  rewrite Htok, qchar_ch. cbn [append].
  eexists. split; [reflexivity|]. cbn. repeat split; assumption.
Qed.

Lemma isOwnToken_ends_identifier (d : ascii) : isOwnToken d = true -> isIdentChar d = false.
Proof.
  intros H. destruct (isOwnToken_tests d H) as [_ [_ [Hdig Hid]]].
  unfold isIdentStart in Hid. unfold isIdentChar, isalnum. rewrite Hdig.
  destruct (isalpha (ch d)); [discriminate|].
  destruct (ch d =? ch "_"); [discriminate|].
  destruct (ch d =? ch "$"); [discriminate|]. reflexivity.
Qed.

(** A black ASCII character for which [parseNextToken] has no rule of
    its own (a brace, a parenthesis, a colon, a semicolon, a comma, ...)
    is returned as its own code; the parser value is untouched, the
    token text is the character, and the stream has moved past it. *)
Theorem punctuation_is_its_own_token (s : QMLScope) (done : string) (a : ascii)
        (rest : string) (LVAL : UParserValue) (extra : nat) :
  m_sStream s = done ++ String a rest ->
  m_iPos s = String.length done ->
  isOwnToken a = true ->
  exists s',
    parseNextToken (1 + extra) LVAL s = Some ((ch a, LVAL), s')
    /\ m_sStream s' = m_sStream s
    /\ m_iPos s' = S (String.length done)
    /\ m_pCurrentTokenValue s' = String a EmptyString.
Proof.
  intros Hs Hp Hown.
  destruct (own_token s done a rest LVAL Hs Hp Hown) as [s' [Htoken Hrest]].
  exists s'. split; [apply (parseNextToken_enough 1 extra); exact Htoken | exact Hrest].
Qed.

Lemma punctuation_is_its_own_token_witness :
  exists s',
    parseNextToken 1 LNone (setPos 4 (openScope "Item{ }")) = Some ((123, LNone), s')
    /\ m_sStream s' = "Item{ }"
    /\ m_iPos s' = 5%nat
    /\ m_pCurrentTokenValue s' = "{".
Proof.
  apply (punctuation_is_its_own_token (setPos 4 (openScope "Item{ }")) "Item" "{" " }" LNone 0);
    reflexivity.
Defined.

(** The character that ends an identifier is not lost: when it is a
    character without a rule of its own, the call after the identifier
    returns it, and the stream is then past both. *)
Theorem delimiter_is_the_next_token (s : QMLScope) (done : string) (a0 : ascii)
        (more : string) (d : ascii) (rest : string) (LVAL LVAL' : UParserValue)
        (extra : nat) :
  m_sStream s = done ++ String a0 (more ++ String d rest) ->
  m_iPos s = String.length done ->
  isIdentStart a0 = true ->
  allChars isIdentChar more = true ->
  isOwnToken d = true ->
  exists s1 s2,
    parseNextToken (2 + String.length more + extra) LVAL s
    = Some (identifierToken (String a0 more) LVAL, s1)
    /\ parseNextToken (1 + extra) LVAL' s1 = Some ((ch d, LVAL'), s2)
    /\ m_iPos s2 = String.length (done ++ String a0 (more ++ String d EmptyString)).
Proof.
  intros Hs Hp Hstart Hall Hd.
  destruct (identifier_token s done a0 more (String d rest) LVAL Hs Hp Hstart Hall)
    as [s1 [Htoken1 [Hst1 Hpos1]]].
  { cbn [endsToken]. rewrite (isOwnToken_ends_identifier d Hd). reflexivity. }
  destruct (own_token s1 (done ++ String a0 more) d rest LVAL') as [s2 [Htoken2 [_ [Hpos2 _]]]].
  - rewrite Hst1, Hs. cbn [append]. rewrite append_associative. reflexivity.
  - rewrite Hpos1, length_append. cbn. lia.
  - exact Hd.
  - exists s1, s2.
    split; [apply parseNextToken_enough; exact Htoken1|].
    split; [apply (parseNextToken_enough 1 extra); exact Htoken2|].
    rewrite Hpos2, !length_append. cbn. rewrite length_append. cbn. lia.
Qed.

Lemma delimiter_is_the_next_token_witness :
  exists s1 s2,
    parseNextToken 6 LNone (openScope "width: 100")
    = Some ((TOKEN_IDENTIFIER, LString "width"), s1)
    /\ parseNextToken 1 (LString "width") s1 = Some ((58, LString "width"), s2)
    /\ m_iPos s2 = 6%nat.
Proof.
  apply (delimiter_is_the_next_token (openScope "width: 100") "" "w" "idth" ":" " 100"
           LNone (LString "width") 0); reflexivity.
Defined.

(** *** Integer constants *)

Lemma isDigitChar_range (a : ascii) : isDigitChar a = true -> 48 <= ch a <= 57.
Proof. unfold isDigitChar. apply isdigit_range. Qed.

Lemma digitsAcc_digits (text : string) :
  forall (acc : Z) (seen : bool),
    allChars isDigitChar text = true -> seen = true \/ text <> EmptyString ->
    digitsAcc acc seen text = Some (decimalValue acc text).
Proof.
  induction text as [|a text IH]; intros acc seen Hall Hseen.
  - destruct Hseen as [-> | Hne]; [reflexivity | contradiction].
  - cbn [allChars] in Hall. apply andb_true_iff in Hall. destruct Hall as [Ha Hall].
    apply isDigitChar_range in Ha. unfold ch in Ha.
    cbn [digitsAcc decimalValue]. cbv zeta.
    replace ((48 <=? N_of_ascii a)%N && (N_of_ascii a <=? 57)%N) with true
      by (symmetry; apply andb_true_iff; split; apply N.leb_le; lia).
    rewrite (IH _ true Hall) by (left; reflexivity).
    unfold ch. do 2 f_equal. lia.
Qed.

Lemma decimalValue_nonneg (text : string) :
  forall acc : Z, 0 <= acc -> allChars isDigitChar text = true -> 0 <= decimalValue acc text.
Proof.
  induction text as [|a text IH]; intros acc Hacc Hall; [exact Hacc|].
  cbn [allChars] in Hall. apply andb_true_iff in Hall. destruct Hall as [Ha Hall].
  apply isDigitChar_range in Ha. cbn [decimalValue]. apply IH; [lia | exact Hall].
Qed.

(** [toInt] of a text of decimal digits: the number they write when it
    fits in an [int], 0 when it does not. *)
Lemma toInt_digits (a0 : ascii) (more : string) :
  isDigitChar a0 = true -> allChars isDigitChar more = true ->
  toInt (String a0 more) = intValue (String a0 more).
Proof.
  intros Ha Hall.
  assert (Hdig : digitsAcc 0 false (String a0 more) = Some (decimalValue 0 (String a0 more))).
  { apply digitsAcc_digits; [cbn [allChars]; rewrite Ha, Hall; reflexivity|].
    right. discriminate. }
  pose proof (decimalValue_nonneg (String a0 more) 0 (Z.le_refl 0)) as Hpos.
  assert (Hok : toIntOk (String a0 more)
                = if decimalValue 0 (String a0 more) <=? INT_MAX
                  then Some (decimalValue 0 (String a0 more)) else None).
  { unfold toIntOk.
    replace (match trimLeft (String a0 more) with
             | String "-"%char t' => option_map Z.opp (digitsAcc 0 false t')
             | String "+"%char t' => digitsAcc 0 false t'
             | _ => digitsAcc 0 false (trimLeft (String a0 more))
             end) with (digitsAcc 0 false (String a0 more))
      by (destruct a0 as [[] [] [] [] [] [] [] []]; try discriminate Ha; reflexivity).
    rewrite Hdig. cbv zeta beta iota.
    replace (INT_MIN <=? decimalValue 0 (String a0 more)) with true; [reflexivity|].
    symmetry. apply Z.leb_le. unfold INT_MIN.
    assert (0 <= decimalValue 0 (String a0 more)); [|lia].
    apply Hpos. cbn [allChars]. rewrite Ha, Hall. reflexivity. }
  unfold toInt, intValue. rewrite Hok. cbv zeta.
  destruct (decimalValue 0 (String a0 more) <=? INT_MAX); reflexivity.
Qed.

Lemma parseNumber_loop_run (float : bool) (more : string) :
  forall (fuel : nat) (done tail : string) (s : QMLScope),
    m_sStream s = done ++ more ++ tail ->
    m_iPos s = String.length done ->
    m_bParsingFloat s = float -> m_bParsingHexa s = false ->
    allChars isDigitChar more = true ->
    endsToken (goesOnNumber float) tail = true ->
    (String.length more < fuel)%nat ->
    exists s',
      parseNumber_loop fuel s = Some (tt, s')
      /\ m_sStream s' = m_sStream s
      /\ m_pCurrentTokenValue s' = m_pCurrentTokenValue s ++ more
      /\ m_bParsingFloat s' = float /\ m_bParsingHexa s' = false
      /\ m_iPos s' = Nat.pred (String.length done + String.length more
                               + (if isEmpty tail then 0 else 1)).
Proof.
  induction more as [|a more IH]; intros fuel done tail s Hs Hp Hfl Hhx Hall Hend Hfuel;
    (destruct fuel as [|fuel]; [cbn in Hfuel; lia|]); cbn [parseNumber_loop];
    unfold bind, GET.
  - cbn [append] in Hs. destruct tail as [|d rest].
    + rewrite append_empty in Hs.
      rewrite getChar_end by (rewrite Hp, Hs; reflexivity).
      cbn -[ungetChar]. unfold UNGET.
      destruct (ungetChar_sameText EOF s) as [Hp1 [Hst1 [Htok1 [_ [Hfl1 Hhx1]]]]].
      eexists. split; [reflexivity|].
      rewrite Hst1, Htok1, Hfl1, Hhx1, Hp1, Hp, append_empty, !Nat.add_0_r.
      repeat split; assumption.
    + destruct (getChar_at s done d rest Hs Hp) as [Hc [Hp1 [Hst1 [Htok1 [_ [Hfl1 Hhx1]]]]]].
      destruct (getChar s) as [c s1]. cbn [fst snd] in *. subst c.
      cbn [endsToken] in Hend. unfold goesOnNumber in Hend.
      apply negb_true_iff, orb_false_iff in Hend. destruct Hend as [Hd Hdot].
      rewrite Hd.
      destruct (ungetChar_sameText (ch d) s1) as [Hp2 [Hst2 [Htok2 [_ [Hfl2 Hhx2]]]]].
      exists (ungetChar (ch d) s1). split.
      * destruct ((97 <=? ch d) && (ch d <=? 102) || (65 <=? ch d) && (ch d <=? 70)).
        { unfold reads. rewrite Hhx1, Hhx. reflexivity. }
        destruct (ch d =? ch "."); [|reflexivity].
        unfold reads. rewrite Hfl1, Hfl.
        destruct float; [reflexivity | discriminate Hdot].
      * rewrite Hst2, Htok2, Hfl2, Hhx2, Hp2, Hp1, Hst1, Htok1, Hfl1, Hhx1, append_empty.
        cbn [isEmpty String.length]. repeat split; try assumption. lia.
  - cbn [append] in Hs. cbn [allChars] in Hall.
    apply andb_true_iff in Hall. destruct Hall as [Ha Hall].
    destruct (getChar_at s done a (more ++ tail) Hs Hp)
      as [Hc [Hp1 [Hst1 [Htok1 [_ [Hfl1 Hhx1]]]]]].
    destruct (getChar s) as [c s1]. cbn [fst snd] in *. subst c.
    unfold isDigitChar in Ha. rewrite Ha.
    replace (ch a =? EOF) with false
      by (symmetry; apply Z.eqb_neq; pose proof (ch_range a); unfold EOF; lia).
    unfold STORE. rewrite qchar_ch.
    destruct (IH fuel (done ++ String a EmptyString) tail
                 (setTokenValue (m_pCurrentTokenValue s1 ++ String a EmptyString) s1))
      as [s' [Hloop [Hst' [Htok' [Hfl' [Hhx' Hpos']]]]]].
    + cbn. rewrite Hst1, Hs, append_associative. reflexivity.
    + cbn. rewrite Hp1, length_append. cbn. lia.
    + cbn. congruence.
    + cbn. congruence.
    + exact Hall.
    + exact Hend.
    + cbn in Hfuel. lia.
    + exists s'. split; [exact Hloop|]. cbn in Hst', Htok'.
      rewrite Hst', Htok', Hst1, Htok1, append_associative, Hpos', length_append.
      cbn [append String.length]. repeat split; try assumption.
      f_equal. lia.
Qed.

(** The number loop on digits, a dot and digits, entered with both
    flags down: the dot raises the float flag and the loop goes on. *)
Lemma parseNumber_loop_real (more : string) :
  forall (fuel : nat) (done frac tail : string) (s : QMLScope),
    m_sStream s = done ++ more ++ String "." (frac ++ tail) ->
    m_iPos s = String.length done ->
    m_bParsingFloat s = false -> m_bParsingHexa s = false ->
    allChars isDigitChar more = true ->
    allChars isDigitChar frac = true ->
    endsToken (goesOnNumber true) tail = true ->
    (String.length more + 1 + String.length frac < fuel)%nat ->
    exists s',
      parseNumber_loop fuel s = Some (tt, s')
      /\ m_sStream s' = m_sStream s
      /\ m_pCurrentTokenValue s' = m_pCurrentTokenValue s ++ more ++ String "." frac
      /\ m_bParsingFloat s' = true /\ m_bParsingHexa s' = false
      /\ m_iPos s' = (String.length done + String.length more + String.length frac
                      + (if isEmpty tail then 0 else 1))%nat.
Proof.
  induction more as [|a more IH];
    intros fuel done frac tail s Hs Hp Hfl Hhx Hall Hfrac Hend Hfuel;
    (destruct fuel as [|fuel]; [cbn in Hfuel; lia|]); cbn [parseNumber_loop];
    unfold bind, GET; cbn [append] in Hs.
  - destruct (getChar_at s done "." (frac ++ tail) Hs Hp)
      as [Hc [Hp1 [Hst1 [Htok1 [_ [Hfl1 Hhx1]]]]]].
    destruct (getChar s) as [c s1]. cbn [fst snd] in *. subst c.
    change (isdigit (ch ".")) with false.
    change ((97 <=? ch ".") && (ch "." <=? 102) || (65 <=? ch ".") && (ch "." <=? 70))
      with false.
    change (ch "." =? EOF) with false.
    rewrite Z.eqb_refl. cbn beta iota. unfold reads. rewrite Hfl1, Hfl.
    cbn [negb]. unfold update, STORE. cbn beta iota.
    change (qchar (ch ".")) with "."%char.
    destruct (parseNumber_loop_run true frac fuel (done ++ ".") tail
                (setTokenValue (m_pCurrentTokenValue (setParsingFloat true s1) ++ ".")
                   (setParsingFloat true s1)))
      as [s' [Hloop [Hst' [Htok' [Hfl' [Hhx' Hpos']]]]]].
    + cbn. rewrite Hst1, Hs, append_associative. reflexivity.
    + cbn. rewrite Hp1, length_append. cbn. lia.
    + reflexivity.
    + cbn. congruence.
    + exact Hfrac.
    + exact Hend.
    + cbn in Hfuel. lia.
    + exists s'. split; [exact Hloop|]. cbn in Hst', Htok'.
      rewrite Hst', Htok', Hst1, Htok1, append_associative, Hpos', length_append.
      cbn [append String.length]. repeat split; try assumption. lia.
  - cbn [allChars] in Hall.
    apply andb_true_iff in Hall. destruct Hall as [Ha Hall].
    destruct (getChar_at s done a (more ++ String "." (frac ++ tail)) Hs Hp)
      as [Hc [Hp1 [Hst1 [Htok1 [_ [Hfl1 Hhx1]]]]]].
    destruct (getChar s) as [c s1]. cbn [fst snd] in *. subst c.
    unfold isDigitChar in Ha. rewrite Ha.
    replace (ch a =? EOF) with false
      by (symmetry; apply Z.eqb_neq; pose proof (ch_range a); unfold EOF; lia).
    unfold STORE. rewrite qchar_ch.
    destruct (IH fuel (done ++ String a EmptyString) frac tail
                 (setTokenValue (m_pCurrentTokenValue s1 ++ String a EmptyString) s1))
      as [s' [Hloop [Hst' [Htok' [Hfl' [Hhx' Hpos']]]]]].
    + cbn. rewrite Hst1, Hs, append_associative. reflexivity.
    + cbn. rewrite Hp1, length_append. cbn. lia.
    + cbn. congruence.
    + cbn. congruence.
    + exact Hall.
    + exact Hfrac.
    + exact Hend.
    + cbn in Hfuel. lia.
    + exists s'. split; [exact Hloop|]. cbn in Hst', Htok'.
      rewrite Hst', Htok', Hst1, Htok1, append_associative, Hpos', length_append.
      cbn [append String.length]. repeat split; try assumption. lia.
Qed.

Lemma hexPrefix_next (d : ascii) (rest : string) :
  hexPrefix (String "0" (String d rest)) = false ->
  (ch d =? ch "x") || (ch d =? ch "X") = false.
Proof.
  unfold hexPrefix. cbn [startsWith]. rewrite !ch_eqb, !andb_true_r.
  change (Ascii.eqb "0" "0") with true. cbn [andb].
  rewrite (Ascii.eqb_sym "x" d), (Ascii.eqb_sym "X" d). intros H. exact H.
Qed.

(** What follows a first digit: a zero looks one character ahead for
    the mark of a hexadecimal constant and puts it back. *)
Lemma number_prefix (s3 : QMLScope) (done : string) (a0 : ascii) (rest : string) :
  m_sStream s3 = done ++ String a0 rest -> m_iPos s3 = S (String.length done) ->
  hexPrefix (String a0 rest) = false ->
  exists s5,
    (if ch a0 =? ch "0"
     then d <- GET ;;
          (if (d =? ch "x") || (d =? ch "X")
           then STORE (ch a0) ;;; STORE d ;;; update (setParsingHexa true) ;;; ret true
           else UNGET d ;;; ret false)
     else ret false)%lex s3 = Some (false, s5)
    /\ sameText s3 s5
    /\ (m_iPos s5 = S (String.length done)
        \/ (a0 = "0"%char /\ rest = EmptyString /\ m_iPos s5 = String.length done)).
Proof.
  intros Hst Hpos Hhex.
  destruct (ch a0 =? ch "0") eqn:E0.
  - assert (a0 = "0"%char) as -> by (apply ch_injective, Z.eqb_eq; exact E0).
    unfold bind, GET, UNGET, ret.
    destruct rest as [|d rest].
    + rewrite getChar_end by (rewrite Hpos, Hst, length_append; cbn; lia).
      cbn -[ungetChar].
      destruct (ungetChar_sameText EOF s3) as [Hp5 Hsame5].
      eexists. split; [reflexivity|]. split; [exact Hsame5|]. right.
      rewrite Hp5, Hpos. repeat split; reflexivity.
    + destruct (getChar_at s3 (done ++ String "0" EmptyString) d rest)
        as [Hd [Hp4 Hsame4]].
      { rewrite Hst, append_associative. reflexivity. }
      { rewrite Hpos, length_append. cbn. lia. }
      destruct (getChar s3) as [c' s4]. cbn [fst snd] in *. subst c'.
      rewrite (hexPrefix_next d rest Hhex).
      destruct (ungetChar_sameText (ch d) s4) as [Hp5 Hsame5].
      eexists. split; [reflexivity|].
      split; [apply (sameText_trans s3 s4); assumption|]. left.
      rewrite Hp5, Hp4, length_append. cbn. lia.
  - exists s3. split; [reflexivity|]. split; [repeat split; reflexivity|]. left. exact Hpos.
Qed.

(** [parseNumber] on decimal digits, without the hexadecimal flag. *)
Lemma parseNumber_run (float : bool) (more : string) (fuel : nat) (done tail : string)
      (s : QMLScope) (LVAL : UParserValue) :
  m_sStream s = done ++ more ++ tail ->
  m_iPos s = String.length done ->
  m_bParsingFloat s = float -> m_bParsingHexa s = false ->
  allChars isDigitChar more = true ->
  endsToken (goesOnNumber float) tail = true ->
  (String.length more < fuel)%nat ->
  exists s',
    parseNumber fuel LVAL s
    = Some (if float
            then (TOKEN_REALCONSTANT, LReal (m_pCurrentTokenValue s ++ more))
            else (TOKEN_INTEGERCONSTANT, LInteger (toInt (m_pCurrentTokenValue s ++ more))),
            s')
    /\ m_sStream s' = m_sStream s
    /\ m_iPos s' = Nat.pred (String.length done + String.length more
                             + (if isEmpty tail then 0 else 1)).
Proof.
  intros Hs Hp Hfl Hhx Hall Hend Hfuel.
  destruct (parseNumber_loop_run float more fuel done tail s Hs Hp Hfl Hhx Hall Hend Hfuel)
    as [s' [Hloop [Hst' [Htok' [Hfl' [Hhx' Hpos']]]]]].
  exists s'. unfold parseNumber, bind, reads. rewrite Hloop, Hfl', Hhx', Htok'.
  destruct float; repeat split; assumption.
Qed.

Lemma integer_token (s : QMLScope) (done : string) (a0 : ascii) (more tail : string)
      (LVAL : UParserValue) :
  m_sStream s = done ++ String a0 (more ++ tail) ->
  m_iPos s = String.length done ->
  isDigitChar a0 = true ->
  allChars isDigitChar more = true ->
  endsToken (goesOnNumber false) tail = true ->
  hexPrefix (String a0 (more ++ tail)) = false ->
  exists s',
    parseNextToken (2 + String.length more) LVAL s
    = Some ((TOKEN_INTEGERCONSTANT, LInteger (intValue (String a0 more))), s')
    /\ m_sStream s' = m_sStream s
    /\ m_iPos s' = (String.length done + String.length more
                    + (if isEmpty tail then 0 else 1))%nat.
Proof.
  intros Hs Hp Hdigit Hall Hend Hhex. cbn [Nat.add].
  rewrite <- (toInt_digits a0 more Hdigit Hall).
  pose proof (isDigitChar_range a0 Hdigit) as Hc.
  assert (Hgt : 32 < ch a0) by lia.
  assert (Hne : ch a0 <> 47) by lia.
  start_token Hs Hp Hgt Hne s3 Hst Hpos Htok Hfl Hhx.
  unfold isDigitChar in Hdigit. rewrite Hdigit.
  remember (ch a0) as c eqn:Ec.
  decide_tests c. subst c.
  cbn [orb]. cbn beta iota.
  set (fuel := S (S (String.length more))).
  rewrite Hs in Hst.
  destruct (number_prefix s3 done a0 (more ++ tail) Hst Hpos Hhex)
    as [s5 [Hphase [[Hst5 [Htok5 [_ [Hfl5 Hhx5]]]] Hpos5]]].
  unfold bind, update in Hphase. cbn beta iota in Hphase.
  rewrite Hphase. cbn beta iota. unfold STORE at 1. rewrite Htok5, Htok, qchar_ch.
  cbn [append].
  set (s6 := setTokenValue (String a0 EmptyString) s5).
  destruct Hpos5 as [Hpos5 | [-> [Hrest Hpos5]]].
  - destruct (parseNumber_run false more fuel (done ++ String a0 EmptyString) tail s6 LVAL)
      as [s' [Hnum [Hst' Hpos']]].
    + cbn. rewrite Hst5, Hst, append_associative. reflexivity.
    + cbn. rewrite Hpos5, length_append. cbn. lia.
    + cbn. congruence.
    + cbn. congruence.
    + exact Hall.
    + exact Hend.
    + subst fuel. lia.
    + exists s'. split; [exact Hnum|]. split; [cbn in Hst'; congruence|].
      rewrite Hpos', length_append. cbn. lia.
  - destruct more; [|discriminate Hrest]. cbn in Hrest. subst tail.
    destruct (parseNumber_run false "0" fuel done EmptyString s6 LVAL)
      as [s' [Hnum [Hst' Hpos']]].
    + cbn. rewrite Hst5, Hst. reflexivity.
    + cbn. exact Hpos5.
    + cbn. congruence.
    + cbn. congruence.
    + reflexivity.
    + reflexivity.
    + subst fuel. cbn. lia.
    + exists s'. split; [exact Hnum|]. split; [cbn in Hst'; congruence|].
      rewrite Hpos'. cbn. lia.
Qed.

(** Decimal digits that neither a digit nor a dot follows and that do
    not begin with the mark of a hexadecimal constant: the token is an
    integer constant; its value is the number the digits write when that
    fits in an [int], and 0 when it does not. *)
Theorem integer_constant_value (s : QMLScope) (done : string) (a0 : ascii)
        (more tail : string) (LVAL : UParserValue) (extra : nat) :
  m_sStream s = done ++ String a0 (more ++ tail) ->
  m_iPos s = String.length done ->
  isDigitChar a0 = true ->
  allChars isDigitChar more = true ->
  endsToken (goesOnNumber false) tail = true ->
  hexPrefix (String a0 (more ++ tail)) = false ->
  exists s',
    parseNextToken (2 + String.length more + extra) LVAL s
    = Some ((TOKEN_INTEGERCONSTANT, LInteger (intValue (String a0 more))), s')
    /\ m_sStream s' = m_sStream s.
Proof.
  intros Hs Hp Hdigit Hall Hend Hhex.
  destruct (integer_token s done a0 more tail LVAL Hs Hp Hdigit Hall Hend Hhex)
    as [s' [Htoken [Hst' _]]].
  exists s'. split; [apply parseNextToken_enough; exact Htoken | exact Hst'].
Qed.

Lemma integer_constant_value_witness :
  (exists s',
     parseNextToken 4 LNone (setPos 7 (openScope "width: 100; z: 3000000000 "))
     = Some ((TOKEN_INTEGERCONSTANT, LInteger 100), s')
     /\ m_sStream s' = "width: 100; z: 3000000000 ")
  /\ (exists s',
     parseNextToken 11 LNone (setPos 15 (openScope "width: 100; z: 3000000000 "))
     = Some ((TOKEN_INTEGERCONSTANT, LInteger 0), s')
     /\ m_sStream s' = "width: 100; z: 3000000000 ").
Proof.
  split.
  - apply (integer_constant_value (setPos 7 (openScope "width: 100; z: 3000000000 "))
             "width: " "1" "00" "; z: 3000000000 " LNone 0); reflexivity.
  - apply (integer_constant_value (setPos 15 (openScope "width: 100; z: 3000000000 "))
             "width: 100; z: " "3" "000000000" " " LNone 0); reflexivity.
Defined.

(** On the last character of a stream, when it is a letter, a digit, an
    underscore or a dollar: the call returns a token that is not 0 and
    leaves the stream where it was.  Every later call does the same, so
    a stream that ends in an identifier or a number never gives the 0
    that ends the stream. *)
Theorem last_identifier_character_is_read_again (s : QMLScope) (done : string) (l : ascii)
        (LVAL : UParserValue) (extra : nat) :
  m_sStream s = done ++ String l EmptyString ->
  m_iPos s = String.length done ->
  isIdentChar l = true ->
  exists token s',
    parseNextToken (2 + extra) LVAL s = Some (token, s')
    /\ fst token <> 0
    /\ m_sStream s' = m_sStream s
    /\ m_iPos s' = m_iPos s.
Proof.
  intros Hs Hp Hl.
  assert (Hcase : isIdentStart l = true \/ isDigitChar l = true).
  { unfold isIdentChar, isalnum in Hl. unfold isIdentStart, isDigitChar.
    destruct (isalpha (ch l)), (isdigit (ch l)), (ch l =? ch "_"), (ch l =? ch "$");
      try discriminate Hl; auto. }
  destruct Hcase as [Hstart | Hdigit].
  - destruct (identifier_token s done l EmptyString EmptyString LVAL Hs Hp Hstart)
      as [s' [Htoken [Hst' Hpos']]]; [reflexivity | reflexivity |].
    exists (identifierToken (String l EmptyString) LVAL), s'.
    split; [apply (parseNextToken_enough 2 extra); exact Htoken|].
    split; [apply identifierToken_nonzero|].
    split; [exact Hst'|]. rewrite Hpos', Hp. cbn. lia.
  - destruct (integer_token s done l EmptyString EmptyString LVAL Hs Hp Hdigit)
      as [s' [Htoken [Hst' Hpos']]]; [reflexivity | reflexivity | |].
    + unfold hexPrefix. cbn [startsWith]. rewrite !andb_false_r. reflexivity.
    + eexists _, s'.
      split; [apply (parseNextToken_enough 2 extra); exact Htoken|].
      split; [discriminate|].
      split; [exact Hst'|]. rewrite Hpos', Hp. cbn. lia.
Qed.

Lemma last_identifier_character_is_read_again_witness :
  exists token s',
    parseNextToken 2 LNone (setPos 3 (openScope "x: y")) = Some (token, s')
    /\ fst token <> 0
    /\ m_sStream s' = "x: y"
    /\ m_iPos s' = 3%nat.
Proof.
  apply (last_identifier_character_is_read_again (setPos 3 (openScope "x: y")) "x: " "y"
           LNone 0); reflexivity.
Defined.

(** *** Real constants *)

Lemma digit_is_no_hex_mark (d : ascii) :
  isDigitChar d = true \/ d = "."%char ->
  (ch d =? ch "x") || (ch d =? ch "X") = false.
Proof.
  intros [Hd | ->]; [|reflexivity].
  apply isDigitChar_range in Hd. apply orb_false_iff.
  split; apply Z.eqb_neq; cbn; lia.
Qed.

Lemma real_token (s : QMLScope) (done : string) (a0 : ascii) (more frac tail : string)
      (LVAL : UParserValue) :
  m_sStream s = done ++ String a0 (more ++ String "." (frac ++ tail)) ->
  m_iPos s = String.length done ->
  isDigitChar a0 = true ->
  allChars isDigitChar more = true ->
  allChars isDigitChar frac = true ->
  endsToken (goesOnNumber true) tail = true ->
  exists s',
    parseNextToken (3 + String.length more + String.length frac) LVAL s
    = Some ((TOKEN_REALCONSTANT, LReal (String a0 (more ++ String "." frac))), s')
    /\ m_sStream s' = m_sStream s
    /\ m_iPos s' = (String.length done + 1 + String.length more + String.length frac
                    + (if isEmpty tail then 0 else 1))%nat.
Proof.
  intros Hs Hp Hdigit Hall Hfrac Hend. cbn [Nat.add].
  pose proof (isDigitChar_range a0 Hdigit) as Hc.
  assert (Hgt : 32 < ch a0) by lia.
  assert (Hne : ch a0 <> 47) by lia.
  start_token Hs Hp Hgt Hne s3 Hst Hpos Htok Hfl Hhx.
  unfold isDigitChar in Hdigit. rewrite Hdigit.
  remember (ch a0) as c eqn:Ec.
  decide_tests c. subst c.
  cbn [orb]. cbn beta iota.
  set (fuel := S (S (S (String.length more + String.length frac)))).
  rewrite Hs in Hst.
  assert (Hhex : hexPrefix (String a0 (more ++ String "." (frac ++ tail))) = false).
  { unfold hexPrefix.
    destruct (Ascii.eqb "0" a0) eqn:E0;
      [|cbn [startsWith]; rewrite E0; reflexivity].
    apply Ascii.eqb_eq in E0. subst a0.
    assert (Hd : exists d r, more ++ String "." (frac ++ tail) = String d r
                             /\ (isDigitChar d = true \/ d = "."%char)).
    { destruct more as [|d more]; cbn [append].
      - eexists _, _. split; [reflexivity | right; reflexivity].
      - cbn [allChars] in Hall. apply andb_true_iff in Hall.
        eexists _, _. split; [reflexivity | left; apply Hall]. }
    destruct Hd as [d [r [-> Hd]]].
    apply digit_is_no_hex_mark in Hd. rewrite !ch_eqb in Hd.
    cbn [startsWith]. rewrite !andb_true_r.
    change (Ascii.eqb "0" "0") with true. cbn [andb].
    rewrite (Ascii.eqb_sym "x" d), (Ascii.eqb_sym "X" d). exact Hd. }
  destruct (number_prefix s3 done a0 _ Hst Hpos Hhex)
    as [s5 [Hphase [[Hst5 [Htok5 [_ [Hfl5 Hhx5]]]] Hpos5]]].
  unfold bind, update in Hphase. cbn beta iota in Hphase.
  rewrite Hphase. cbn beta iota. unfold STORE at 1. rewrite Htok5, Htok, qchar_ch.
  cbn [append].
  set (s6 := setTokenValue (String a0 EmptyString) s5).
  destruct Hpos5 as [Hpos5 | [_ [Hrest _]]];
    [|destruct more; discriminate Hrest].
  destruct (parseNumber_loop_real more fuel (done ++ String a0 EmptyString) frac tail s6)
    as [s' [Hloop [Hst' [Htok' [Hfl' [Hhx' Hpos']]]]]].
  - cbn. rewrite Hst5, Hst, append_associative. reflexivity.
  - cbn. rewrite Hpos5, length_append. cbn. lia.
  - cbn. congruence.
  - cbn. congruence.
  - exact Hall.
  - exact Hfrac.
  - exact Hend.
  - subst fuel. lia.
  - exists s'. unfold parseNumber, bind, reads. rewrite Hloop, Hfl', Htok'.
    split; [reflexivity|]. split; [cbn in Hst'; congruence|].
    rewrite Hpos', length_append. cbn. lia.
Qed.

(** A dot before a digit: a zero is stored in front of the dot. *)
Lemma dot_real_token (s : QMLScope) (done : string) (d : ascii) (frac tail : string)
      (LVAL : UParserValue) :
  m_sStream s = done ++ String "." (String d (frac ++ tail)) ->
  m_iPos s = String.length done ->
  isDigitChar d = true ->
  allChars isDigitChar frac = true ->
  endsToken (goesOnNumber true) tail = true ->
  exists s',
    parseNextToken (2 + String.length frac) LVAL s
    = Some ((TOKEN_REALCONSTANT, LReal (String "0" (String "." (String d frac)))), s')
    /\ m_sStream s' = m_sStream s
    /\ m_iPos s' = (String.length done + 1 + String.length frac
                    + (if isEmpty tail then 0 else 1))%nat.
Proof.
  intros Hs Hp Hdigit Hfrac Hend. cbn [Nat.add].
  assert (Hgt : 32 < ch ".") by (cbn; lia).
  assert (Hne : ch "." <> 47) by (cbn; lia).
  start_token Hs Hp Hgt Hne s3 Hst Hpos Htok Hfl Hhx.
  remember (ch ".") as c eqn:Ec.
  assert (Hc : c = 46) by (subst c; reflexivity).
  decide_tests c. subst c.
  cbn [orb]. cbn beta iota. unfold GET at 1.
  destruct (getChar_at s3 (done ++ ".") d (frac ++ tail))
    as [Hd [Hp4 [Hst4 [Htok4 [_ [Hfl4 Hhx4]]]]]].
  { rewrite Hst, Hs, append_associative. reflexivity. }
  { rewrite Hpos, length_append. cbn. lia. }
  destruct (getChar s3) as [c s4]. cbn [fst snd] in *. subst c.
  unfold isDigitChar in Hdigit. rewrite Hdigit. unfold STORE. cbn beta iota.
  rewrite !qchar_ch.
  match goal with
  | |- context [parseNumber ?fuel LVAL ?s6] =>
      destruct (parseNumber_run true frac fuel (done ++ String "." (String d EmptyString))
                  tail s6 LVAL) as [s' [Hnum [Hst' Hpos']]]
  end.
  - cbn. rewrite Hst4, Hst, Hs, append_associative. reflexivity.
  - cbn. rewrite Hp4, !length_append. cbn. lia.
  - reflexivity.
  - cbn. congruence.
  - exact Hfrac.
  - exact Hend.
  - lia.
  - exists s'. rewrite Hnum. cbn [m_pCurrentTokenValue setTokenValue setParsingFloat].
    rewrite Htok4, Htok. cbn [append].
    split; [reflexivity|]. split; [cbn in Hst'; congruence|].
    rewrite Hpos', !length_append. cbn. lia.
Qed.

(** Digits, a dot and digits (none, too) that no digit follows: the
    token is a real constant over exactly that text; a second dot ends
    the constant. *)
Theorem real_constant_keeps_its_text (s : QMLScope) (done : string) (a0 : ascii)
        (more frac tail : string) (LVAL : UParserValue) (extra : nat) :
  m_sStream s = done ++ String a0 (more ++ String "." (frac ++ tail)) ->
  m_iPos s = String.length done ->
  isDigitChar a0 = true ->
  allChars isDigitChar more = true ->
  allChars isDigitChar frac = true ->
  endsToken (goesOnNumber true) tail = true ->
  exists s',
    parseNextToken (3 + String.length more + String.length frac + extra) LVAL s
    = Some ((TOKEN_REALCONSTANT, LReal (String a0 (more ++ String "." frac))), s')
    /\ m_sStream s' = m_sStream s.
Proof.
  intros Hs Hp Hdigit Hall Hfrac Hend.
  destruct (real_token s done a0 more frac tail LVAL Hs Hp Hdigit Hall Hfrac Hend)
    as [s' [Htoken [Hst' _]]].
  exists s'. split; [apply parseNextToken_enough; exact Htoken | exact Hst'].
Qed.

Lemma real_constant_keeps_its_text_witness :
  exists s',
    parseNextToken 5 LNone (openScope "2.0.1")
    = Some ((TOKEN_REALCONSTANT, LReal "2.0"), s')
    /\ m_sStream s' = "2.0.1".
Proof.
  apply (real_constant_keeps_its_text (openScope "2.0.1") "" "2" "" "0" ".1" LNone 1);
    reflexivity.
Defined.

(** A dot before a digit starts a real constant, whose text gets a
    zero in front of the dot. *)
Theorem real_constant_from_a_dot (s : QMLScope) (done : string) (d : ascii)
        (frac tail : string) (LVAL : UParserValue) (extra : nat) :
  m_sStream s = done ++ String "." (String d (frac ++ tail)) ->
  m_iPos s = String.length done ->
  isDigitChar d = true ->
  allChars isDigitChar frac = true ->
  endsToken (goesOnNumber true) tail = true ->
  exists s',
    parseNextToken (2 + String.length frac + extra) LVAL s
    = Some ((TOKEN_REALCONSTANT, LReal (String "0" (String "." (String d frac)))), s')
    /\ m_sStream s' = m_sStream s.
Proof.
  intros Hs Hp Hdigit Hfrac Hend.
  destruct (dot_real_token s done d frac tail LVAL Hs Hp Hdigit Hfrac Hend)
    as [s' [Htoken [Hst' _]]].
  exists s'. split; [apply parseNextToken_enough; exact Htoken | exact Hst'].
Qed.

Lemma real_constant_from_a_dot_witness :
  exists s',
    parseNextToken 3 LNone (setPos 9 (openScope "opacity: .75;"))
    = Some ((TOKEN_REALCONSTANT, LReal "0.75"), s')
    /\ m_sStream s' = "opacity: .75;".
Proof.
  apply (real_constant_from_a_dot (setPos 9 (openScope "opacity: .75;")) "opacity: " "7" "5"
           ";" LNone 0); reflexivity.
Defined.

(** *** Block comments *)

Lemma skip_loop_in_comment (body : string) :
  forall (fuel : nat) (done : string) (s : QMLScope),
    m_sStream s = done ++ body -> m_iPos s = String.length done ->
    0 < m_iCommentLevel s -> allChars isCommentChar body = true ->
    (String.length body < fuel)%nat ->
    exists s', skip_loop fuel s = Some (false, s').
Proof.
  induction body as [|a body IH]; intros fuel done s Hs Hp Hlevel Hall Hfuel;
    (destruct fuel as [|fuel]; [cbn in Hfuel; lia|]); cbn [skip_loop]; unfold bind, GET.
  - rewrite append_empty in Hs. rewrite getChar_end by (rewrite Hp, Hs; reflexivity).
    exists s. reflexivity.
  - cbn [allChars] in Hall. apply andb_true_iff in Hall. destruct Hall as [Ha Hall].
    destruct (getChar_at s done a body Hs Hp) as [Hc [Hp1 [Hst1 [_ [Hlvl1 _]]]]].
    destruct (getChar s) as [c s1]. cbn [fst snd] in *. subst c.
    replace (ch a =? EOF) with false
      by (symmetry; apply Z.eqb_neq; pose proof (ch_range a); unfold EOF; lia).
    unfold reads.
    replace (m_iCommentLevel s1 >? 0) with true
      by (symmetry; rewrite Z.gtb_ltb; apply Z.ltb_lt; lia).
    unfold isCommentChar in Ha. apply andb_true_iff in Ha. destruct Ha as [_ Ha].
    apply negb_true_iff in Ha. rewrite ch_eqb, Ha. unfold ret.
    apply (IH fuel (done ++ String a EmptyString) s1).
    + rewrite Hst1, Hs, append_associative. reflexivity.
    + rewrite Hp1, length_append. cbn. lia.
    + lia.
    + exact Hall.
    + cbn in Hfuel. lia.
Qed.



(** The first turn of the first loop on the two characters that open a
    block comment. *)
Lemma skip_loop_opens_comment (fuel : nat) (s : QMLScope) (done rest : string) :
  m_sStream s = done ++ String "/" (String "*" rest) -> m_iPos s = String.length done ->
  m_iCommentLevel s = 0 ->
  exists s2,
    skip_loop (S fuel) s = skip_loop fuel s2
    /\ m_sStream s2 = m_sStream s
    /\ m_iPos s2 = String.length (done ++ "/*")
    /\ m_iCommentLevel s2 = 1.
Proof.
  intros Hs Hp Hlevel. cbn [skip_loop]. unfold bind, GET.
  destruct (getChar_at s done "/" (String "*" rest) Hs Hp) as [Hc [Hp1 [Hst1 [_ [Hlvl1 _]]]]].
  destruct (getChar s) as [c s1]. cbn [fst snd] in *. subst c.
  change (ch "/" =? EOF) with false. cbn beta iota.
  unfold reads. rewrite Hlvl1, Hlevel. change (0 >? 0) with false.
  rewrite Z.eqb_refl. cbn beta iota.
  destruct (getChar_at s1 (done ++ "/") "*" rest) as [Hc [Hp2 [Hst2 [_ [Hlvl2 _]]]]].
  { rewrite Hst1, Hs, append_associative. reflexivity. }
  { rewrite Hp1, length_append. cbn. lia. }
  destruct (getChar s1) as [c s2]. cbn [fst snd] in *. subst c.
  rewrite Z.eqb_refl. unfold update.
  eexists. split; [reflexivity|]. cbn.
  rewrite Hst2, Hst1, Hp2, Hlvl2, Hlvl1, Hlevel, !length_append. cbn.
  repeat split; lia.
Qed.

Lemma comment_unterminated (s : QMLScope) (done body : string) (LVAL : UParserValue) :
  m_sStream s = done ++ String "/" (String "*" body) -> m_iPos s = String.length done ->
  allChars isCommentChar body = true ->
  exists s', parseNextToken (2 + String.length body) LVAL s = Some ((0, LVAL), s').
Proof.
  intros Hs Hp Hall. cbn [Nat.add].
  unfold parseNextToken, bind, update. cbn beta iota.
  set (s0 := setParsingHexa false _).
  destruct (skip_loop_opens_comment (S (String.length body)) s0 done body Hs Hp eq_refl)
    as [s2 [Hopen [Hst2 [Hp2 Hlvl2]]]].
  destruct (skip_loop_in_comment body (S (String.length body)) (done ++ "/*") s2)
    as [s' Hskip].
  - rewrite Hst2. cbn. rewrite Hs, append_associative. reflexivity.
  - exact Hp2.
  - lia.
  - exact Hall.
  - lia.
  - exists s'. rewrite Hopen, Hskip. reflexivity.
Qed.


(** A block comment that is not closed before the stream ends (its
    text ASCII, without a star): the call returns 0, the end of the
    stream, and shows no error. *)
Theorem unterminated_comment_is_end_of_stream (s : QMLScope) (done body : string)
        (LVAL : UParserValue) (extra : nat) :
  m_sStream s = done ++ String "/" (String "*" body) ->
  m_iPos s = String.length done ->
  allChars isCommentChar body = true ->
  exists s', parseNextToken (2 + String.length body + extra) LVAL s = Some ((0, LVAL), s').
Proof.
  intros Hs Hp Hall.
  destruct (comment_unterminated s done body LVAL Hs Hp Hall) as [s' Htoken].
  exists s'. apply parseNextToken_enough. exact Htoken.
Qed.

Lemma unterminated_comment_is_end_of_stream_witness :
  exists s', parseNextToken 13 LNone (openScope "/* Item { }") = Some ((0, LNone), s').
Proof.
  apply (unterminated_comment_is_end_of_stream (openScope "/* Item { }") "" " Item { }"
           LNone 2); reflexivity.
Defined.



(** *** White space before a token *)

Lemma resets_fixed (s : QMLScope) :
  m_pCurrentTokenValue s = EmptyString -> m_iCommentLevel s = 0 ->
  m_bParsingFloat s = false -> m_bParsingHexa s = false ->
  setParsingHexa false (setParsingFloat false (setCommentLevel 0 (setTokenValue "" s))) = s.
Proof.
  destruct s. cbn. intros -> -> -> ->. reflexivity.
Qed.

Lemma skip_loop_white_prefix (white : string) :
  forall (fuel : nat) (done rest : string) (s : QMLScope),
    m_sStream s = done ++ white ++ rest -> m_iPos s = String.length done ->
    m_iCommentLevel s = 0 -> allWhite white = true ->
    exists s',
      skip_loop (String.length white + fuel) s = skip_loop fuel s'
      /\ sameText s s'
      /\ m_iPos s' = String.length (done ++ white).
Proof.
  induction white as [|a white IH]; intros fuel done rest s Hs Hp Hlevel Hw.
  - exists s. rewrite append_empty. repeat split; try reflexivity. exact Hp.
  - cbn [allWhite] in Hw. apply andb_true_iff in Hw. destruct Hw as [Ha Hw].
    apply Z.leb_le in Ha. cbn [append] in Hs.
    cbn [String.length Nat.add skip_loop]. unfold bind, GET.
    destruct (getChar_at s done a (white ++ rest) Hs Hp) as [Hc [Hp1 Hsame]].
    destruct (getChar s) as [c s1]. cbn [fst snd] in *. subst c.
    replace (ch a =? EOF) with false
      by (symmetry; apply Z.eqb_neq; pose proof (ch_range a); unfold EOF; lia).
    unfold reads. destruct Hsame as [Hst1 [Htok1 [Hlvl1 [Hfl1 Hhx1]]]].
    rewrite Hlvl1, Hlevel. change (0 >? 0) with false.
    replace (ch a =? ch "/") with false by (symmetry; apply Z.eqb_neq; cbn; lia).
    replace (ch a >? ch " ") with false
      by (symmetry; rewrite Z.gtb_ltb; apply Z.ltb_ge; cbn; lia).
    destruct (IH fuel (done ++ String a EmptyString) rest s1) as [s' [Hskip [Hsame' Hp']]].
    + rewrite Hst1, Hs, append_associative. reflexivity.
    + rewrite Hp1, length_append. cbn. lia.
    + congruence.
    + exact Hw.
    + exists s'. split; [exact Hskip|]. split.
      * apply (sameText_trans s s1); [repeat split; assumption | exact Hsame'].
      * rewrite Hp', append_associative. reflexivity.
Qed.

Lemma skip_loop_enough (extra fuel : nat) :
  refines (skip_loop fuel) (skip_loop (extra + fuel)).
Proof.
  induction extra as [|extra IH]; [apply refines_refl|].
  intros s r H. cbn [Nat.add]. apply skip_loop_more, IH, H.
Qed.

(** White space before a token changes nothing but the place: what the
    call made from the token returns, the call made before the white
    space returns as well, given one more turn per white character. *)
Lemma white_space_then_token (s : QMLScope) (done white rest : string)
        (LVAL : UParserValue) (fuel : nat) :
  m_sStream s = done ++ white ++ rest ->
  m_iPos s = String.length done ->
  allWhite white = true ->
  exists s',
    m_sStream s' = m_sStream s
    /\ m_iPos s' = String.length (done ++ white)
    /\ forall r, parseNextToken fuel LVAL s' = Some r ->
                 parseNextToken (String.length white + fuel) LVAL s = Some r.
Proof.
  intros Hs Hp Hw.
  destruct (skip_loop_white_prefix white fuel done rest
              (setParsingHexa false
                 (setParsingFloat false (setCommentLevel 0 (setTokenValue "" s))))
              Hs Hp eq_refl Hw)
    as [s' [Hskip [[Hst [Htok [Hlvl [Hfl Hhx]]]] Hp']]].
  cbn in Hst, Htok, Hlvl, Hfl, Hhx.
  exists s'. split; [exact Hst|]. split; [exact Hp'|].
  intros r Hr.
  pose proof (parseNextToken_enough fuel (String.length white) LVAL s' r Hr) as Hmore.
  rewrite Nat.add_comm in Hmore.
  unfold parseNextToken, bind, update in Hr, Hmore |- *.
  cbn beta iota in Hr, Hmore |- *.
  rewrite (resets_fixed s' Htok Hlvl Hfl Hhx) in Hr, Hmore.
  rewrite Hskip.
  destruct (skip_loop fuel s') as [[found s2]|] eqn:E; [|discriminate Hr].
  rewrite (skip_loop_enough (String.length white) fuel s' (found, s2) E) in Hmore.
  exact Hmore.
Qed.

(** White space before an identifier is skipped: the token is that of
    the identifier, and the stream is left on the character that
    followed the identifier. *)
Theorem white_space_before_identifier (s : QMLScope) (done white : string) (a0 : ascii)
        (more : string) (d : ascii) (rest : string) (LVAL : UParserValue) (extra : nat) :
  m_sStream s = done ++ white ++ String a0 (more ++ String d rest) ->
  m_iPos s = String.length done ->
  allWhite white = true ->
  isIdentStart a0 = true ->
  allChars isIdentChar more = true ->
  isIdentChar d = false ->
  exists s',
    parseNextToken (String.length white + (2 + String.length more + extra)) LVAL s
    = Some (identifierToken (String a0 more) LVAL, s')
    /\ m_sStream s' = m_sStream s
    /\ m_iPos s' = String.length (done ++ white ++ String a0 more).
Proof.
  intros Hs Hp Hw Hstart Hall Hd.
  destruct (white_space_then_token s done white (String a0 (more ++ String d rest)) LVAL
              (2 + String.length more + extra) Hs Hp Hw)
    as [s1 [Hst1 [Hp1 Hcall]]].
  destruct (identifier_token s1 (done ++ white) a0 more (String d rest) LVAL)
    as [s' [Htoken [Hst' Hpos']]].
  - rewrite Hst1, Hs, append_associative. reflexivity.
  - exact Hp1.
  - exact Hstart.
  - exact Hall.
  - cbn [endsToken]. rewrite Hd. reflexivity.
  - exists s'. split.
    + apply Hcall, parseNextToken_enough. exact Htoken.
    + split; [congruence|]. rewrite Hpos', !length_append. cbn. lia.
Qed.

Lemma white_space_before_identifier_witness :
  exists s',
    parseNextToken 8 LNone (setPos 6 (openScope "Item {  width: 1 }"))
    = Some ((TOKEN_IDENTIFIER, LString "width"), s')
    /\ m_sStream s' = "Item {  width: 1 }"
    /\ m_iPos s' = 13%nat.
Proof.
  apply (white_space_before_identifier (setPos 6 (openScope "Item {  width: 1 }"))
           "Item {" "  " "w" "idth" ":" " 1 }" LNone 0); reflexivity.
Defined.

End TokenProperties.
